(** * Lab-5a: the field-mapping layer and the market-metrics calculation

    A shallow embedding of
    - [shared/data_mapping.py]: [DataMapper.get_genre_display_name],
      [get_field_spec], [format_field_value], [extract_author_info] and
      [get_enhanced_book_data];
    - [phase2-webapp/app/main.py]: [calculate_market_metrics] and the
      helpers [parse_author_markdown], [format_author_display],
      [format_subcategories], [format_topics], [extract_report_date] and
      [extract_genre_from_filename];
    together with the Python built-ins these functions call ([str], [float],
    [int], the [str] methods, format specifications and the regular
    expressions).

    Conventions.
    - A Python [str] is a list of Unicode code points.
    - A Python [float] is a binary64 value (Rocq's primitive [float]); the
      conversions to and from text and integers go through [spec_float].
    - A call that can raise returns a [result]; [try]/[except] is
      [catch_value_type].
    - The record handed to [get_enhanced_book_data] lives in a store of
      dictionaries addressed by references, so that aliasing is visible.
    - The interpreter's limit on the number of digits of a conversion
      between [int] and text, and the allocator's answer for the texts
      whose length grows with a count, are parameters ([Interpreter]). *)

From Stdlib Require Import ZArith List String Ascii.
From Stdlib Require Import Floats.PrimFloat Floats.SpecFloat Floats.FloatOps.
From Stdlib Require DecimalPos DecimalN Floats.FloatAxioms.
From stdpp Require Import base option list gmap.

Set Default Proof Using "Type".
Local Open Scope Z_scope.

(* ================================================================== *)
(** * Python strings *)
(* ================================================================== *)

(** A code point. *)
Definition char := N.

(** A Python [str]. *)
Definition str := list char.

(** An ASCII literal of the source, as a [str]. *)
Definition py (s : string) : str := map N_of_ascii (list_ascii_of_string s).

(** The star glyph U+2B50 used by the rating rule. *)
Definition star_glyph : str := [11088%N].

Definition in_range (lo hi c : N) : bool := ((lo <=? c) && (c <=? hi))%N.

Definition is_ascii (c : char) : bool := (c <? 128)%N.
Definition is_ascii_digit (c : char) : bool := in_range 48 57 c.
Definition is_ascii_upper (c : char) : bool := in_range 65 90 c.
Definition is_ascii_lower (c : char) : bool := in_range 97 122 c.
Definition is_ascii_alpha (c : char) : bool := is_ascii_upper c || is_ascii_lower c.
Definition ascii_to_upper (c : char) : char := if is_ascii_lower c then (c - 32)%N else c.
Definition ascii_to_lower (c : char) : char := if is_ascii_upper c then (c + 32)%N else c.

(** [str.isspace] on one character: the interpreter's whitespace table. *)
Definition py_isspace (c : char) : bool :=
  in_range 9 13 c || in_range 28 32 c || (c =? 133)%N || (c =? 160)%N
  || (c =? 5760)%N || in_range 8192 8202 c || (c =? 8232)%N || (c =? 8233)%N
  || (c =? 8239)%N || (c =? 8287)%N || (c =? 12288)%N.

(** C's [isspace] in the "C" locale ([Py_ISSPACE]). *)
Definition c_isspace (c : char) : bool := in_range 9 13 c || (c =? 32)%N.

(** The part of the interpreter's Unicode character database that the
    modelled built-ins consult.  The fields are asked about code points
    from 128 upwards only; on ASCII everything is fixed below. *)
Class UnicodeData := {
  (** [Cased] property. *)
  ucd_cased : char -> bool;
  (** full title-case mapping of a character. *)
  ucd_to_title : char -> str;
  (** full lower-case mapping of the character at an index of a string
      (it depends on the context for capital sigma). *)
  ucd_to_lower_at : str -> nat -> char -> str;
  (** decimal digit value. *)
  ucd_decimal : char -> option N
}.

(** A database that knows no character beyond ASCII: nothing there is
    cased or a digit. *)
Definition ascii_only : UnicodeData := {|
  ucd_cased := fun _ => false;
  ucd_to_title := fun c => [c];
  ucd_to_lower_at := fun _ _ c => [c];
  ucd_decimal := fun _ => None
|}.

(** Longest prefix whose characters satisfy [p], and the rest. *)
Fixpoint span (p : char -> bool) (s : str) : str * str :=
  match s with
  | c :: s' => if p c then let '(a, b) := span p s' in (c :: a, b) else ([], s)
  | [] => ([], [])
  end.

Definition lstrip_by (p : char -> bool) (s : str) : str := snd (span p s).
Definition rstrip_by (p : char -> bool) (s : str) : str := rev (lstrip_by p (rev s)).

(** [s.strip()]. *)
Definition strip (s : str) : str := rstrip_by py_isspace (lstrip_by py_isspace s).

(** [c in s] for a one-character needle. *)
Definition contains (c : char) (s : str) : bool := existsb (N.eqb c) s.

(** [s.split(c)] for a one-character separator: never empty, one more
    piece than there are separators. *)
Fixpoint split (sep : char) (s : str) : list str :=
  match s with
  | [] => [[]]
  | c :: s' =>
      if (c =? sep)%N then [] :: split sep s'
      else match split sep s' with
           | piece :: pieces => (c :: piece) :: pieces
           | [] => [[c]]
           end
  end.

(** [sep.join(pieces)]. *)
Fixpoint join (sep : str) (pieces : list str) : str :=
  match pieces with
  | [] => []
  | [p] => p
  | p :: ps => p ++ sep ++ join sep ps
  end.

(** [s.replace(a, b)] for one-character [a] and [b]. *)
Definition replace (a b : char) (s : str) : str :=
  map (fun c => if (c =? a)%N then b else c) s.

(** [s * n]. *)
Definition repeat_str (s : str) (n : nat) : str := concat (replicate n s).

Section Casing.
Context {ucd : UnicodeData}.

Definition is_cased (c : char) : bool :=
  if is_ascii c then is_ascii_alpha c else ucd_cased c.
Definition to_title (c : char) : str :=
  if is_ascii c then [ascii_to_upper c] else ucd_to_title c.
Definition to_lower_at (whole : str) (i : nat) (c : char) : str :=
  if is_ascii c then [ascii_to_lower c] else ucd_to_lower_at whole i c.

(** The loop of [str.title]: a character is title-cased when the one
    before it is not cased, lower-cased otherwise. *)
Fixpoint title_from (whole : str) (i : nat) (previous_is_cased : bool)
    (rest : str) : str :=
  match rest with
  | [] => []
  | c :: rest' =>
      (if previous_is_cased then to_lower_at whole i c else to_title c)
      ++ title_from whole (S i) (is_cased c) rest'
  end.

(** [s.title()]. *)
Definition title (s : str) : str := title_from s 0 false s.
End Casing.

(* ================================================================== *)
(** * Exceptions *)
(* ================================================================== *)

(** The exception classes the modelled code can meet. *)
Inductive exn :=
  ValueError | TypeError | OverflowError | AttributeError | KeyError | MemoryError.

(** The outcome of a call: a value, or an exception on its way up. *)
Inductive result (A : Type) :=
  | Ok (a : A)
  | Raise (e : exn).
Arguments Ok {A} a.
Arguments Raise {A} e.

Definition rbind {A B} (r : result A) (k : A -> result B) : result B :=
  match r with
  | Ok a => k a
  | Raise e => Raise e
  end.

(** [try: body except (ValueError, TypeError): handler]. *)
Definition catch_value_type {A} (body : result A) (handler : result A) : result A :=
  match body with
  | Raise ValueError | Raise TypeError => handler
  | other => other
  end.

Definition option_to_result {A} (e : exn) (o : option A) : result A :=
  match o with
  | Some a => Ok a
  | None => Raise e
  end.

(* ================================================================== *)
(** * The interpreter *)
(* ================================================================== *)

(** What the modelled built-ins depend on besides their arguments: the
    limit on the number of digits of a conversion between [int] and
    text ([sys.get_int_max_str_digits()]: 4300 unless it is set
    otherwise, 0 for no limit), and whether the allocator has room for a
    new text of a given number of characters. *)
Class Interpreter := {
  int_max_str_digits : nat;
  can_allocate : Z -> bool
}.

(** The number of digits up to which the limit is not looked at. *)
Definition str_digits_threshold : nat := 640.

(** Whether a conversion between [int] and decimal text of [k] digits,
    sign and underscores not counted, is refused with [ValueError]. *)
Definition exceeds_digit_limit {rt : Interpreter} (k : nat) : bool :=
  (0 <? int_max_str_digits)%nat && (str_digits_threshold <? k)%nat
  && (int_max_str_digits <? k)%nat.

(** A new text with the characters of [s]: [MemoryError] when the
    allocator has no room for it.  Only the texts whose length grows
    with a count are checked against the allocator. *)
Definition new_str {rt : Interpreter} (s : str) : result str :=
  if (length s =? 0)%nat || can_allocate (Z.of_nat (length s)) then Ok s
  else Raise MemoryError.

(* ================================================================== *)
(** * Numbers and their text *)
(* ================================================================== *)

Definition digit_char (d : N) : char := (48 + d)%N.

Fixpoint uint_digits (u : Decimal.uint) : str :=
  match u with
  | Decimal.Nil => []
  | Decimal.D0 u' => digit_char 0 :: uint_digits u'
  | Decimal.D1 u' => digit_char 1 :: uint_digits u'
  | Decimal.D2 u' => digit_char 2 :: uint_digits u'
  | Decimal.D3 u' => digit_char 3 :: uint_digits u'
  | Decimal.D4 u' => digit_char 4 :: uint_digits u'
  | Decimal.D5 u' => digit_char 5 :: uint_digits u'
  | Decimal.D6 u' => digit_char 6 :: uint_digits u'
  | Decimal.D7 u' => digit_char 7 :: uint_digits u'
  | Decimal.D8 u' => digit_char 8 :: uint_digits u'
  | Decimal.D9 u' => digit_char 9 :: uint_digits u'
  end.

(** Decimal digits of a natural number, most significant first; [0] is
    the one digit [0]. *)
Definition digits_of_N (n : N) : str := uint_digits (N.to_uint n).

(** The number a run of ASCII digits spells. *)
Definition N_of_digits (ds : str) : N :=
  fold_left (fun acc c => (10 * acc + (c - 48))%N) ds 0%N.

Definition minus_sign : str := py "-".

(** The decimal text of an [int], sign and digits: what [str(n)] gives
    when the number of digits is within the limit. *)
Definition int_str (n : Z) : str :=
  (if n <? 0 then minus_sign else []) ++ digits_of_N (Z.abs_N n).

(** Commas between groups of three digits, counted from the right; the
    argument is the digit string reversed. *)
Fixpoint group3_rev (fuel : nat) (rds : str) : str :=
  match fuel, rds with
  | S fuel', a :: b :: c :: (_ :: _) as more =>
      a :: b :: c :: 44%N :: group3_rev fuel' (skipn 3 rds)
  | _, _ => rds
  end.

(** The decimal text of an [int] with a comma between groups of three
    digits. *)
Definition group_thousands (n : Z) : str :=
  let ds := digits_of_N (Z.abs_N n) in
  (if n <? 0 then minus_sign else []) ++ rev (group3_rev (length ds) (rev ds)).

(** [str(n)] for an [int]: [ValueError] beyond the limit on digits. *)
Definition int_to_str {rt : Interpreter} (n : Z) : result str :=
  if exceeds_digit_limit (length (digits_of_N (Z.abs_N n))) then Raise ValueError
  else Ok (int_str n).

(** [format(n, ',')]: the digits are made as for [str(n)], then grouped. *)
Definition int_format_grouped {rt : Interpreter} (n : Z) : result str :=
  if exceeds_digit_limit (length (digits_of_N (Z.abs_N n))) then Raise ValueError
  else Ok (group_thousands n).

(** ** binary64 *)

(** The binary64 value nearest to [n / d] (ties to even), for [0 <= n]
    and [0 < d]; infinite when the quotient is out of range. *)
Definition round_ratio (neg : bool) (n d : Z) : spec_float :=
  if n =? 0 then S754_zero neg
  else
    let '(q, e, l) := SFdiv_core_binary prec emax n 0 d 0 in
    binary_round_aux prec emax neg q e l.

(** The binary64 value nearest to [m * 10 ^ e] for [0 <= m]. *)
Definition round_decimal (neg : bool) (m : Z) (e : Z) : spec_float :=
  if 0 <=? e then round_ratio neg (m * 10 ^ e) 1 else round_ratio neg m (10 ^ (- e)).

Definition is_infinite_sf (x : spec_float) : bool :=
  match x with S754_infinity _ => true | _ => false end.

(** [float(n)] for an [int]: the nearest binary64 value, or
    [OverflowError] when that is out of range. *)
Definition float_of_int (n : Z) : result float :=
  let sf := binary_normalize prec emax n 0 false in
  if is_infinite_sf sf then Raise OverflowError else Ok (SF2Prim sf).

(** [int(x)] for a [float]: truncation towards zero. *)
Definition int_of_float (x : float) : result Z :=
  match Prim2SF x with
  | S754_nan => Raise ValueError
  | S754_infinity _ => Raise OverflowError
  | S754_zero _ => Ok 0
  | S754_finite s m e =>
      let a := if 0 <=? e then Z.pos m * 2 ^ e else Z.pos m / 2 ^ (- e) in
      Ok (if s then - a else a)
  end.

(** The integer nearest to [n / d], ties to even ([0 <= n], [0 < d]). *)
Definition round_half_even (n d : Z) : Z :=
  let q := n / d in
  let r := n mod d in
  match 2 * r ?= d with
  | Lt => q
  | Gt => q + 1
  | Eq => if Z.even q then q else q + 1
  end.

Definition zeros (n : nat) : str := replicate n (digit_char 0).

(** A non-negative integer [q] read as [q / 10 ^ p], in fixed notation
    with [p] digits after the point. *)
Definition fixed_digits (p : nat) (q : Z) : str :=
  let ds := digits_of_N (Z.to_N q) in
  let ds := zeros (S p - length ds) ++ ds in
  let k := (length ds - p)%nat in
  if (p =? 0)%nat then ds else take k ds ++ py "." ++ drop k ds.

(** [format(x, '.pf')] for a [float]. *)
Definition float_format_fixed (p : nat) (x : float) : str :=
  match Prim2SF x with
  | S754_nan => py "nan"
  | S754_infinity s => (if s then minus_sign else []) ++ py "inf"
  | S754_zero s => (if s then minus_sign else []) ++ fixed_digits p 0
  | S754_finite s m e =>
      let scaled :=
        if 0 <=? e then Z.pos m * 2 ^ e * 10 ^ Z.of_nat p
        else round_half_even (Z.pos m * 10 ^ Z.of_nat p) (2 ^ (- e)) in
      (if s then minus_sign else []) ++ fixed_digits p scaled
  end.

(** ** Text to number *)

Section NumberText.
Context {ucd : UnicodeData}.

(** What [float] and [int] do to a non-ASCII argument before parsing:
    whitespace becomes a blank, a decimal digit its ASCII digit, and
    the text is cut at the first other character, replaced by [?]. *)
Fixpoint transform_decimal_and_space (s : str) : str :=
  match s with
  | [] => []
  | c :: s' =>
      if (c <? 127)%N then c :: transform_decimal_and_space s'
      else if py_isspace c then 32%N :: transform_decimal_and_space s'
      else match ucd_decimal c with
           | Some d => digit_char d :: transform_decimal_and_space s'
           | None => [63%N]
           end
  end.

Definition to_ascii_number_text (s : str) : str :=
  if forallb is_ascii s then s else transform_decimal_and_space s.
End NumberText.

Definition c_strip (s : str) : str := rstrip_by c_isspace (lstrip_by c_isspace s).

Definition underscore : char := 95%N.

(** Underscores of a numeric literal of [float]: dropped when each has a
    digit before and after it, an error otherwise. *)
Fixpoint drop_digit_underscores (prev : char) (s : str) : option str :=
  match s with
  | [] => if (prev =? underscore)%N then None else Some []
  | c :: s' =>
      if (c =? underscore)%N then
        if is_ascii_digit prev then drop_digit_underscores c s' else None
      else if (prev =? underscore)%N && negb (is_ascii_digit c) then None
      else cons c <$> drop_digit_underscores c s'
  end.

(** An optional sign: whether it is a minus, and the rest. *)
Definition take_sign (s : str) : bool * str :=
  match s with
  | 45%N :: s' => (true, s')
  | 43%N :: s' => (false, s')
  | _ => (false, s)
  end.

Definition is_e (c : char) : bool := (c =? 101)%N || (c =? 69)%N.

(** The exponent part of a decimal literal: empty, or [e], an optional
    sign and at least one digit, up to the end of the text. *)
Definition parse_exponent (s : str) : option Z :=
  match s with
  | [] => Some 0
  | c :: s' =>
      if is_e c then
        let '(neg, ds) := take_sign s' in
        if forallb is_ascii_digit ds && negb (length ds =? 0)%nat then
          Some (if neg then - Z.of_N (N_of_digits ds) else Z.of_N (N_of_digits ds))
        else None
      else None
  end.

(** A decimal literal without its sign: digits, an optional point and
    digits, with a digit on at least one side, then the exponent part.
    The result is the integer the digits spell and the power of ten to
    scale it by. *)
Definition parse_decimal (s : str) : option (Z * Z) :=
  let '(ip, r1) := span is_ascii_digit s in
  let '(fp, r2) :=
    match r1 with
    | 46%N :: r => span is_ascii_digit r
    | _ => ([], r1)
    end in
  if (length (ip ++ fp) =? 0)%nat then None
  else
    e ← parse_exponent r2;
    Some (Z.of_N (N_of_digits (ip ++ fp)), e - Z.of_nat (length fp)).

(** What the text parser of [float] accepts once blanks and underscores
    are gone: [inf], [infinity] or [nan] in any case, or a decimal
    literal, each after an optional sign. *)
Definition parse_float_text (s : str) : option spec_float :=
  let '(neg, body) := take_sign s in
  let word := map ascii_to_lower body in
  if bool_decide (word = py "inf") || bool_decide (word = py "infinity") then
    Some (S754_infinity neg)
  else if bool_decide (word = py "nan") then Some S754_nan
  else
    '(m, e) ← parse_decimal body;
    Some (round_decimal neg m e).

Section Conversions.
Context {ucd : UnicodeData} {rt : Interpreter}.

(** [float(s)] for a [str]. *)
Definition float_of_str (s : str) : result float :=
  let t := c_strip (to_ascii_number_text s) in
  let cleaned := if contains underscore t then drop_digit_underscores 0%N t else Some t in
  option_to_result ValueError (SF2Prim <$> (cleaned ≫= parse_float_text)).

(** The digits of a base-ten [int] literal, single underscores between
    digits dropped; [prev] is the character just read. *)
Fixpoint int_literal_digits (prev : char) (s : str) : option str :=
  match s with
  | [] => if (prev =? underscore)%N then None else Some []
  | c :: s' =>
      if (c =? underscore)%N then
        if is_ascii_digit prev then int_literal_digits c s' else None
      else if is_ascii_digit c then cons c <$> int_literal_digits c s'
      else None
  end.

(** [int(s)] for a [str]: blanks, an optional sign, digits, no more of
    them than the limit allows. *)
Definition int_of_str (s : str) : result Z :=
  let t := c_strip (to_ascii_number_text s) in
  let '(neg, body) := take_sign t in
  option_to_result ValueError
    (ds ← int_literal_digits 0%N body;
     if (length ds =? 0)%nat || exceeds_digit_limit (length ds) then None
     else Some (if neg then - Z.of_N (N_of_digits ds) else Z.of_N (N_of_digits ds))).
End Conversions.

(** ** [repr] of a float *)

Definition sf_eqb (x y : spec_float) : bool :=
  match x, y with
  | S754_zero a, S754_zero b | S754_infinity a, S754_infinity b => Bool.eqb a b
  | S754_nan, S754_nan => true
  | S754_finite a m e, S754_finite b m' e' => Bool.eqb a b && (m =? m')%positive && (e =? e')
  | _, _ => false
  end.

Definition decimal_length (n : Z) : Z := Z.of_nat (length (digits_of_N (Z.to_N n))).

(** [n / d * 10 ^ k] as a fraction. *)
Definition scale10 (n d k : Z) : Z * Z :=
  if 0 <=? k then (n * 10 ^ k, d) else (n, d * 10 ^ (- k)).

(** The [k] with [10 ^ k <= n / d < 10 ^ (k + 1)], for positive [n], [d]. *)
Definition decimal_exponent (n d : Z) : Z :=
  let k := decimal_length n - decimal_length d in
  let '(a, b) := scale10 n d (- k) in
  if b <=? a then k else k - 1.

(** The shortest decimal that reads back as the positive float [x], whose
    exact value is [n / d]: for 1, 2, ... significant digits, the two
    decimals around [n / d] are tried and the nearer one that reads back
    as [x] is taken.  The result is the integer the digits spell and
    the power of ten to scale it by. *)
Fixpoint shortest_decimal (fuel : nat) (p : Z) (x : spec_float) (n d k : Z) : Z * Z :=
  let e10 := k - p + 1 in
  let '(a, b) := scale10 n d (- e10) in
  let lo := a / b in
  let hi := lo + 1 in
  let nearest := round_half_even a b in
  match fuel with
  | O => (nearest, e10)
  | S fuel' =>
      let lo_ok := sf_eqb (round_decimal false lo e10) x in
      let hi_ok := sf_eqb (round_decimal false hi e10) x in
      if lo_ok && hi_ok then (nearest, e10)
      else if lo_ok then (lo, e10)
      else if hi_ok then (hi, e10)
      else shortest_decimal fuel' (p + 1) x n d k
  end.

Definition strip_trailing_zeros (ds : str) : str :=
  rstrip_by (N.eqb (digit_char 0)) ds.

(** The digits of [repr] laid out: [ds] are the significant digits and
    the value is [0.ds * 10 ^ decpt]; scientific notation is used for
    [decpt] above 16 or below -3. *)
Definition repr_layout (ds : str) (decpt : Z) : str :=
  let nd := Z.of_nat (length ds) in
  if (decpt <? -3) || (16 <? decpt) then
    let e := decpt - 1 in
    let es := digits_of_N (Z.abs_N e) in
    take 1 ds ++ (if 1 <? nd then py "." ++ drop 1 ds else [])
    ++ py "e" ++ (if e <? 0 then py "-" else py "+")
    ++ zeros (2 - length es) ++ es
  else if decpt <=? 0 then py "0." ++ zeros (Z.to_nat (- decpt)) ++ ds
  else if nd <=? decpt then ds ++ zeros (Z.to_nat (decpt - nd)) ++ py ".0"
  else take (Z.to_nat decpt) ds ++ py "." ++ drop (Z.to_nat decpt) ds.

(** [repr(x)], which is also [str(x)], for a [float]. *)
Definition float_repr (x : float) : str :=
  match Prim2SF x with
  | S754_nan => py "nan"
  | S754_infinity s => (if s then minus_sign else []) ++ py "inf"
  | S754_zero s => (if s then minus_sign else []) ++ py "0.0"
  | S754_finite s m e =>
      let '(n, d) := if 0 <=? e then (Z.pos m * 2 ^ e, 1) else (Z.pos m, 2 ^ (- e)) in
      let '(c, e10) := shortest_decimal 16 1 (S754_finite false m e) n d (decimal_exponent n d) in
      let ds := digits_of_N (Z.to_N c) in
      (if s then minus_sign else [])
      ++ repr_layout (strip_trailing_zeros ds) (e10 + Z.of_nat (length ds))
  end.

(* ================================================================== *)
(** * Python scalars *)
(* ================================================================== *)

(** The values a raw record holds: [None], [bool], [int], [float], [str]. *)
Inductive value :=
  | VNone
  | VBool (b : bool)
  | VInt (n : Z)
  | VFloat (x : float)
  | VStr (s : str).

(** [value is None or value == '']. *)
Definition is_none_or_empty (v : value) : bool :=
  match v with
  | VNone | VStr [] => true
  | _ => false
  end.

(** [not v]: the falsy scalars. *)
Definition py_not (v : value) : bool :=
  match v with
  | VNone => true
  | VBool b => negb b
  | VInt n => n =? 0
  | VFloat x => PrimFloat.eqb x 0%float
  | VStr s => (length s =? 0)%nat
  end.

(** [str(v)]. *)
Definition py_str {rt : Interpreter} (v : value) : result str :=
  match v with
  | VNone => Ok (py "None")
  | VBool true => Ok (py "True")
  | VBool false => Ok (py "False")
  | VInt n => int_to_str n
  | VFloat x => Ok (float_repr x)
  | VStr s => Ok s
  end.

(** Largest index-sized integer of a 64-bit build ([sys.maxsize]). *)
Definition sys_maxsize : Z := 2 ^ 63 - 1.

(** [s * n] for an [int] count: [OverflowError] for a count that is not
    index-sized, the empty text for a count below one and [s] itself for
    the count one; else [OverflowError] when the length of the result is
    not index-sized and [MemoryError] when the allocator has no room for
    it. *)
Definition str_mul {rt : Interpreter} (s : str) (n : Z) : result str :=
  if (n <? - sys_maxsize - 1) || (sys_maxsize <? n) then Raise OverflowError
  else if n <? 1 then Ok []
  else if n =? 1 then Ok s
  else if sys_maxsize / n <? Z.of_nat (length s) then Raise OverflowError
  else if (length s =? 0)%nat then Ok []
  else if can_allocate (n * Z.of_nat (length s)) then Ok (repeat_str s (Z.to_nat n))
  else Raise MemoryError.

Section Builtins.
Context {ucd : UnicodeData} {rt : Interpreter}.

(** [float(v)]. *)
Definition py_float (v : value) : result float :=
  match v with
  | VNone => Raise TypeError
  | VBool b => Ok (if b then 1%float else 0%float)
  | VInt n => float_of_int n
  | VFloat x => Ok x
  | VStr s => float_of_str s
  end.

(** [int(v)]. *)
Definition py_int (v : value) : result Z :=
  match v with
  | VNone => Raise TypeError
  | VBool b => Ok (if b then 1 else 0)
  | VInt n => Ok n
  | VFloat x => int_of_float x
  | VStr s => int_of_str s
  end.
End Builtins.

(* ================================================================== *)
(** * The two regular expressions of [extract_author_info] *)
(* ================================================================== *)

Definition ch (a : ascii) : char := N_of_ascii a.

(** [\[([^\]]+)\]\(([^)]+)\)] tried at the start of [s]: the two groups.
    A negated class followed by the character it excludes can only match
    its longest run, so there is nothing to backtrack into. *)
Definition match_link_here (s : str) : option (str * str) :=
  match s with
  | c :: r =>
      if (c =? ch "[")%N then
        let '(name, r1) := span (fun x => negb (x =? ch "]")%N) r in
        match name, r1 with
        | _ :: _, c1 :: c2 :: r2 =>
            if (c1 =? ch "]")%N && (c2 =? ch "(")%N then
              let '(url, r3) := span (fun x => negb (x =? ch ")")%N) r2 in
              match url, r3 with
              | _ :: _, c3 :: _ => if (c3 =? ch ")")%N then Some (name, url) else None
              | _, _ => None
              end
            else None
        | _, _ => None
        end
      else None
  | [] => None
  end.

(** [re.search] of the link pattern: the match at the leftmost position
    that has one. *)
Fixpoint search_link (s : str) : option (str * str) :=
  match match_link_here s with
  | Some g => Some g
  | None => match s with
            | [] => None
            | _ :: s' => search_link s'
            end
  end.

Definition is_upper_alnum (c : char) : bool := is_ascii_upper c || is_ascii_digit c.

(** [$]: the end of the text, or just before a line feed that ends it. *)
Definition at_dollar (s : str) : bool :=
  match s with
  | [] => true
  | [c] => (c =? 10)%N
  | _ => false
  end.

(** [/([A-Z0-9]{10,})/?$] tried at the start of [s]: the group.  A shorter
    run than the longest leaves a character of the class next, where
    neither [/] nor [$] matches. *)
Definition match_isbn_here (s : str) : option str :=
  match s with
  | c :: r =>
      if (c =? ch "/")%N then
        let '(tok, r1) := span is_upper_alnum r in
        if (10 <=? length tok)%nat then
          match r1 with
          | c1 :: r2 =>
              if ((c1 =? ch "/")%N && at_dollar r2) || at_dollar r1 then Some tok else None
          | [] => Some tok
          end
        else None
      else None
  | [] => None
  end.

(** [re.search] of the identifier pattern. *)
Fixpoint search_isbn (s : str) : option str :=
  match match_isbn_here s with
  | Some g => Some g
  | None => match s with
            | [] => None
            | _ :: s' => search_isbn s'
            end
  end.

(* ================================================================== *)
(** * [DataMapper] *)
(* ================================================================== *)

(** Field display types. *)
Inductive FieldType := DISPLAY | HYPERLINK | DISPLAY_IMAGE | SEARCHABLE | IGNORE.

(** Field specification from data mapping. *)
Record FieldSpec := {
  field_name : str;
  display_name : str;
  field_type : FieldType;
  description : option str;
  format_rule : option str
}.

(** The state of a [DataMapper] that the modelled methods read: the two
    tables built from the mapping file. *)
Record DataMapper := {
  genre_mapping : gmap str str;
  field_specs : gmap str FieldSpec
}.

(** A mapper whose mapping file was missing or unreadable. *)
Definition empty_mapper : DataMapper := {| genre_mapping := ∅; field_specs := ∅ |}.

Section Methods.
Context {ucd : UnicodeData} {rt : Interpreter}.
Variable self : DataMapper.

(** Get display name for genre code.  The fallback is an argument of
    [dict.get], so it is computed, and [genre_code.replace] looked up,
    whether or not the code is in the table. *)
Definition get_genre_display_name (genre_code : value) : result str :=
  match genre_code with
  | VStr code =>
      let fallback := title (replace (ch "_") (ch " ") code) in
      Ok (default fallback (genre_mapping self !! code))
  | _ => Raise AttributeError
  end.

(** Get field specification for given field. *)
Definition get_field_spec (name : str) : option FieldSpec :=
  field_specs self !! name.

(** [[item.strip() for item in value.split(sep) if item.strip()]]. *)
Definition stripped_items (sep : char) (v : str) : list str :=
  map strip (filter (fun item => negb (length (strip item) =? 0)%nat) (split sep v)).

(** Format field value according to mapping rules. *)
Definition format_field_value (name : str) (v : value) : result str :=
  if is_none_or_empty v then Ok (py "N/A")
  else
    match get_field_spec name with
    | None => py_str v
    | Some _ =>
        if bool_decide (name = py "price") then
          catch_value_type
            (rbind (py_float v) (fun x =>
             Ok (py "$" ++ float_format_fixed 2 x)))
            (py_str v)
        else if bool_decide (name = py "reviewAverage") then
          catch_value_type
            (rbind (py_float v) (fun rating =>
             rbind (int_of_float rating) (fun n =>
             rbind (str_mul star_glyph n) (fun stars =>
             new_str (stars ++ py " " ++ float_format_fixed 1 rating)))))
            (py_str v)
        else if bool_decide (name = py "nReviews") then
          catch_value_type
            (rbind (py_int v) (fun n => int_format_grouped n))
            (py_str v)
        else if bool_decide (name = py "releaseDate") then py_str v
        else if bool_decide (name = py "isTrad") then
          match v with
          | VBool b => Ok (if b then py "Yes" else py "No")
          | _ => py_str v
          end
        else if bool_decide (name = py "isFree") then
          match v with
          | VBool b => Ok (if b then py "Free" else py "Paid")
          | _ => py_str v
          end
        else if bool_decide (name = py "topicTags") || bool_decide (name = py "subcatsList") then
          match v with
          | VStr s =>
              if contains (ch "|") s then Ok (join (py ", ") (stripped_items (ch "|") s))
              else if contains (ch "#") s then Ok (join (py ", ") (stripped_items (ch "#") s))
              else py_str v
          | _ => py_str v
          end
        else py_str v
    end.

(** Extract author name, URL, and ISBN from markdown format. *)
Definition extract_author_info (author_text : value)
    : result (str * option str * option str) :=
  if py_not author_text then Ok (py "Unknown Author", None, None)
  else
    match author_text with
    | VStr text =>
        match search_link text with
        | Some (author_name, author_url) =>
            Ok (author_name, Some author_url, search_isbn author_url)
        | None => Ok (text, None, None)
        end
    | _ => Raise TypeError
    end.
End Methods.

(* ================================================================== *)
(** * Dictionaries, references and the store *)
(* ================================================================== *)

(** A [dict] with [str] keys: its items in insertion order. *)
Definition pydict := list (str * value).

(** [d.get(k)]. *)
Fixpoint dict_get (k : str) (d : pydict) : option value :=
  match d with
  | [] => None
  | (k', v) :: d' => if decide (k' = k) then Some v else dict_get k d'
  end.

(** [k in d]. *)
Definition dict_has (k : str) (d : pydict) : bool := bool_decide (is_Some (dict_get k d)).

(** [d[k] = v]: the value of an existing key is replaced where it
    stands, a new key goes to the end. *)
Fixpoint dict_set (k : str) (v : value) (d : pydict) : pydict :=
  match d with
  | [] => [(k, v)]
  | (k', v') :: d' => if decide (k' = k) then (k, v) :: d' else (k', v') :: dict_set k v d'
  end.

(** Computations that read and write a state and may raise; the state
    reached when an exception leaves is kept. *)
Definition SE (S A : Type) : Type := S -> result A * S.

Definition ret {S A} (a : A) : SE S A := fun s => (Ok a, s).

Definition bind {S A B} (m : SE S A) (k : A -> SE S B) : SE S B :=
  fun s => match m s with
           | (Ok a, s') => k a s'
           | (Raise e, s') => (Raise e, s')
           end.

(** A call that touches no state. *)
Definition lift {S A} (r : result A) : SE S A := fun s => (r, s).

(** The monad notations [x ← m; k] and [m ;; k] are read with [bind]. *)
Global Instance SE_ret {S} : MRet (SE S) := fun A a => ret a.
Global Instance SE_bind {S} : MBind (SE S) := fun A B k m => bind m k.

(** [for x in l: body(x)]. *)
Fixpoint for_each {S A} (l : list A) (body : A -> SE S unit) : SE S unit :=
  match l with
  | [] => ret tt
  | x :: l' => bind (body x) (fun _ => for_each l' body)
  end.

(** The operations on the dictionary a statement works on. *)
Definition d_contains (k : str) : SE pydict bool := fun d => (Ok (dict_has k d), d).
Definition d_getitem (k : str) : SE pydict value :=
  fun d => (option_to_result KeyError (dict_get k d), d).
Definition d_setitem (k : str) (v : value) : SE pydict unit := fun d => (Ok tt, dict_set k v d).
Definition d_items : SE pydict (list (str * value)) := fun d => (Ok d, d).

(** An object identity. *)
Abbreviation ref := positive (only parsing).

(** The dictionaries that exist, by identity.  A reference a program
    holds always points into the store. *)
Abbreviation store := (gmap positive pydict) (only parsing).

(** An operation applied to the dictionary behind a reference. *)
Definition at_ref {A} (r : ref) (op : SE pydict A) : SE store A :=
  fun σ => let '(res, d') := op (σ !!! r) in (res, <[r := d']> σ).

(** [r.copy()]: a new dictionary with the items of [r]. *)
Definition dict_copy (r : ref) : SE store ref :=
  fun σ => let r' := fresh (dom σ) in (Ok r', <[r' := σ !!! r]> σ).

Definition value_of_option (o : option str) : value :=
  match o with
  | Some s => VStr s
  | None => VNone
  end.

Section Enhancer.
Context {ucd : UnicodeData} {rt : Interpreter}.
Variable self : DataMapper.

(** Enhance book data with mapping transformations. *)
Definition get_enhanced_book_data (book_data : ref) : SE store ref :=
  enhanced ← dict_copy book_data;
  (* Apply genre mapping *)
  has_genre ← at_ref enhanced (d_contains (py "genre"));
  (if has_genre : bool then
     genre ← at_ref enhanced (d_getitem (py "genre"));
     shown ← lift (get_genre_display_name self genre);
     at_ref enhanced (d_setitem (py "genre_display") (VStr shown))
   else ret tt);;
  (* Extract author information *)
  has_author ← at_ref enhanced (d_contains (py "Author"));
  (if has_author : bool then
     author ← at_ref enhanced (d_getitem (py "Author"));
     '(name, url, isbn) ← lift (extract_author_info author);
     at_ref enhanced (d_setitem (py "author_name") (VStr name));;
     at_ref enhanced (d_setitem (py "author_url") (value_of_option url));;
     at_ref enhanced (d_setitem (py "author_isbn") (value_of_option isbn))
   else ret tt);;
  (* Format specific fields (the list is made first: the loop adds keys) *)
  items_to_format ← at_ref enhanced d_items;
  for_each items_to_format (fun '(name, v) =>
    if bool_decide (is_Some (field_specs self !! name)) then
      formatted ← lift (format_field_value self name v);
      at_ref enhanced (d_setitem (name ++ py "_formatted") (VStr formatted))
    else ret tt);;
  ret enhanced.
End Enhancer.

(* ================================================================== *)
(** * [calculate_market_metrics] *)
(* ================================================================== *)

Global Instance result_ret : MRet result := fun A a => Ok a.
Global Instance result_bind : MBind result := fun A B k r => rbind r k.

(** The arithmetic of the numeric cells of a data frame, as NumPy does
    it on whole columns: total operations, no exception on a zero
    divisor. *)
Class Numeric (num : Type) := {
  num_mul : num -> num -> num;
  num_div : num -> num -> num;
  num_add : num -> num -> num;
  (** [Series.max()]. *)
  num_max : list num -> num;
  (** an [int] constant of the source among the cells. *)
  num_of_int : Z -> num
}.

(** [Series.max()] on binary64 cells: the largest value that is not NaN,
    NaN when there is none. *)
Definition float_series_max (l : list float) : float :=
  match filter (fun x => negb (PrimFloat.is_nan x)) l with
  | [] => PrimFloat.nan
  | x :: xs => fold_left (fun a b => if PrimFloat.ltb a b then b else a) xs x
  end.

(** binary64 cells. *)
Global Instance float_numeric : Numeric float := {|
  num_mul := PrimFloat.mul;
  num_div := PrimFloat.div;
  num_add := PrimFloat.add;
  num_max := float_series_max;
  num_of_int := fun n => SF2Prim (binary_normalize prec emax n 0 false)
|}.

(** A column. *)
Abbreviation Series num := (list num) (only parsing).

(** The numeric columns of a [DataFrame], by name; all have one length.
    The label column of the genre statistics takes no part in the
    calculation and is left out. *)
Abbreviation DataFrame num := (gmap str (list num)) (only parsing).

Section MarketMetrics.
Context {num : Type} `{Numeric num}.

(** [df[name]]. *)
Definition df_getitem (df : DataFrame num) (name : str) : result (Series num) :=
  option_to_result KeyError (df !! name).

(** Element-wise operations of two columns, and of a column and a scalar. *)
Definition series_mul (a b : Series num) : Series num := zip_with num_mul a b.
Definition series_div (a b : Series num) : Series num := zip_with num_div a b.
Definition series_add (a b : Series num) : Series num := zip_with num_add a b.
Definition series_mul_scalar (a : Series num) (c : num) : Series num := map (fun x => num_mul x c) a.
Definition series_div_scalar (a : Series num) (c : num) : Series num := map (fun x => num_div x c) a.

(** Calculate author-focused market metrics.  The frame is updated in
    place and returned; here the updated frame is the result. *)
Definition calculate_market_metrics (df : DataFrame num) : result (DataFrame num) :=
  (* Market Opportunity Index *)
  avg_price ← df_getitem df (py "avg_price");
  avg_reviews ← df_getitem df (py "avg_reviews");
  avg_rating ← df_getitem df (py "avg_rating");
  book_count ← df_getitem df (py "book_count");
  let df := <[py "market_opportunity" :=
               series_div (series_mul (series_mul avg_price avg_reviews) avg_rating) book_count]> df in
  (* Competition Level *)
  book_count ← df_getitem df (py "book_count");
  book_count' ← df_getitem df (py "book_count");
  let df := <[py "competition_level" :=
               series_mul_scalar (series_div_scalar book_count (num_max book_count'))
                 (num_of_int 100)]> df in
  (* Quality Threshold *)
  avg_rating ← df_getitem df (py "avg_rating");
  avg_reviews ← df_getitem df (py "avg_reviews");
  avg_reviews' ← df_getitem df (py "avg_reviews");
  let df := <[py "quality_threshold" :=
               series_mul avg_rating (series_div_scalar avg_reviews (num_max avg_reviews'))]> df in
  (* Revenue Potential *)
  avg_price ← df_getitem df (py "avg_price");
  avg_reviews ← df_getitem df (py "avg_reviews");
  let df := <[py "revenue_potential" := series_mul avg_price avg_reviews]> df in
  (* Market Entry Difficulty *)
  competition_level ← df_getitem df (py "competition_level");
  quality_threshold ← df_getitem df (py "quality_threshold");
  let df := <[py "entry_difficulty" :=
               series_div_scalar
                 (series_add competition_level
                    (series_mul_scalar quality_threshold (num_of_int 20)))
                 (num_of_int 2)]> df in
  Ok df.

(** One row of the genre statistics, as [get_genre_stats] builds it
    (without its label). *)
Record GenreStatsRow := {
  book_count : num;
  avg_price : num;
  avg_rating : num;
  avg_reviews : num
}.

(** [pd.DataFrame(genre_stats)]: one column per key of the rows, and
    no column at all for an empty list. *)
Definition frame_of_rows (rows : list GenreStatsRow) : DataFrame num :=
  match rows with
  | [] => ∅
  | _ =>
      <[py "book_count" := map book_count rows]>
      (<[py "avg_price" := map avg_price rows]>
      (<[py "avg_rating" := map avg_rating rows]>
      (<[py "avg_reviews" := map avg_reviews rows]> ∅)))
  end.

(** The cell of column [name] in row [i]. *)
Definition cell (df : DataFrame num) (name : str) (i : nat) : option num :=
  df !! name ≫= (fun s => s !! i).
End MarketMetrics.

(* ================================================================== *)
(** * The helpers of the dashboard ([phase2-webapp/app/main.py]) *)
(* ================================================================== *)

(** Parse author markdown link and return clean name and URL. *)
Definition parse_author_markdown (author_text : value) : result (str * option str) :=
  if py_not author_text then Ok (py "Unknown Author", None)
  else
    match author_text with
    | VStr text =>
        match search_link text with
        | Some (author_name, author_url) => Ok (author_name, Some author_url)
        | None => Ok (text, None)
        end
    | _ => Raise TypeError
    end.

(** The double quote. *)
Definition dquote : str := [34%N].

(** The anchor element of [format_author_display]: the URL and the name
    go into the f-string as they are. *)
Definition author_anchor (author_url author_name : str) : str :=
  py "<a href=" ++ dquote ++ author_url ++ dquote
  ++ py " target=" ++ dquote ++ py "_blank" ++ dquote
  ++ py " style=" ++ dquote ++ py "color: #1f77b4; text-decoration: none;" ++ dquote
  ++ py ">" ++ author_name ++ py "</a>".

(** Format author for display in Streamlit using data mapping. *)
Definition format_author_display (author_text : value) : result str :=
  '(author_name, author_url, isbn) ← extract_author_info author_text;
  match author_url with
  | Some url => if (length url =? 0)%nat then Ok author_name else Ok (author_anchor url author_name)
  | None => Ok author_name
  end.

(** Format topics/tropes from pipe-separated string.  A truthy value
    that is not a [str] has no [strip]. *)
Definition format_topics {rt : Interpreter} (topics_str : value) : result (list str) :=
  if py_not topics_str then Ok []
  else
    match topics_str with
    | VStr s =>
        if (length (strip s) =? 0)%nat || bool_decide (s = py "N/A") then Ok []
        else
          text ← py_str topics_str;
          Ok (map strip
                (filter (fun topic => negb (length (strip topic) =? 0)%nat)
                   (split (ch "|") text)))
    | _ => Raise AttributeError
    end.

(** [s[-n:]]. *)
Definition last_chars (n : nat) (s : str) : str := drop (length s - n) s.

Section FileNames.
Context {ucd : UnicodeData} {rt : Interpreter}.

(** [\d]: a decimal digit of any script. *)
Definition is_decimal (c : char) : bool :=
  if is_ascii c then is_ascii_digit c else bool_decide (is_Some (ucd_decimal c)).

(** [\d{8}] tried at the start of [s]. *)
Definition match_digits8_here (s : str) : option str :=
  let w := take 8 s in
  if (length w =? 8)%nat && forallb is_decimal w then Some w else None.

(** [re.search] of [(\d{8})]: the group. *)
Fixpoint search_digits8 (s : str) : option str :=
  match match_digits8_here s with
  | Some g => Some g
  | None => match s with
            | [] => None
            | _ :: s' => search_digits8 s'
            end
  end.

(** Extract report date from filename like
    [20250811_genre_raw_data.xlsx]. *)
Definition extract_report_date (source_file : value) : result (option str) :=
  if py_not source_file then Ok None
  else
    text ← py_str source_file;
    match search_digits8 text with
    | Some date_str =>
        let year := take 4 date_str in
        let month := lstrip_by (N.eqb (ch "0")) (drop 4 (take 6 date_str)) in
        let day := lstrip_by (N.eqb (ch "0")) (drop 6 (take 8 date_str)) in
        Ok (Some (month ++ py "/" ++ day ++ py "/" ++ last_chars 2 year))
    | None => Ok None
    end.

(** What the group of the file-name pattern can match (a run of
    characters other than underscore, then any number of times an
    underscore and such a run): words without underscore, one
    underscore between two of them. *)
Definition is_genre_group (g : str) : bool :=
  forallb (fun word => negb (length word =? 0)%nat) (split (ch "_") g).

Definition raw_data_suffix : str := py "_raw_data.xlsx".

(** [a] starts [s]. *)
Definition starts_with (a s : str) : bool := bool_decide (take (length a) s = a).

(** The group of the file-name pattern at the start of [rest], followed
    by [_raw_data\.xlsx], among the groups of at most [n] characters.
    The greedy quantifiers give up characters one at a time, so the
    longest group that the suffix follows is the one found. *)
Fixpoint longest_genre_group (n : nat) (rest : str) : option str :=
  match n with
  | O => None
  | S n' =>
      if is_genre_group (take n rest) && (length (take n rest) =? n)%nat
         && starts_with raw_data_suffix (drop n rest)
      then Some (take n rest)
      else longest_genre_group n' rest
  end.

(** The file-name pattern (eight digits, an underscore, the group and
    [_raw_data\.xlsx]) tried at the start of [s]. *)
Definition match_genre_file_here (s : str) : option str :=
  match match_digits8_here s, drop 8 s with
  | Some _, c :: rest =>
      if (c =? ch "_")%N then longest_genre_group (length rest) rest else None
  | _, _ => None
  end.

(** [re.search] of that pattern: the group. *)
Fixpoint search_genre_file (s : str) : option str :=
  match match_genre_file_here s with
  | Some g => Some g
  | None => match s with
            | [] => None
            | _ :: s' => search_genre_file s'
            end
  end.

(** Extract genre from filename like
    [20250811_cozy_mystery_raw_data.xlsx]. *)
Definition extract_genre_from_filename (source_file : value) : result (option str) :=
  if py_not source_file then Ok None
  else
    text ← py_str source_file;
    match search_genre_file text with
    | Some genre_code => Ok (Some (title (replace (ch "_") (ch " ") genre_code)))
    | None => Ok None
    end.
End FileNames.

(** One subcategory of [format_subcategories]: the values under the keys
    [rank], [category] and [url] of the dictionary it makes. *)
Record Subcategory := {
  sub_rank : option str;
  sub_category : str;
  sub_url : str
}.

(** [re.findall] of the link pattern: the groups of the matches met from
    left to right, each search starting where the match before ended.
    [skip] counts the characters of that match still to pass. *)
Fixpoint findall_links_from (skip : nat) (s : str) : list (str * str) :=
  match s with
  | [] => []
  | _ :: s' =>
      match skip with
      | S k => findall_links_from k s'
      | O =>
          match match_link_here s with
          | Some (name, url) =>
              (name, url) :: findall_links_from (length name + length url + 3) s'
          | None => findall_links_from 0 s'
          end
      end
  end.

Definition findall_links (s : str) : list (str * str) := findall_links_from 0 s.

(** The end of the rank pattern, whitespace and then the category (any
    characters but a line feed, one at least, as many as there are): the
    category when the whitespace is the first [k] characters of [s], or
    fewer when that leaves no category. *)
Fixpoint category_after (k : nat) (s : str) : option str :=
  match k with
  | O => None
  | S k' =>
      match (span (fun c => negb (c =? 10)%N) (drop k s)).1 with
      | [] => category_after k' s
      | cat => Some cat
      end
  end.

Section Subcategories.
Context {ucd : UnicodeData} {rt : Interpreter}.

(** The rank pattern (an optional [#], digits, whitespace, [in],
    whitespace, the category) tried at the start of [t]: the digits and
    the category.  A run of digits or of whitespace is followed by a
    character of another kind, so only the longest run can match; the
    whitespace before the category may give characters back to it. *)
Definition match_rank (t : str) : option (str * str) :=
  let t1 := match t with
            | c :: r => if (c =? ch "#")%N then r else t
            | [] => t
            end in
  let '(digits, r1) := span is_decimal t1 in
  let '(blanks, r2) := span py_isspace r1 in
  match digits, blanks, r2 with
  | _ :: _, _ :: _, c1 :: c2 :: r3 =>
      if (c1 =? ch "i")%N && (c2 =? ch "n")%N then
        match category_after (length (span py_isspace r3).1) r3 with
        | Some cat => Some (digits, cat)
        | None => None
        end
      else None
  | _, _, _ => None
  end.

(** The body of the loop over the links found. *)
Definition subcategory_of (link : str * str) : Subcategory :=
  let '(text, url) := link in
  match match_rank (strip text) with
  | Some (rank_num, category) =>
      {| sub_rank := Some rank_num; sub_category := category; sub_url := url |}
  | None => {| sub_rank := None; sub_category := text; sub_url := url |}
  end.

(** Parse subcategories with markdown links and extract rank, text, and
    URLs.  A truthy value that is not a [str] has no [strip]. *)
Definition format_subcategories (subcats_str : value) : result (list Subcategory) :=
  if py_not subcats_str then Ok []
  else
    match subcats_str with
    | VStr s =>
        if (length (strip s) =? 0)%nat || bool_decide (s = py "N/A") then Ok []
        else
          text ← py_str subcats_str;
          Ok (map subcategory_of (findall_links text))
    | _ => Raise AttributeError
    end.
End Subcategories.

(* ================================================================== *)
(** * Definitions used to state the properties *)
(* ================================================================== *)

(** ** [calculate_market_metrics] *)

Section MetricsColumns.
Context {num : Type} `{Numeric num}.

(** The frame [df] with the five columns the calculation assigns, from
  the four columns it reads. *)
Definition with_metrics (bc ap ar rv : Series num) (df : DataFrame num) : DataFrame num :=
let competition :=
  series_mul_scalar (series_div_scalar bc (num_max bc)) (num_of_int 100) in
let quality := series_mul ar (series_div_scalar rv (num_max rv)) in
<[py "entry_difficulty" :=
    series_div_scalar
      (series_add competition (series_mul_scalar quality (num_of_int 20)))
      (num_of_int 2)]>
(<[py "revenue_potential" := series_mul ap rv]>
(<[py "quality_threshold" := quality]>
(<[py "competition_level" := competition]>
(<[py "market_opportunity" := series_div (series_mul (series_mul ap rv) ar) bc]> df)))).
End MetricsColumns.

(** [m] is what [Series.max] gives for the cells [l]: the greatest of
    the cells that are numbers, and NaN when none is. *)
Definition is_series_max (l : list float) (m : float) : Prop :=
  (m ∈ l /\ PrimFloat.is_nan m = false
   /\ forall x, x ∈ l -> PrimFloat.is_nan x = false -> PrimFloat.leb x m = true)
  \/ (PrimFloat.is_nan m = true /\ forall x, x ∈ l -> PrimFloat.is_nan x = true).

(** A key that orders the floats that are numbers as [SFcompare] does:
    the sign class first, then exponent and mantissa, reversed for the
    negative ones. *)
Definition sf_key (x : spec_float) : Z * Z * Z :=
  match x with
  | S754_infinity true => (-2, 0, 0)
  | S754_finite true m e => (-1, - e, - Z.pos m)
  | S754_zero _ | S754_nan => (0, 0, 0)
  | S754_finite false m e => (1, e, Z.pos m)
  | S754_infinity false => (2, 0, 0)
  end.

(** The lexicographic comparison of two keys. *)
Definition key_compare (a b : Z * Z * Z) : comparison :=
  match a.1.1 ?= b.1.1 with
  | Eq => match a.1.2 ?= b.1.2 with
          | Eq => a.2 ?= b.2
          | c => c
          end
  | c => c
  end.

(** The columns the calculation reads, and the ones it assigns. *)
Definition base_columns : list str :=
  [py "book_count"; py "avg_price"; py "avg_rating"; py "avg_reviews"].
Definition metric_columns : list str :=
  [py "market_opportunity"; py "competition_level"; py "quality_threshold";
   py "revenue_potential"; py "entry_difficulty"].

(** ** [get_enhanced_book_data] *)

Section EnhancerOnTheCopy.
Context {ucd : UnicodeData} {rt : Interpreter}.
Variable self : DataMapper.

(** The statements of [get_enhanced_book_data] that follow the copy, as
    computations on the dictionary [enhanced] itself: the genre mapping, *)
Definition genre_step : SE pydict unit :=
  has_genre ← d_contains (py "genre");
  if has_genre : bool then
    genre ← d_getitem (py "genre");
    shown ← lift (get_genre_display_name self genre);
    d_setitem (py "genre_display") (VStr shown)
  else ret tt.

(** the author information, *)
Definition author_step : SE pydict unit :=
  has_author ← d_contains (py "Author");
  if has_author : bool then
    author ← d_getitem (py "Author");
    '(name, url, isbn) ← lift (extract_author_info author);
    d_setitem (py "author_name") (VStr name);;
    d_setitem (py "author_url") (value_of_option url);;
    d_setitem (py "author_isbn") (value_of_option isbn)
  else ret tt.

(** the body of the formatting loop, *)
Definition format_item (item : str * value) : SE pydict unit :=
  let '(name, v) := item in
  if bool_decide (is_Some (field_specs self !! name)) then
    formatted ← lift (format_field_value self name v);
    d_setitem (name ++ py "_formatted") (VStr formatted)
  else ret tt.

(** the formatting loop, *)
Definition format_step : SE pydict unit :=
  items_to_format ← d_items;
  for_each items_to_format format_item.

(** and all of them in turn. *)
Definition enhance_in_place : SE pydict unit :=
  genre_step;; author_step;; format_step.

(** The keys the enhancer assigns for a record [d], besides the
  [_formatted] ones. *)
Definition derived_keys (d : pydict) : list str :=
(if dict_has (py "genre") d then [py "genre_display"] else [])
++ (if dict_has (py "Author") d
    then [py "author_name"; py "author_url"; py "author_isbn"] else []).

(** The [_formatted] keys the enhancer assigns for a record [d]: one for
  each key of the record, or derived key, that has a field rule. *)
Definition formatted_keys (d : pydict) : list str :=
map (fun k => k ++ py "_formatted")
  (filter (fun k => is_Some (field_specs self !! k)) (map fst d ++ derived_keys d)).

(** All the keys the enhancer assigns for a record [d]. *)
Definition written_keys (d : pydict) : list str := derived_keys d ++ formatted_keys d.
End EnhancerOnTheCopy.

(** [d[k] = v] for each pair of [ws] in turn. *)
Definition set_all (ws : list (str * value)) (d : pydict) : pydict :=
  fold_left (fun acc kv => dict_set kv.1 kv.2 acc) ws d.

(** [d'] comes from [d] by assignments to keys of [K] only. *)
Definition writes_within (K : list str) (d d' : pydict) : Prop :=
  exists ws, d' = set_all ws d /\ Forall (fun kv => kv.1 ∈ K) ws.

(** A simulation: on a store where [r] holds a dictionary, the store
    computation [m] does to that dictionary what [m'] does, and leaves
    the rest of the store alone. *)
Definition acts_on {A} (r : ref) (σ0 : store) (m : SE store A) (m' : SE pydict A) : Prop :=
  forall d, m (<[r := d]> σ0) = let '(res, d') := m' d in (res, <[r := d']> σ0).

(** ** The properties as the specification words them *)

(** [text] holds a markdown link [[name](url)] after the prefix [pre]. *)
Definition link_at (text pre name url post : str) : Prop :=
  text = pre ++ [ch "["] ++ name ++ [ch "]"; ch "("] ++ url ++ [ch ")"] ++ post
  /\ name <> [] /\ (ch "]" ∉ name) /\ url <> [] /\ (ch ")" ∉ url).

(** The link at [pre] is the first one of [text]. *)
Definition first_link_at (text pre name url post : str) : Prop :=
  link_at text pre name url post
  /\ forall pre' name' url' post',
       link_at text pre' name' url' post' -> (length pre <= length pre')%nat.

(** [tok] is a token of ten or more upper-case letters and digits. *)
Definition catalog_token (tok : str) : Prop :=
  (10 <= length tok)%nat /\ Forall (fun c => is_upper_alnum c = true) tok.

(** [tok] is the trailing path segment of [url]: it follows a slash and
    only [trail] comes after it. *)
Definition segment_before (trail url tok : str) : Prop :=
  exists pre, url = pre ++ [ch "/"] ++ tok ++ trail.

(** The catalog id as the specification has it: the token is the last
    segment of the path, a closing slash allowed. *)
Definition trailing_catalog_id (url tok : str) : Prop :=
  catalog_token tok /\ (segment_before [] url tok \/ segment_before [ch "/"] url tok).

(** What the pattern lets follow the token. *)
Definition dollar_tails : list str := [[]; [ch "/"]; [10%N]; [ch "/"; 10%N]].

(** The catalog id as the pattern has it: a line feed may end the text
    after the token and the optional slash. *)
Definition dollar_catalog_id (url tok : str) : Prop :=
  catalog_token tok
  /\ (segment_before [] url tok \/ segment_before [ch "/"] url tok
      \/ segment_before [10%N] url tok \/ segment_before [ch "/"; 10%N] url tok).



(** The delimited-list rule as the specification words it: every token
    is trimmed and kept. *)
Definition claimed_list_format (s : str) : str :=
  if contains (ch "|") s then join (py ", ") (map strip (split (ch "|") s))
  else if contains (ch "#") s then join (py ", ") (map strip (split (ch "#") s))
  else s.

(** The delimited-list rule with the tokens that are empty once trimmed
    left out. *)
Definition trimmed_tokens (sep : char) (s : str) : list str :=
  filter (fun t => t <> []) (map strip (split sep s)).

(** A record keeps every one of its pairs in [out]. *)
Definition keeps_all_pairs (d out : pydict) : Prop :=
  forall k v, dict_get k d = Some v -> dict_get k out = Some v.

(** ** File names *)

(** A number written with at least [w] digits, zeros in front. *)
Definition pad_digits (w : nat) (n : N) : str :=
  zeros (w - length (digits_of_N n)) ++ digits_of_N n.

(** ** Sample data *)

(** A field rule with nothing but a name. *)
Definition plain_spec (name : str) : FieldSpec :=
  {| field_name := name; display_name := name; field_type := DISPLAY;
     description := None; format_rule := None |}.

(** A mapper with no genre and a rule for each field the normaliser
    knows by name. *)
Definition sample_mapper : DataMapper :=
  {| genre_mapping := ∅;
     field_specs :=
       list_to_map
         (map (fun n => (n, plain_spec n))
            [py "price"; py "reviewAverage"; py "nReviews"; py "releaseDate";
             py "isTrad"; py "isFree"; py "topicTags"; py "subcatsList"]) |}.

(** A 64-bit interpreter with the default limit on digits and room for
    texts of up to [2 ^ 31] characters. *)
Definition default_interpreter : Interpreter :=
  {| int_max_str_digits := 4300; can_allocate := fun n => n <? 2 ^ 31 |}.

(** The float the literal [12.3] denotes. *)
Definition float_12_3 : float := SF2Prim (round_decimal false 123 (-1)).

(** A record as the query layer hands it on. *)
Definition sample_record : pydict :=
  [(py "Title", VStr (py "Death by Scone"));
   (py "genre", VStr (py "cozy_mystery"));
   (py "Author", VStr (py "[Jane Doe](http://example.com/B00ABCDEFG)"));
   (py "price", VFloat float_12_3);
   (py "nReviews", VInt 1234)].

(** A store in which that record is the object [1]. *)
Definition sample_store : gmap positive pydict := <[1%positive := sample_record]> ∅.

(** Statistics of two genres, the larger one last. *)
Definition sample_rows : list (GenreStatsRow (num := float)) :=
  [ {| book_count := 50; avg_price := 2.5; avg_rating := 4; avg_reviews := 100 |};
    {| book_count := 100; avg_price := 4.5; avg_rating := 4.25; avg_reviews := 400 |} ]%float.

(* ================================================================== *)
(** * Proof automation *)
(* ================================================================== *)

(** Two literals of the source that differ. *)
Ltac py_neq := let E := fresh in intros E; vm_compute in E; discriminate E.

(** Reading a column of a frame several assignments later. *)
Ltac frame_lookup :=
  repeat first
    [ rewrite lookup_insert_eq
    | rewrite lookup_insert_ne by py_neq ].

(** A decidable fact about literals, by evaluation. *)
Ltac by_evaluation := apply (bool_decide_unpack _); vm_compute; exact I.

(* ================================================================== *)
(** * Properties of [calculate_market_metrics] *)
(* ================================================================== *)

Section MarketMetricsFacts.
Context {num : Type} `{Numeric num}.

Lemma calculate_market_metrics_unfold (df : DataFrame num) (bc ap ar rv : Series num) :
  df !! py "book_count" = Some bc ->
  df !! py "avg_price" = Some ap ->
  df !! py "avg_rating" = Some ar ->
  df !! py "avg_reviews" = Some rv ->
  calculate_market_metrics df = Ok (with_metrics bc ap ar rv df).
Proof.
  intros Hbc Hap Har Hrv.
  unfold calculate_market_metrics, df_getitem, with_metrics.
  repeat (frame_lookup; rewrite ?Hap, ?Hrv, ?Har, ?Hbc;
          cbn [mbind result_bind rbind option_to_result]).
  reflexivity.
Qed.

Lemma calculate_market_metrics_missing (df : DataFrame num) :
  df !! py "book_count" = None \/ df !! py "avg_price" = None \/
  df !! py "avg_rating" = None \/ df !! py "avg_reviews" = None ->
  calculate_market_metrics df = Raise KeyError.
Proof.
  intros Hmiss.
  unfold calculate_market_metrics, df_getitem.
  destruct (df !! py "avg_price") as [ap|]; [|reflexivity].
  destruct (df !! py "avg_reviews") as [rv|]; [|reflexivity].
  destruct (df !! py "avg_rating") as [ar|]; [|reflexivity].
  destruct (df !! py "book_count") as [bc|]; [|reflexivity].
  intuition congruence.
Qed.

Lemma with_metrics_again (bc ap ar rv : Series num) (df : DataFrame num) :
  with_metrics bc ap ar rv (with_metrics bc ap ar rv df) = with_metrics bc ap ar rv df.
Proof.
  apply map_eq; intros k. unfold with_metrics.
  rewrite !lookup_insert. repeat case_decide; reflexivity.
Qed.

Lemma lookup_map {A B} (f : A -> B) (l : list A) (i : nat) :
  map f l !! i = f <$> l !! i.
Proof. revert i; induction l as [|a l IH]; intros [|i]; simpl; auto. Qed.

(** C9. The market-metrics augmentation is idempotent: computing the
    metrics of a frame that already carries them gives that frame
    again, with the same five derived columns, and a frame on which the
    calculation raises keeps raising the same exception. *)
Theorem calculate_market_metrics_idempotent (df : DataFrame num) :
  calculate_market_metrics df ≫= calculate_market_metrics
  = calculate_market_metrics df.
Proof.
  destruct (df !! py "book_count") as [bc|] eqn:Hbc;
    [|rewrite calculate_market_metrics_missing by auto; reflexivity].
  destruct (df !! py "avg_price") as [ap|] eqn:Hap;
    [|rewrite calculate_market_metrics_missing by auto; reflexivity].
  destruct (df !! py "avg_rating") as [ar|] eqn:Har;
    [|rewrite calculate_market_metrics_missing by auto; reflexivity].
  destruct (df !! py "avg_reviews") as [rv|] eqn:Hrv;
    [|rewrite calculate_market_metrics_missing by auto 6; reflexivity].
  rewrite (calculate_market_metrics_unfold df bc ap ar rv) by assumption.
  cbn [mbind result_bind rbind].
  rewrite (calculate_market_metrics_unfold _ bc ap ar rv).
  - now rewrite with_metrics_again.
  - unfold with_metrics; now frame_lookup.
  - unfold with_metrics; now frame_lookup.
  - unfold with_metrics; now frame_lookup.
  - unfold with_metrics; now frame_lookup.
Qed.

(** The cells of the frame built from a list of rows, after the
    calculation. *)
Lemma calculate_market_metrics_cells (rows : list GenreStatsRow) (i : nat)
    (r : GenreStatsRow) :
  rows !! i = Some r ->
  let competition :=
    num_mul (num_div (book_count r) (num_max (map book_count rows))) (num_of_int 100) in
  let quality :=
    num_mul (avg_rating r) (num_div (avg_reviews r) (num_max (map avg_reviews rows))) in
  exists df : DataFrame num,
    calculate_market_metrics (frame_of_rows rows) = Ok df /\
    cell df (py "market_opportunity") i
      = Some (num_div (num_mul (num_mul (avg_price r) (avg_reviews r)) (avg_rating r))
                (book_count r)) /\
    cell df (py "competition_level") i = Some competition /\
    cell df (py "quality_threshold") i = Some quality /\
    cell df (py "revenue_potential") i = Some (num_mul (avg_price r) (avg_reviews r)) /\
    cell df (py "entry_difficulty") i
      = Some (num_div (num_add competition (num_mul quality (num_of_int 20)))
                (num_of_int 2)).
Proof.
  intros Hr competition quality.
  destruct rows as [|r0 rows']; [discriminate Hr|].
  set (rows := r0 :: rows') in *.
  eexists; split.
  - apply (calculate_market_metrics_unfold _ (map book_count rows) (map avg_price rows)
             (map avg_rating rows) (map avg_reviews rows));
      unfold frame_of_rows, rows; now frame_lookup.
  - unfold cell, with_metrics.
    repeat split; frame_lookup; cbn [mbind option_bind];
      unfold series_div_scalar, series_mul_scalar, series_div, series_mul, series_add;
      rewrite ?lookup_map, ?lookup_zip_with, ?lookup_map, ?lookup_zip_with, ?lookup_map;
      rewrite ?lookup_zip_with, ?lookup_map, Hr; reflexivity.
Qed.
End MarketMetricsFacts.

(* ================================================================== *)
(** * The order of the cells and [Series.max] *)
(* ================================================================== *)

Lemma key_compare_refl (a : Z * Z * Z) : key_compare a a = Eq.
Proof. unfold key_compare. now rewrite !Z.compare_refl. Qed.

Lemma key_compare_antisym (a b : Z * Z * Z) :
  key_compare b a = CompOpp (key_compare a b).
Proof.
  unfold key_compare. destruct a as [[a1 a2] a3], b as [[b1 b2] b3]. cbn [fst snd].
  rewrite (Z.compare_antisym a1 b1), (Z.compare_antisym a2 b2), (Z.compare_antisym a3 b3).
  destruct (a1 ?= b1), (a2 ?= b2), (a3 ?= b3); reflexivity.
Qed.

Lemma key_compare_trans (a b c : Z * Z * Z) :
  key_compare a b <> Gt -> key_compare b c <> Gt -> key_compare a c <> Gt.
Proof.
  unfold key_compare.
  destruct a as [[a1 a2] a3], b as [[b1 b2] b3], c as [[c1 c2] c3]. cbn [fst snd].
  destruct (Z.compare_spec a1 b1), (Z.compare_spec b1 c1), (Z.compare_spec a1 c1);
    try congruence; try lia;
    destruct (Z.compare_spec a2 b2), (Z.compare_spec b2 c2), (Z.compare_spec a2 c2);
    try congruence; try lia;
    destruct (Z.compare_spec a3 b3), (Z.compare_spec b3 c3), (Z.compare_spec a3 c3);
    try congruence; lia.
Qed.

(** On the floats that are numbers [SFcompare] is the comparison of the
    keys. *)
Lemma SFcompare_key (x y : spec_float) :
  x <> S754_nan -> y <> S754_nan ->
  SFcompare x y = Some (key_compare (sf_key x) (sf_key y)).
Proof.
  intros Hx Hy. unfold key_compare.
  destruct x as [sx|sx| |sx mx ex], y as [sy|sy| |sy my ey]; try congruence;
    try (destruct sx); try (destruct sy); try reflexivity;
    cbn [SFcompare sf_key fst snd]; f_equal.
  change (-1 ?= -1) with Eq. cbv iota.
  rewrite Z.compare_opp, (Z.compare_antisym ex ey).
  destruct (ex ?= ey); reflexivity.
Qed.

Lemma is_nan_Prim2SF (x : float) :
  PrimFloat.is_nan x = true <-> Prim2SF x = S754_nan.
Proof.
  unfold PrimFloat.is_nan. rewrite FloatAxioms.eqb_spec. unfold SFeqb. split.
  - intros Hnan. destruct (Prim2SF x) eqn:Hx; try reflexivity;
      rewrite SFcompare_key, key_compare_refl in Hnan by discriminate; discriminate.
  - intros ->. reflexivity.
Qed.

Lemma not_nan_Prim2SF (x : float) :
  PrimFloat.is_nan x = false -> Prim2SF x <> S754_nan.
Proof. intros Hx Hnan. apply is_nan_Prim2SF in Hnan. congruence. Qed.

Lemma float_leb_key (x y : float) :
  PrimFloat.is_nan x = false -> PrimFloat.is_nan y = false ->
  PrimFloat.leb x y = true
  <-> key_compare (sf_key (Prim2SF x)) (sf_key (Prim2SF y)) <> Gt.
Proof.
  intros Hx Hy. rewrite FloatAxioms.leb_spec. unfold SFleb.
  rewrite SFcompare_key by now apply not_nan_Prim2SF.
  destruct (key_compare _ _); split; congruence.
Qed.

Lemma float_ltb_key (x y : float) :
  PrimFloat.is_nan x = false -> PrimFloat.is_nan y = false ->
  PrimFloat.ltb x y = true
  <-> key_compare (sf_key (Prim2SF x)) (sf_key (Prim2SF y)) = Lt.
Proof.
  intros Hx Hy. rewrite FloatAxioms.ltb_spec. unfold SFltb.
  rewrite SFcompare_key by now apply not_nan_Prim2SF.
  destruct (key_compare _ _); split; congruence.
Qed.

Lemma float_leb_refl (x : float) :
  PrimFloat.is_nan x = false -> PrimFloat.leb x x = true.
Proof.
  intros Hx. apply float_leb_key; [assumption..|].
  rewrite key_compare_refl. discriminate.
Qed.

Lemma float_leb_trans (x y z : float) :
  PrimFloat.is_nan x = false -> PrimFloat.is_nan y = false ->
  PrimFloat.is_nan z = false ->
  PrimFloat.leb x y = true -> PrimFloat.leb y z = true -> PrimFloat.leb x z = true.
Proof.
  intros Hx Hy Hz Hxy Hyz.
  apply float_leb_key in Hxy; [|assumption..].
  apply float_leb_key in Hyz; [|assumption..].
  apply float_leb_key; [assumption..|].
  exact (key_compare_trans _ _ _ Hxy Hyz).
Qed.

(** The step of the maximum: the greater of two numbers. *)
Lemma float_max_step (a b : float) :
  PrimFloat.is_nan a = false -> PrimFloat.is_nan b = false ->
  let m := if PrimFloat.ltb a b then b else a in
  (m = a \/ m = b) /\ PrimFloat.leb a m = true /\ PrimFloat.leb b m = true.
Proof.
  intros Ha Hb. cbv zeta. destruct (PrimFloat.ltb a b) eqn:Hlt.
  - split; [now right|]. split; [|now apply float_leb_refl].
    apply float_ltb_key in Hlt; [|assumption..].
    apply float_leb_key; [assumption..|]. congruence.
  - split; [now left|]. split; [now apply float_leb_refl|].
    apply float_leb_key; [assumption..|].
    rewrite key_compare_antisym. intros Hgt.
    assert (Hlt' : key_compare (sf_key (Prim2SF a)) (sf_key (Prim2SF b)) = Lt)
      by (destruct (key_compare _ _); simpl in Hgt; congruence).
    apply float_ltb_key in Hlt'; [congruence|assumption..].
Qed.

Lemma float_fold_max (xs : list float) (x : float) :
  PrimFloat.is_nan x = false ->
  Forall (fun y => PrimFloat.is_nan y = false) xs ->
  let m := fold_left (fun a b => if PrimFloat.ltb a b then b else a) xs x in
  m ∈ x :: xs /\ PrimFloat.is_nan m = false
  /\ forall y, y ∈ x :: xs -> PrimFloat.leb y m = true.
Proof.
  intros Hx Hxs. revert x Hx. cbv zeta.
  induction Hxs as [|b xs Hb Hxs IH]; intros x Hx; cbn [fold_left].
  - split; [apply list_elem_of_here|]. split; [assumption|].
    intros y Hy. apply list_elem_of_singleton in Hy as ->. now apply float_leb_refl.
  - destruct (float_max_step x b Hx Hb) as (Hm & Hxm & Hbm). cbv zeta in Hm, Hxm, Hbm.
    set (m := if PrimFloat.ltb x b then b else x) in *.
    assert (Hmn : PrimFloat.is_nan m = false) by (destruct Hm as [-> | ->]; assumption).
    destruct (IH m Hmn) as (Hin & Hnan & Hmax).
    split; [|split; [assumption|]].
    + apply elem_of_cons in Hin as [Heq|Hin].
      * rewrite Heq. destruct Hm as [-> | ->];
          [apply list_elem_of_here|apply list_elem_of_further, list_elem_of_here].
      * now do 2 apply list_elem_of_further.
    + intros y Hy.
      assert (Hmm : PrimFloat.leb m (fold_left
                     (fun a b => if PrimFloat.ltb a b then b else a) xs m) = true)
        by (apply Hmax, list_elem_of_here).
      apply elem_of_cons in Hy as [->|Hy];
        [exact (float_leb_trans _ m _ Hx Hmn Hnan Hxm Hmm)|].
      apply elem_of_cons in Hy as [->|Hy];
        [exact (float_leb_trans _ m _ Hb Hmn Hnan Hbm Hmm)|].
      apply Hmax. now apply list_elem_of_further.
Qed.

(** [Series.max] on binary64 cells gives the greatest cell that is a
    number. *)
Lemma float_series_max_spec (l : list float) : is_series_max l (float_series_max l).
Proof.
  unfold is_series_max, float_series_max.
  destruct (filter (fun x => negb (PrimFloat.is_nan x)) l) as [|x xs] eqn:Hf.
  - right. split; [reflexivity|]. intros y Hy.
    destruct (PrimFloat.is_nan y) eqn:Hnan; [reflexivity|].
    assert (Hin : y ∈ filter (fun x => negb (PrimFloat.is_nan x)) l).
    { apply list_elem_of_filter. split; [|assumption]. rewrite Hnan. exact I. }
    rewrite Hf in Hin. inversion Hin.
  - left.
    assert (Hall : Forall (fun y => PrimFloat.is_nan y = false) (x :: xs)).
    { apply Forall_forall. intros y Hy. rewrite <- Hf in Hy.
      apply list_elem_of_filter in Hy as [Hy _].
      destruct (PrimFloat.is_nan y); [contradiction|reflexivity]. }
    inversion Hall as [|? ? Hx Hxs]; subst.
    destruct (float_fold_max xs x Hx Hxs) as (Hin & Hnan & Hmax).
    cbv zeta in Hin, Hnan, Hmax.
    split; [|split; [assumption|]].
    + rewrite <- Hf in Hin. now apply list_elem_of_filter in Hin as [_ Hin].
    + intros y Hy Hynan. apply Hmax. rewrite <- Hf.
      apply list_elem_of_filter. split; [|assumption]. rewrite Hynan. exact I.
Qed.

(** C1. For the frame built from a list of genre-statistics rows with
    binary64 cells, the calculation returns a frame in which, for every
    row [r] (the one at index [i]), the five derived cells are given by
    the formulas of the source, where the two divisors are the greatest
    [book_count] and the greatest [avg_reviews] of the whole list (of
    the cells that are numbers).  The arithmetic is that of the cells
    and does not raise, so nothing is asked of [book_count]. *)
Theorem calculate_market_metrics_rows (rows : list (GenreStatsRow (num := float)))
    (i : nat) (r : GenreStatsRow) :
  rows !! i = Some r ->
  exists (df : DataFrame float) (max_count max_reviews : float),
    calculate_market_metrics (frame_of_rows rows) = Ok df
    /\ is_series_max (map book_count rows) max_count
    /\ is_series_max (map avg_reviews rows) max_reviews
    /\ cell df (py "market_opportunity") i
       = Some (avg_price r * avg_reviews r * avg_rating r / book_count r)%float
    /\ cell df (py "competition_level") i
       = Some (book_count r / max_count * 100)%float
    /\ cell df (py "quality_threshold") i
       = Some (avg_rating r * (avg_reviews r / max_reviews))%float
    /\ cell df (py "revenue_potential") i = Some (avg_price r * avg_reviews r)%float
    /\ cell df (py "entry_difficulty") i
       = Some ((book_count r / max_count * 100
                + avg_rating r * (avg_reviews r / max_reviews) * 20) / 2)%float.
Proof.
  intros Hr.
  destruct (calculate_market_metrics_cells rows i r Hr)
    as (df & Hrun & Hmo & Hcl & Hqt & Hrp & Hed).
  exists df, (float_series_max (map book_count rows)),
    (float_series_max (map avg_reviews rows)).
  split; [exact Hrun|]. split; [apply float_series_max_spec|].
  split; [apply float_series_max_spec|].
  repeat split; assumption.
Qed.

(* ================================================================== *)
(** * The store: what [get_enhanced_book_data] touches *)
(* ================================================================== *)

Section StoreFacts.
Context {ucd : UnicodeData} {rt : Interpreter}.

Lemma acts_on_at_ref {A} (r : ref) (σ0 : store) (op : SE pydict A) :
  acts_on r σ0 (at_ref r op) op.
Proof.
  intros d. unfold at_ref. rewrite lookup_total_insert_eq.
  destruct (op d) as [res d']. now rewrite insert_insert_eq.
Qed.

Lemma acts_on_ret {A} (r : ref) (σ0 : store) (a : A) :
  acts_on r σ0 (ret a) (ret a).
Proof. intros d. reflexivity. Qed.

Lemma acts_on_lift {A} (r : ref) (σ0 : store) (x : result A) :
  acts_on r σ0 (lift x) (lift x).
Proof. intros d. reflexivity. Qed.

Lemma acts_on_bind {A B} (r : ref) (σ0 : store)
    (m : SE store A) (m' : SE pydict A) (k : A -> SE store B) (k' : A -> SE pydict B) :
  acts_on r σ0 m m' ->
  (forall a, acts_on r σ0 (k a) (k' a)) ->
  acts_on r σ0 (m ≫= k) (m' ≫= k').
Proof.
  intros Hm Hk d. unfold mbind, SE_bind, bind. rewrite Hm.
  destruct (m' d) as [[a|e] d1]; [apply Hk | reflexivity].
Qed.

Lemma acts_on_assoc {A B C} (r : ref) (σ0 : store) (m : SE store C)
    (m' : SE pydict A) (k' : A -> SE pydict B) (h' : B -> SE pydict C) :
  acts_on r σ0 m (m' ≫= fun a => k' a ≫= h') ->
  acts_on r σ0 m ((m' ≫= k') ≫= h').
Proof.
  intros Hm d. rewrite Hm. unfold mbind, SE_bind, bind.
  destruct (m' d) as [[a|e] d1]; reflexivity.
Qed.

Lemma acts_on_if {A} (r : ref) (σ0 : store) (b : bool)
    (m1 m2 : SE store A) (m1' m2' : SE pydict A) :
  acts_on r σ0 m1 m1' -> acts_on r σ0 m2 m2' ->
  acts_on r σ0 (if b then m1 else m2) (if b then m1' else m2').
Proof. destruct b; auto. Qed.

Lemma acts_on_for_each {A} (r : ref) (σ0 : store) (l : list A)
    (body : A -> SE store unit) (body' : A -> SE pydict unit) :
  (forall x, acts_on r σ0 (body x) (body' x)) ->
  acts_on r σ0 (for_each l body) (for_each l body').
Proof.
  intros Hbody. induction l as [|x l IH]; simpl.
  - apply acts_on_ret.
  - apply (acts_on_bind r σ0 (body x) (body' x)); auto.
Qed.

Create HintDb acts_on_db.
Hint Resolve acts_on_at_ref acts_on_ret acts_on_lift : acts_on_db.

(** The body of [get_enhanced_book_data] does to the copy what
    [enhance_in_place] does to a dictionary. *)
Lemma get_enhanced_book_data_run (self : DataMapper) (book_data : ref) (σ : store) :
  get_enhanced_book_data self book_data σ
  = let r := fresh (dom σ) in
    let '(res, d') := enhance_in_place self (σ !!! book_data) in
    (match res with Ok _ => Ok r | Raise e => Raise e end, <[r := d']> σ).
Proof.
  unfold get_enhanced_book_data.
  unfold mbind at 1. unfold SE_bind, bind, dict_copy.
  set (r := fresh (dom σ)). set (d := σ !!! book_data).
  match goal with |- ?body ?st = _ =>
    assert (Hsim : acts_on r σ body (enhance_in_place self ≫= fun _ => ret r)) end.
  { unfold enhance_in_place, genre_step, author_step, format_step, format_item.
    repeat first
      [ apply acts_on_for_each; intros [? ?]
      | apply acts_on_assoc
      | apply acts_on_bind; [|intros ?; cbv beta]
      | apply acts_on_if
      | match goal with |- acts_on _ _ (match ?x with _ => _ end) _ => destruct x end
      | solve [auto with acts_on_db] ]. }
  rewrite (Hsim d). unfold mbind, SE_bind, bind.
  destruct (enhance_in_place self d) as [[[]|e] d']; reflexivity.
Qed.

(** C10. [get_enhanced_book_data] never mutates its input record: a
    dictionary that exists before the call, the argument among them, has
    the same items after it, whether the call returns or raises; what is
    returned is a new dictionary. *)
Theorem get_enhanced_book_data_input_unchanged (self : DataMapper) (book_data : ref)
    (σ : store) (d : pydict) :
  σ !! book_data = Some d ->
  let '(res, σ') := get_enhanced_book_data self book_data σ in
  σ' !! book_data = Some d
  /\ (forall r d0, σ !! r = Some d0 -> σ' !! r = Some d0)
  /\ (forall enhanced, res = Ok enhanced -> σ !! enhanced = None).
Proof.
  intros Hd. rewrite get_enhanced_book_data_run. cbv zeta.
  destruct (enhance_in_place self (σ !!! book_data)) as [res d'].
  assert (Hfresh : σ !! fresh (dom σ) = None).
  { apply not_elem_of_dom. apply is_fresh. }
  assert (Hkeep : forall r d0, σ !! r = Some d0 -> <[fresh (dom σ) := d']> σ !! r = Some d0).
  { intros r d0 Hr. rewrite lookup_insert_ne; [assumption|]. congruence. }
  split; [auto|]. split; [assumption|].
  intros enhanced Hres. destruct res; inversion Hres; subst. assumption.
Qed.
End StoreFacts.

(* ================================================================== *)
(** * Dictionaries *)
(* ================================================================== *)

Lemma dict_get_set_eq (k : str) (v : value) (d : pydict) :
  dict_get k (dict_set k v d) = Some v.
Proof.
  induction d as [|[k' v'] d IH]; simpl.
  - now rewrite decide_True.
  - destruct (decide (k' = k)) as [->|Hne]; simpl.
    + now rewrite decide_True.
    + now rewrite decide_False.
Qed.

Lemma dict_get_set_ne (k k' : str) (v : value) (d : pydict) :
  k <> k' -> dict_get k (dict_set k' v d) = dict_get k d.
Proof.
  intros Hne. induction d as [|[k0 v0] d IH]; simpl.
  - rewrite decide_False; congruence.
  - destruct (decide (k0 = k')) as [->|Hne0]; simpl.
    + rewrite !decide_False; congruence.
    + destruct (decide (k0 = k)); auto.
Qed.

Lemma dict_has_true (k : str) (d : pydict) :
  dict_has k d = true <-> is_Some (dict_get k d).
Proof. unfold dict_has. apply bool_decide_eq_true. Qed.

Lemma dict_has_set_ne (k k' : str) (v : value) (d : pydict) :
  k <> k' -> dict_has k (dict_set k' v d) = dict_has k d.
Proof. intros Hne. unfold dict_has. now rewrite dict_get_set_ne. Qed.

Lemma dict_get_elem_of (k : str) (v : value) (d : pydict) :
  dict_get k d = Some v -> (k, v) ∈ d.
Proof.
  induction d as [|[k' v'] d IH]; simpl; [discriminate|].
  destruct (decide (k' = k)) as [->|Hne].
  - intros [= ->]. apply list_elem_of_here.
  - intros Hd. apply list_elem_of_further. auto.
Qed.

Lemma elem_of_dict_set (k : str) (v : value) (d : pydict) (kv : str * value) :
  kv ∈ dict_set k v d -> kv = (k, v) \/ kv ∈ d.
Proof.
  induction d as [|[k' v'] d IH]; simpl.
  - intros Hin. apply list_elem_of_singleton in Hin. auto.
  - destruct (decide (k' = k)) as [->|Hne]; intros Hin.
    + apply elem_of_cons in Hin as [->|Hin]; [auto|].
      right. now apply list_elem_of_further.
    + apply elem_of_cons in Hin as [->|Hin].
      * right. apply list_elem_of_here.
      * destruct (IH Hin); [auto|]. right. now apply list_elem_of_further.
Qed.

Lemma dict_set_is_Some (k k' : str) (v : value) (d : pydict) :
  is_Some (dict_get k d) -> is_Some (dict_get k (dict_set k' v d)).
Proof.
  intros Hk. destruct (decide (k = k')) as [->|Hne].
  - rewrite dict_get_set_eq. eauto.
  - now rewrite dict_get_set_ne.
Qed.

Lemma set_all_app (ws1 ws2 : list (str * value)) (d : pydict) :
  set_all (ws1 ++ ws2) d = set_all ws2 (set_all ws1 d).
Proof. unfold set_all. apply fold_left_app. Qed.

Lemma dict_get_set_all_other (k : str) (ws : list (str * value)) (d : pydict) :
  k ∉ map fst ws -> dict_get k (set_all ws d) = dict_get k d.
Proof.
  revert d. induction ws as [|[k' v'] ws IH]; intros d Hk; [reflexivity|].
  simpl in *. apply not_elem_of_cons in Hk as [Hne Hk].
  change (dict_get k (set_all ws (dict_set k' v' d)) = dict_get k d).
  rewrite IH by assumption. now apply dict_get_set_ne.
Qed.

Lemma set_all_is_Some (k : str) (ws : list (str * value)) (d : pydict) :
  is_Some (dict_get k d) -> is_Some (dict_get k (set_all ws d)).
Proof.
  revert d. induction ws as [|[k' v'] ws IH]; intros d Hk; [assumption|].
  change (is_Some (dict_get k (set_all ws (dict_set k' v' d)))).
  apply IH. now apply dict_set_is_Some.
Qed.

Lemma elem_of_set_all (ws : list (str * value)) (d : pydict) (kv : str * value) :
  kv ∈ set_all ws d -> kv ∈ ws \/ kv ∈ d.
Proof.
  revert d. induction ws as [|[k' v'] ws IH]; intros d Hin; [auto|].
  change (kv ∈ set_all ws (dict_set k' v' d)) in Hin.
  destruct (IH _ Hin) as [Hws|Hd].
  - left. now apply list_elem_of_further.
  - apply elem_of_dict_set in Hd as [->|Hd]; [|auto].
    left. apply list_elem_of_here.
Qed.

(* ================================================================== *)
(** * The built-in conversions: which exceptions *)
(* ================================================================== *)

Section ConversionFacts.
Context {ucd : UnicodeData} {rt : Interpreter}.

Lemma py_float_raises (v : value) (e : exn) :
  py_float v = Raise e -> e = TypeError \/ e = ValueError \/ e = OverflowError.
Proof.
  destruct v as [|b|n|x|s]; simpl.
  - intros [= <-]; auto.
  - discriminate.
  - unfold float_of_int. destruct (is_infinite_sf _); [intros [= <-]; auto | discriminate].
  - discriminate.
  - unfold float_of_str, option_to_result.
    destruct (_ <$> _); [discriminate | intros [= <-]; auto].
Qed.

Lemma int_of_float_raises (x : float) (e : exn) :
  int_of_float x = Raise e -> e = ValueError \/ e = OverflowError.
Proof.
  unfold int_of_float. destruct (Prim2SF x); try discriminate; intros [= <-]; auto.
Qed.

Lemma py_int_raises (v : value) (e : exn) :
  py_int v = Raise e -> e = TypeError \/ e = ValueError \/ e = OverflowError.
Proof.
  destruct v as [|b|n|x|s]; simpl.
  - intros [= <-]; auto.
  - discriminate.
  - discriminate.
  - intros Hx. apply int_of_float_raises in Hx. tauto.
  - unfold int_of_str. destruct (take_sign _) as [neg body].
    unfold option_to_result.
    destruct (_ ≫= _); [discriminate | intros [= <-]; auto].
Qed.

Lemma new_str_raises (s : str) (e : exn) : new_str s = Raise e -> e = MemoryError.
Proof. unfold new_str. destruct (_ || _); [discriminate|now intros [= <-]]. Qed.

Lemma str_mul_raises (s : str) (n : Z) (e : exn) :
  str_mul s n = Raise e -> e = OverflowError \/ e = MemoryError.
Proof.
  unfold str_mul.
  destruct (_ || _); [intros [= <-]; auto|].
  destruct (n <? 1); [discriminate|].
  destruct (n =? 1); [discriminate|].
  destruct (_ <? _); [intros [= <-]; auto|].
  destruct (length s =? 0)%nat; [discriminate|].
  destruct (can_allocate _); [discriminate|intros [= <-]; auto].
Qed.

(** [str] raises on nothing but an [int] with more digits than the
    limit allows. *)
Lemma py_str_raises (v : value) (e : exn) :
  py_str v = Raise e ->
  e = ValueError
  /\ exists n, v = VInt n
               /\ exceeds_digit_limit (length (digits_of_N (Z.abs_N n))) = true.
Proof.
  destruct v as [|[]|n|x|s]; try discriminate.
  cbn [py_str]. unfold int_to_str.
  destruct (exceeds_digit_limit _) eqn:Hlim; [|discriminate].
  intros [= <-]. eauto.
Qed.

Lemma int_format_grouped_raises (n : Z) (e : exn) :
  int_format_grouped n = Raise e ->
  e = ValueError /\ exceeds_digit_limit (length (digits_of_N (Z.abs_N n))) = true.
Proof.
  unfold int_format_grouped.
  destruct (exceeds_digit_limit _); [now intros [= <-]|discriminate].
Qed.

(** Under [except (ValueError, TypeError)] only what the body raises
    besides these two gets out, and what the handler raises. *)
Lemma catch_value_type_raises {A} (body handler : result A) (e : exn) :
  catch_value_type body handler = Raise e ->
  (body = Raise e /\ e <> ValueError /\ e <> TypeError)
  \/ ((body = Raise ValueError \/ body = Raise TypeError) /\ handler = Raise e).
Proof.
  destruct body as [x|[]]; simpl; try discriminate; auto;
    intros [= <-]; left; repeat split; discriminate.
Qed.

(** What the normaliser raises: [ValueError] when [str] is asked for an
    [int] with too many digits, [OverflowError] on the three numeric
    fields, and [MemoryError] on the rating. *)
Lemma format_field_value_raises (self : DataMapper) (name : str) (v : value) (e : exn) :
  format_field_value self name v = Raise e ->
  (e = ValueError
   /\ exists n, v = VInt n
                /\ exceeds_digit_limit (length (digits_of_N (Z.abs_N n))) = true)
  \/ (is_Some (field_specs self !! name)
      /\ ((e = OverflowError
           /\ (name = py "price" \/ name = py "reviewAverage" \/ name = py "nReviews"))
          \/ (e = MemoryError /\ name = py "reviewAverage"))).
Proof.
  unfold format_field_value, get_field_spec.
  destruct (is_none_or_empty v); [discriminate|].
  destruct (field_specs self !! name) as [spec|] eqn:Hspec;
    [|intros Hs; left; exact (py_str_raises v e Hs)].
  assert (Hrule : is_Some (Some spec)) by eauto.
  case_bool_decide as Hprice.
  { intros Hc. apply catch_value_type_raises in Hc as [(Hb & Hv & Ht)|[_ Hs]];
      [|left; exact (py_str_raises v e Hs)].
    right. split; [exact Hrule|]. left. split; [|auto].
    destruct (py_float v) as [x|e'] eqn:Hf; [discriminate|].
    simpl in Hb. injection Hb as ->.
    apply py_float_raises in Hf. intuition congruence. }
  case_bool_decide as Hrating.
  { intros Hc. apply catch_value_type_raises in Hc as [(Hb & Hv & Ht)|[_ Hs]];
      [|left; exact (py_str_raises v e Hs)].
    right. split; [exact Hrule|].
    destruct (py_float v) as [x|e'] eqn:Hf.
    - simpl in Hb. destruct (int_of_float x) as [n|e'] eqn:Hi.
      + simpl in Hb. destruct (str_mul star_glyph n) as [st|e'] eqn:Hm.
        * simpl in Hb. apply new_str_raises in Hb. auto.
        * simpl in Hb. injection Hb as ->. apply str_mul_raises in Hm as [-> | ->]; auto.
      + simpl in Hb. injection Hb as ->. apply int_of_float_raises in Hi.
        left. split; [intuition congruence|auto].
    - simpl in Hb. injection Hb as ->. apply py_float_raises in Hf.
      left. split; [intuition congruence|auto]. }
  case_bool_decide as Hreviews.
  { intros Hc. apply catch_value_type_raises in Hc as [(Hb & Hv & Ht)|[_ Hs]];
      [|left; exact (py_str_raises v e Hs)].
    right. split; [exact Hrule|]. left. split; [|auto].
    destruct (py_int v) as [x|e'] eqn:Hf.
    - simpl in Hb. apply int_format_grouped_raises in Hb as [-> _]. congruence.
    - simpl in Hb. injection Hb as ->.
      apply py_int_raises in Hf. intuition congruence. }
  assert (Hstr : py_str v = Raise e ->
            (e = ValueError
             /\ exists n, v = VInt n
                  /\ exceeds_digit_limit (length (digits_of_N (Z.abs_N n))) = true)
            \/ (is_Some (Some spec)
                /\ ((e = OverflowError
                     /\ (name = py "price" \/ name = py "reviewAverage"
                         \/ name = py "nReviews"))
                    \/ (e = MemoryError /\ name = py "reviewAverage"))))
    by (intros Hs; left; exact (py_str_raises v e Hs)).
  case_bool_decide; [exact Hstr|].
  case_bool_decide; [destruct v as [|[]| | |]; first [discriminate|exact Hstr]|].
  case_bool_decide; [destruct v as [|[]| | |]; first [discriminate|exact Hstr]|].
  destruct (_ || _); [|exact Hstr].
  destruct v as [| | | |s]; try exact Hstr.
  destruct (contains _ s); [discriminate|].
  destruct (contains _ s); [discriminate|exact Hstr].
Qed.


End ConversionFacts.

(* ================================================================== *)
(** * What the enhancer writes *)
(* ================================================================== *)

Lemma writes_within_refl (K : list str) (d : pydict) : writes_within K d d.
Proof. exists []. split; [reflexivity | constructor]. Qed.

Lemma writes_within_set (K : list str) (k : str) (v : value) (d : pydict) :
  k ∈ K -> writes_within K d (dict_set k v d).
Proof. intros Hk. exists [(k, v)]. split; [reflexivity | repeat constructor; assumption]. Qed.

Lemma writes_within_trans (K : list str) (d1 d2 d3 : pydict) :
  writes_within K d1 d2 -> writes_within K d2 d3 -> writes_within K d1 d3.
Proof.
  intros (ws1 & -> & H1) (ws2 & -> & H2). exists (ws1 ++ ws2).
  split; [now rewrite set_all_app | now apply Forall_app].
Qed.

Lemma writes_within_mono (K K' : list str) (d d' : pydict) :
  (forall k, k ∈ K -> k ∈ K') -> writes_within K d d' -> writes_within K' d d'.
Proof.
  intros Hsub (ws & -> & Hws). exists ws. split; [reflexivity|].
  eapply Forall_impl; [exact Hws | auto].
Qed.

Lemma writes_within_get (K : list str) (d d' : pydict) (k : str) :
  writes_within K d d' -> k ∉ K -> dict_get k d' = dict_get k d.
Proof.
  intros (ws & -> & Hws) Hk. apply dict_get_set_all_other.
  intros Hin. apply Hk. apply list_elem_of_fmap in Hin as ([k' v'] & -> & Hin).
  rewrite Forall_forall in Hws. exact (Hws _ Hin).
Qed.

Lemma writes_within_is_Some (K : list str) (d d' : pydict) (k : str) :
  writes_within K d d' -> is_Some (dict_get k d) -> is_Some (dict_get k d').
Proof. intros (ws & -> & _). apply set_all_is_Some. Qed.

Lemma writes_within_items (K : list str) (d d' : pydict) (kv : str * value) :
  writes_within K d d' -> kv ∈ d' -> kv ∈ d \/ kv.1 ∈ K.
Proof.
  intros (ws & -> & Hws) Hin. apply elem_of_set_all in Hin as [Hin|Hin]; [|auto].
  right. rewrite Forall_forall in Hws. exact (Hws _ Hin).
Qed.

Lemma writes_within_has (K : list str) (d d' : pydict) (k : str) :
  writes_within K d d' -> k ∉ K -> dict_has k d' = dict_has k d.
Proof. intros Hw Hk. unfold dict_has. now rewrite (writes_within_get K d d' k). Qed.

Section EnhancerFacts.
Context {ucd : UnicodeData} {rt : Interpreter}.
Variable self : DataMapper.

Lemma genre_step_run (d : pydict) :
  genre_step self d
  = match dict_get (py "genre") d with
    | None => (Ok tt, d)
    | Some genre =>
        match get_genre_display_name self genre with
        | Ok shown => (Ok tt, dict_set (py "genre_display") (VStr shown) d)
        | Raise e => (Raise e, d)
        end
    end.
Proof.
  unfold genre_step, mbind, SE_bind, bind, d_contains, d_getitem, d_setitem, lift, dict_has.
  cbv beta iota.
  destruct (dict_get (py "genre") d) as [g|] eqn:Hget;
    [rewrite bool_decide_eq_true_2 by eauto
    |rewrite bool_decide_eq_false_2 by (intros []; discriminate)];
    cbv beta iota; [rewrite Hget; cbn [option_to_result]|reflexivity].
  destruct (get_genre_display_name self g); reflexivity.
Qed.

Lemma author_step_run (d : pydict) :
  author_step d
  = match dict_get (py "Author") d with
    | None => (Ok tt, d)
    | Some author =>
        match extract_author_info author with
        | Ok (name, url, isbn) =>
            (Ok tt,
             dict_set (py "author_isbn") (value_of_option isbn)
               (dict_set (py "author_url") (value_of_option url)
                  (dict_set (py "author_name") (VStr name) d)))
        | Raise e => (Raise e, d)
        end
    end.
Proof.
  unfold author_step, mbind, SE_bind, bind, d_contains, d_getitem, d_setitem, lift, dict_has.
  cbv beta iota.
  destruct (dict_get (py "Author") d) as [a|] eqn:Hget;
    [rewrite bool_decide_eq_true_2 by eauto
    |rewrite bool_decide_eq_false_2 by (intros []; discriminate)];
    cbv beta iota; [rewrite Hget; cbn [option_to_result]|reflexivity].
  destruct (extract_author_info a) as [[[name url] isbn]|e]; reflexivity.
Qed.

Lemma genre_step_writes (d : pydict) :
  writes_within (derived_keys d) d (genre_step self d).2.
Proof.
  rewrite genre_step_run. unfold derived_keys, dict_has.
  destruct (dict_get (py "genre") d) as [g|]; simpl; [|apply writes_within_refl].
  destruct (get_genre_display_name self g); simpl; [|apply writes_within_refl].
  apply writes_within_set. apply list_elem_of_here.
Qed.

Lemma author_step_writes (d0 d : pydict) :
  dict_has (py "Author") d = dict_has (py "Author") d0 ->
  writes_within (derived_keys d0) d (author_step d).2.
Proof.
  intros Hhas. rewrite author_step_run. unfold derived_keys. rewrite <- Hhas. unfold dict_has.
  destruct (dict_get (py "Author") d) as [a|]; simpl; [|apply writes_within_refl].
  destruct (extract_author_info a) as [[[name url] isbn]|e]; simpl;
    [|apply writes_within_refl].
  repeat (eapply writes_within_trans; [|apply writes_within_set]);
    [apply writes_within_refl|..]; apply elem_of_app; right;
    repeat first [apply list_elem_of_here | apply list_elem_of_further].
Qed.

Lemma format_item_writes (item : str * value) (d : pydict) :
  writes_within
    (map (fun k => k ++ py "_formatted")
       (filter (fun k => is_Some (field_specs self !! k)) [item.1]))
    d (format_item self item d).2.
Proof.
  destruct item as [name v]. unfold format_item, mbind, SE_bind, bind, lift, d_setitem.
  rewrite filter_cons, filter_nil. simpl.
  case_bool_decide as Hspec.
  - rewrite decide_True by assumption.
    destruct (format_field_value self name v); simpl; [|apply writes_within_refl].
    apply writes_within_set. apply list_elem_of_here.
  - apply writes_within_refl.
Qed.

Lemma for_each_format_writes (l : list (str * value)) (d : pydict) :
  writes_within
    (map (fun k => k ++ py "_formatted")
       (filter (fun k => is_Some (field_specs self !! k)) (map fst l)))
    d (for_each l (format_item self) d).2.
Proof.
  revert d. induction l as [|item l IH]; intros d; [apply writes_within_refl|].
  simpl for_each. unfold bind.
  pose proof (format_item_writes item d) as Hitem.
  destruct (format_item self item d) as [[[]|e] d1]; simpl in *.
  - eapply writes_within_trans.
    + eapply writes_within_mono; [|exact Hitem].
      intros k Hk. rewrite filter_cons. destruct (decide _); simpl.
      * rewrite filter_cons, decide_True, filter_nil in Hk by assumption. simpl in Hk.
        apply list_elem_of_singleton in Hk as ->. apply list_elem_of_here.
      * rewrite filter_cons, decide_False, filter_nil in Hk by assumption.
        simpl in Hk. inversion Hk.
    + eapply writes_within_mono; [|apply IH].
      intros k Hk. rewrite filter_cons. destruct (decide _); simpl; [|assumption].
      now apply list_elem_of_further.
  - eapply writes_within_mono; [|exact Hitem].
    intros k Hk. rewrite filter_cons. destruct (decide _); simpl.
    + rewrite filter_cons, decide_True, filter_nil in Hk by assumption. simpl in Hk.
      apply list_elem_of_singleton in Hk as ->. apply list_elem_of_here.
    + rewrite filter_cons, decide_False, filter_nil in Hk by assumption.
      simpl in Hk. inversion Hk.
Qed.

Lemma author_is_not_derived (d : pydict) : py "Author" ∉ derived_keys d.
Proof.
  unfold derived_keys.
  destruct (dict_has (py "genre") d), (dict_has (py "Author") d); simpl; by_evaluation.
Qed.

(** The dictionary [enhance_in_place] leaves, whether it returns or
    raises, comes from its argument by assignments to written keys. *)
Lemma enhance_in_place_writes (d : pydict) :
  writes_within (written_keys self d) d (enhance_in_place self d).2.
Proof.
  unfold enhance_in_place, mbind, SE_bind, bind.
  pose proof (genre_step_writes d) as Hg.
  destruct (genre_step self d) as [[[]|e] d1]; simpl in Hg;
    [|eapply writes_within_mono; [|exact Hg];
      intros k Hk; apply elem_of_app; auto].
  assert (Hhas : dict_has (py "Author") d1 = dict_has (py "Author") d).
  { apply (writes_within_has _ _ _ _ Hg), author_is_not_derived. }
  pose proof (author_step_writes d d1 Hhas) as Ha.
  pose proof (writes_within_trans _ _ _ _ Hg Ha) as Hga.
  destruct (author_step d1) as [[[]|e] d2]; simpl in Ha, Hga;
    [|eapply writes_within_mono; [|exact Hga];
      intros k Hk; apply elem_of_app; auto].
  unfold format_step, mbind, SE_bind, bind, d_items.
  eapply writes_within_trans.
  - eapply writes_within_mono; [|exact Hga]. intros k Hk; apply elem_of_app; auto.
  - eapply writes_within_mono; [|apply for_each_format_writes].
    intros k Hk. apply elem_of_app. right. unfold formatted_keys.
    apply list_elem_of_fmap in Hk as (name & -> & Hname).
    apply list_elem_of_fmap. exists name. split; [reflexivity|].
    apply list_elem_of_filter in Hname as [Hspec Hname].
    apply list_elem_of_filter. split; [assumption|].
    apply list_elem_of_fmap in Hname as (kv & -> & Hkv).
    apply elem_of_app.
    destruct (writes_within_items _ _ _ _ Hga Hkv) as [Hd|Hd]; [|auto].
    left. apply list_elem_of_fmap. eauto.
Qed.
End EnhancerFacts.

Section EnhancerReturns.
Context {ucd : UnicodeData} {rt : Interpreter}.
Variable self : DataMapper.








End EnhancerReturns.

(* ================================================================== *)
(** * [get_enhanced_book_data]: returning, and what is kept *)
(* ================================================================== *)

Section EnhancerClaims.
Context {ucd : UnicodeData} {rt : Interpreter}.
Variable self : DataMapper.


Lemma get_enhanced_book_data_result (book_data : ref) (σ : store) (d : pydict) :
  σ !! book_data = Some d ->
  get_enhanced_book_data self book_data σ
  = (match (enhance_in_place self d).1 with
     | Ok _ => Ok (fresh (dom σ))
     | Raise e => Raise e
     end,
     <[fresh (dom σ) := (enhance_in_place self d).2]> σ).
Proof.
  intros Hd. rewrite get_enhanced_book_data_run. cbv zeta.
  rewrite (lookup_total_correct _ _ _ Hd).
  destruct (enhance_in_place self d); reflexivity.
Qed.


End EnhancerClaims.

(** A record with a [genre] and a display name of its own. *)
Lemma get_enhanced_book_data_overwrites :
  let d := [(py "genre", VStr (py "cozy_mystery"));
            (py "genre_display", VStr (py "My Shelf"))] in
  let run := get_enhanced_book_data (ucd := ascii_only) (rt := default_interpreter) empty_mapper 1%positive
               (<[1%positive := d]> ∅) in
  run.1 = Ok 2%positive
  /\ dict_get (py "genre_display") (run.2 !!! 2%positive) = Some (VStr (py "Cozy Mystery"))
  /\ ~ keeps_all_pairs d (run.2 !!! 2%positive).
Proof.
  cbv zeta. split; [vm_compute; reflexivity|]. split; [vm_compute; reflexivity|].
  intros Hkeep. specialize (Hkeep (py "genre_display") (VStr (py "My Shelf")) eq_refl).
  vm_compute in Hkeep. discriminate Hkeep.
Qed.

(* ================================================================== *)
(** * [format_field_value]: the rules *)
(* ================================================================== *)

Section NormaliserClaims.
Context {ucd : UnicodeData} {rt : Interpreter}.
Variable self : DataMapper.

(** C2. The normaliser is not total: with a rule for the rating field,
    the string [inf] is converted to an infinite float, whose conversion
    to an integer raises [OverflowError], which the handler for
    [ValueError] and [TypeError] lets through. *)
Theorem format_field_value_rating_overflow :
  is_Some (field_specs self !! py "reviewAverage") ->
  format_field_value self (py "reviewAverage") (VStr (py "inf")) = Raise OverflowError.
Proof.
  intros [spec Hspec]. unfold format_field_value, get_field_spec. rewrite Hspec.
  reflexivity.
Qed.


Lemma stripped_items_trimmed (sep : char) (s : str) :
  stripped_items sep s = trimmed_tokens sep s.
Proof.
  unfold stripped_items, trimmed_tokens.
  induction (split sep s) as [|item items IH]; [reflexivity|].
  cbn [map]. rewrite (filter_cons _ item items), (filter_cons _ (strip item)).
  destruct (strip item) as [|c t] eqn:Hstrip.
  - rewrite decide_False by (cbn; intros []). rewrite decide_False by congruence.
    exact IH.
  - rewrite decide_True by (cbn; exact I). rewrite decide_True by discriminate.
    cbn [map]. rewrite Hstrip. f_equal. exact IH.
Qed.

(** C8, amended. For a delimited-list field that has a field rule and a
    string value that is not empty: the value is split on [|] if it
    holds one, else on [#] if it holds one; every token is trimmed, the
    tokens that are then empty are dropped and the others are joined
    with a comma and a blank; a value with neither delimiter is returned
    as it is. *)
Theorem format_field_value_delimited (name s : str) :
  name = py "topicTags" \/ name = py "subcatsList" ->
  is_Some (field_specs self !! name) ->
  s <> [] ->
  format_field_value self name (VStr s)
  = Ok (if contains (ch "|") s then join (py ", ") (trimmed_tokens (ch "|") s)
        else if contains (ch "#") s then join (py ", ") (trimmed_tokens (ch "#") s)
        else s).
Proof.
  intros Hname [spec Hspec] Hs. unfold format_field_value, get_field_spec.
  rewrite Hspec. destruct s as [|c s]; [congruence|]. cbn [is_none_or_empty].
  rewrite <- !stripped_items_trimmed.
  destruct Hname as [-> | ->]; cbn [py_str];
    repeat (rewrite bool_decide_eq_false_2 by py_neq);
    rewrite bool_decide_eq_true_2 by reflexivity; cbn [orb];
    rewrite ?orb_true_r;
    destruct (contains (ch "|") (c :: s)); [reflexivity| |reflexivity|];
    destruct (contains (ch "#") (c :: s)); reflexivity.
Qed.
End NormaliserClaims.

(** The sample mapper has a rule for the rating field. *)
Lemma format_field_value_rating_overflow_sample :
  format_field_value (ucd := ascii_only) (rt := default_interpreter) sample_mapper (py "reviewAverage") (VStr (py "inf"))
  = Raise OverflowError.
Proof.
  apply (format_field_value_rating_overflow (ucd := ascii_only) (rt := default_interpreter) sample_mapper).
  vm_compute. eauto.
Defined.



(** Two delimiters in a row: the empty token between them is dropped. *)
Lemma format_field_value_drops_empty_tokens :
  format_field_value (ucd := ascii_only) (rt := default_interpreter) sample_mapper (py "topicTags") (VStr (py "a||b"))
  = Ok (py "a, b")
  /\ claimed_list_format (py "a||b") = py "a, , b".
Proof. split; vm_compute; reflexivity. Qed.

(** Tokens with blanks around them. *)
Lemma format_field_value_delimited_example :
  format_field_value (ucd := ascii_only) (rt := default_interpreter) sample_mapper (py "topicTags")
    (VStr (py "cozy | small town|cats "))
  = Ok (py "cozy, small town, cats").
Proof.
  rewrite (format_field_value_delimited (ucd := ascii_only) (rt := default_interpreter) sample_mapper (py "topicTags")
             (py "cozy | small town|cats ") ltac:(left; reflexivity)
             ltac:(vm_compute; eauto) ltac:(vm_compute; discriminate)).
  vm_compute. reflexivity.
Defined.

(* ================================================================== *)
(** * The regular expressions *)
(* ================================================================== *)

Lemma span_app (p : char -> bool) (s : str) : (span p s).1 ++ (span p s).2 = s.
Proof.
  induction s as [|c s IH]; simpl; [reflexivity|].
  destruct (p c); [|reflexivity].
  destruct (span p s) as [a b]; simpl in *. now rewrite IH.
Qed.

Lemma span_prefix (p : char -> bool) (s : str) :
  Forall (fun c => p c = true) (span p s).1.
Proof.
  induction s as [|c s IH]; simpl; [constructor|].
  destruct (p c) eqn:Hc; [|constructor].
  destruct (span p s) as [a b]; simpl in *. now constructor.
Qed.

Lemma span_rest (p : char -> bool) (s : str) (c : char) (r : str) :
  (span p s).2 = c :: r -> p c = false.
Proof.
  induction s as [|c0 s IH]; simpl; [discriminate|].
  destruct (p c0) eqn:Hc0.
  - destruct (span p s) as [a b]; simpl in *. exact IH.
  - simpl. now intros [= <- <-].
Qed.

Lemma span_stop (p : char -> bool) (a : str) (c : char) (r : str) :
  Forall (fun x => p x = true) a -> p c = false -> span p (a ++ c :: r) = (a, c :: r).
Proof.
  intros Ha Hc. induction Ha as [|x a Hx Ha IH]; simpl.
  - now rewrite Hc.
  - now rewrite Hx, IH.
Qed.

Lemma span_all (p : char -> bool) (a : str) :
  Forall (fun x => p x = true) a -> span p a = (a, []).
Proof.
  intros Ha. induction Ha as [|x a Hx Ha IH]; simpl; [reflexivity|].
  now rewrite Hx, IH.
Qed.

Lemma not_char_forall (c : char) (s : str) :
  c ∉ s <-> Forall (fun x => negb (x =? c)%N = true) s.
Proof.
  rewrite Forall_forall. split.
  - intros Hc x Hx. apply negb_true_iff, N.eqb_neq. intros ->. auto.
  - intros Hall Hc. specialize (Hall c Hc).
    apply negb_true_iff, N.eqb_neq in Hall. auto.
Qed.

(** ** The link pattern *)

Lemma match_link_here_link (name url post : str) :
  name <> [] -> ch "]" ∉ name -> url <> [] -> ch ")" ∉ url ->
  match_link_here ([ch "["] ++ name ++ [ch "]"; ch "("] ++ url ++ [ch ")"] ++ post)
  = Some (name, url).
Proof.
  intros Hname Hn Hurl Hu. cbn [app match_link_here].
  rewrite N.eqb_refl.
  rewrite (span_stop _ name (ch "]") _ (proj1 (not_char_forall _ _) Hn) eq_refl).
  destruct name as [|n0 name]; [congruence|].
  rewrite !N.eqb_refl. cbn [andb].
  rewrite (span_stop _ url (ch ")") _ (proj1 (not_char_forall _ _) Hu) eq_refl).
  destruct url as [|u0 url]; [congruence|].
  now rewrite N.eqb_refl.
Qed.

Lemma match_link_here_Some (s name url : str) :
  match_link_here s = Some (name, url) -> exists post, link_at s [] name url post.
Proof.
  unfold match_link_here. destruct s as [|c r]; [discriminate|].
  destruct (c =? ch "[")%N eqn:Hc; [|discriminate]. apply N.eqb_eq in Hc as ->.
  pose proof (span_app (fun x => negb (x =? ch "]")%N) r) as Happ1.
  pose proof (span_prefix (fun x => negb (x =? ch "]")%N) r) as Hpre1.
  destruct (span (fun x => negb (x =? ch "]")%N) r) as [nm r1]; simpl in Happ1, Hpre1.
  destruct nm as [|n0 nm]; [discriminate|].
  destruct r1 as [|c1 [|c2 r2]]; try discriminate.
  destruct (c1 =? ch "]")%N eqn:Hc1; [|discriminate]. apply N.eqb_eq in Hc1 as ->.
  destruct (c2 =? ch "(")%N eqn:Hc2; [|discriminate]. apply N.eqb_eq in Hc2 as ->.
  cbn [andb].
  pose proof (span_app (fun x => negb (x =? ch ")")%N) r2) as Happ2.
  pose proof (span_prefix (fun x => negb (x =? ch ")")%N) r2) as Hpre2.
  destruct (span (fun x => negb (x =? ch ")")%N) r2) as [ur r3]; simpl in Happ2, Hpre2.
  destruct ur as [|u0 ur]; [discriminate|].
  destruct r3 as [|c3 r3]; [discriminate|].
  destruct (c3 =? ch ")")%N eqn:Hc3; [|discriminate]. apply N.eqb_eq in Hc3 as ->.
  intros [= <- <-]. exists r3. unfold link_at.
  split; [|split; [discriminate|split; [now apply not_char_forall|
                    split; [discriminate|now apply not_char_forall]]]].
  rewrite <- Happ1, <- Happ2. simpl. rewrite <- ?app_assoc. reflexivity.
Qed.

Lemma first_link_at_tail (c : char) (text pre name url post : str) :
  first_link_at (c :: text) (c :: pre) name url post ->
  first_link_at text pre name url post.
Proof.
  intros [(Heq & Hrest) Hmin]. split.
  - split; [|exact Hrest]. simpl in Heq. now injection Heq.
  - intros pre' name' url' post' (Heq' & Hrest').
    assert (Hlink : link_at (c :: text) (c :: pre') name' url' post').
    { split; [|exact Hrest']. simpl. now rewrite Heq'. }
    specialize (Hmin _ _ _ _ Hlink). simpl in Hmin. lia.
Qed.

Lemma search_link_unfold (s : str) :
  search_link s
  = match match_link_here s with
    | Some g => Some g
    | None => match s with
              | [] => None
              | _ :: s' => search_link s'
              end
    end.
Proof. destruct s; reflexivity. Qed.

Lemma search_link_first (text pre name url post : str) :
  first_link_at text pre name url post -> search_link text = Some (name, url).
Proof.
  revert text. induction pre as [|c pre IH]; intros text Hfirst.
  - destruct Hfirst as [(-> & Hn0 & Hn & Hu0 & Hu) _].
    rewrite search_link_unfold. rewrite app_nil_l.
    now rewrite (match_link_here_link name url post Hn0 Hn Hu0 Hu).
  - pose proof Hfirst as [(Heq & _) Hmin]. simpl in Heq. subst text.
    apply first_link_at_tail in Hfirst. rewrite search_link_unfold.
    destruct (match_link_here _) as [[name' url']|] eqn:Hm.
    + apply match_link_here_Some in Hm as [post' Hlink].
      specialize (Hmin _ _ _ _ Hlink). simpl in Hmin. lia.
    + now apply IH.
Qed.

(** ** The identifier pattern *)

Lemma dollar_catalog_id_tails (url tok : str) :
  dollar_catalog_id url tok
  <-> catalog_token tok /\ exists trail, trail ∈ dollar_tails /\ segment_before trail url tok.
Proof.
  unfold dollar_catalog_id, dollar_tails. split.
  - intros [Htok [H|[H|[H|H]]]]; (split; [assumption|]); eexists; (split; [|exact H]);
      repeat first [apply list_elem_of_here | apply list_elem_of_further].
  - intros [Htok (trail & Hin & Hseg)]. split; [assumption|].
    repeat rewrite elem_of_cons in Hin. rewrite elem_of_nil in Hin.
    destruct Hin as [->|[->|[->|[->|[]]]]]; auto.
Qed.

Lemma dollar_tail_short (trail : str) : trail ∈ dollar_tails -> (length trail <= 2)%nat.
Proof.
  unfold dollar_tails. repeat rewrite elem_of_cons. rewrite elem_of_nil.
  intros [->|[->|[->|[->|[]]]]]; simpl; lia.
Qed.

Lemma dollar_tail_head (trail : str) (c : char) (r : str) :
  trail ∈ dollar_tails -> trail = c :: r -> is_upper_alnum c = false.
Proof.
  unfold dollar_tails. repeat rewrite elem_of_cons. rewrite elem_of_nil.
  intros [->|[->|[->|[->|[]]]]]; intros [= <- <-]; reflexivity.
Qed.

Lemma match_isbn_here_Some (s tok : str) :
  match_isbn_here s = Some tok ->
  catalog_token tok /\ exists trail, trail ∈ dollar_tails /\ s = ch "/" :: tok ++ trail.
Proof.
  unfold match_isbn_here. destruct s as [|c r]; [discriminate|].
  destruct (c =? ch "/")%N eqn:Hc; [|discriminate]. apply N.eqb_eq in Hc as ->.
  pose proof (span_app is_upper_alnum r) as Happ.
  pose proof (span_prefix is_upper_alnum r) as Hpre.
  destruct (span is_upper_alnum r) as [tk r1]; simpl in Happ, Hpre.
  destruct (10 <=? length tk)%nat eqn:Hlen; [|discriminate].
  apply Nat.leb_le in Hlen. subst r.
  assert (Htails : forall trail, trail ∈ dollar_tails ->
            Some tk = Some tok ->
            catalog_token tok /\
            exists trail0, trail0 ∈ dollar_tails /\ ch "/" :: tk ++ trail = ch "/" :: tok ++ trail0).
  { intros trail Hin [= <-]. split; [split; assumption|]. eauto. }
  unfold dollar_tails in Htails.
  destruct r1 as [|c1 r2].
  - apply Htails. apply list_elem_of_here.
  - destruct (c1 =? ch "/")%N eqn:Hc1.
    + apply N.eqb_eq in Hc1 as ->. cbn [andb].
      destruct r2 as [|c2 [|c3 r3]]; cbn [at_dollar orb].
      * apply Htails. by_evaluation.
      * destruct (c2 =? 10)%N eqn:Hc2; cbn [orb]; [|discriminate].
        apply N.eqb_eq in Hc2 as ->. apply Htails. by_evaluation.
      * discriminate.
    + cbn [andb orb]. destruct r2 as [|c2 r3]; cbn [at_dollar]; [|discriminate].
      destruct (c1 =? 10)%N eqn:Hc2; [|discriminate].
      apply N.eqb_eq in Hc2 as ->. apply Htails. by_evaluation.
Qed.

Lemma match_isbn_here_at (tok trail : str) :
  catalog_token tok -> trail ∈ dollar_tails ->
  match_isbn_here (ch "/" :: tok ++ trail) = Some tok.
Proof.
  intros [Hlen Hall] Hin. unfold match_isbn_here. rewrite N.eqb_refl.
  apply Nat.leb_le in Hlen.
  unfold dollar_tails in Hin. repeat rewrite elem_of_cons in Hin. rewrite elem_of_nil in Hin.
  destruct Hin as [->|[->|[->|[->|[]]]]].
  - rewrite app_nil_r, (span_all _ _ Hall), Hlen. reflexivity.
  - rewrite (span_stop is_upper_alnum tok _ _ Hall) by reflexivity. now rewrite Hlen.
  - rewrite (span_stop is_upper_alnum tok _ _ Hall) by reflexivity. now rewrite Hlen.
  - rewrite (span_stop is_upper_alnum tok _ _ Hall) by reflexivity. now rewrite Hlen.
Qed.

Lemma search_isbn_unfold (s : str) :
  search_isbn s
  = match match_isbn_here s with
    | Some g => Some g
    | None => match s with
              | [] => None
              | _ :: s' => search_isbn s'
              end
    end.
Proof. destruct s; reflexivity. Qed.

Lemma search_isbn_sound (url tok : str) :
  search_isbn url = Some tok -> dollar_catalog_id url tok.
Proof.
  rewrite dollar_catalog_id_tails.
  induction url as [|c url IH]; rewrite search_isbn_unfold.
  - discriminate.
  - destruct (match_isbn_here (c :: url)) as [g|] eqn:Hm.
    + intros [= ->]. apply match_isbn_here_Some in Hm as [Htok (trail & Hin & Heq)].
      split; [assumption|]. exists trail. split; [assumption|]. exists []. exact Heq.
    + intros Hs. destruct (IH Hs) as [Htok (trail & Hin & pre & ->)].
      split; [assumption|]. exists trail. split; [assumption|]. now exists (c :: pre).
Qed.

Lemma search_isbn_complete (url tok : str) :
  dollar_catalog_id url tok -> search_isbn url = Some tok.
Proof.
  rewrite dollar_catalog_id_tails. intros [Htok (trail & Hin & pre & ->)].
  induction pre as [|c pre IH]; rewrite search_isbn_unfold.
  - cbn [app]. now rewrite (match_isbn_here_at tok trail).
  - cbn [app]. destruct (match_isbn_here _) as [tok'|] eqn:Hm; [|exact IH].
    exfalso. apply match_isbn_here_Some in Hm as [[Hlen' Hall'] (trail' & Hin' & Heq)].
    injection Heq as -> Heq.
    apply dollar_tail_short in Hin'. destruct Htok as [Hlen Hall].
    apply app_eq_app in Heq as [k [[-> Hk]|[-> Hk]]].
    + (* the earlier token stops inside the prefix *)
      rewrite Hk in Hin'. rewrite !length_app in Hin'. simpl in Hin'.
      rewrite length_app in Hin'. lia.
    + (* the earlier token runs over the slash *)
      destruct k as [|k0 k].
      * simpl in Hk. subst trail'. simpl in Hin'. rewrite length_app in Hin'. lia.
      * simpl in Hk. injection Hk as <- _.
        apply Forall_app in Hall' as [_ Hk0]. inversion Hk0 as [|? ? Hslash _].
        discriminate Hslash.
Qed.

Lemma search_isbn_spec (url tok : str) :
  search_isbn url = Some tok <-> dollar_catalog_id url tok.
Proof. split; [apply search_isbn_sound | apply search_isbn_complete]. Qed.

(* ================================================================== *)
(** * [extract_author_info]: the first link *)
(* ================================================================== *)

(** C5, amended. For a text that holds a markdown link, with
    [[name](url)] its first one, [extract_author_info] returns [name] as
    the display name and [url] as the URL; the catalog id is the token of
    ten or more upper-case letters and digits that follows a slash and
    ends the URL, a closing slash and one final line feed allowed after
    it, and [None] when the URL has no such token. *)
Theorem extract_author_info_first_link (text pre name url post : str) :
  first_link_at text pre name url post ->
  exists isbn,
    extract_author_info (VStr text) = Ok (name, Some url, isbn)
    /\ (forall tok, isbn = Some tok <-> dollar_catalog_id url tok).
Proof.
  intros Hfirst. exists (search_isbn url). split.
  - unfold extract_author_info.
    rewrite (search_link_first _ _ _ _ _ Hfirst).
    destruct Hfirst as [(-> & _) _].
    destruct pre; reflexivity.
  - intros tok. apply search_isbn_spec.
Qed.

(** A URL that ends in a line feed: the pattern still finds the token,
    which is not the last segment of the path. *)
Lemma extract_author_info_line_feed :
  let url := py "/ABCDEFGHIJ" ++ [10%N] in
  extract_author_info (VStr (py "[a](" ++ url ++ py ")"))
  = Ok (py "a", Some url, Some (py "ABCDEFGHIJ"))
  /\ forall tok, ~ trailing_catalog_id url tok.
Proof.
  cbv zeta. split; [vm_compute; reflexivity|].
  intros tok [[Hlen Hall] [[pre Heq]|[pre Heq]]]; apply (f_equal last) in Heq;
    change (last (py "/ABCDEFGHIJ" ++ [10%N])) with (Some 10%N) in Heq.
  - rewrite app_nil_r, !last_app in Heq.
    destruct (last tok) as [x|] eqn:Hlast.
    + injection Heq as <-.
      apply last_Some_elem_of in Hlast.
      rewrite Forall_forall in Hall. specialize (Hall _ Hlast). discriminate Hall.
    + apply last_None in Hlast. subst tok. simpl in Hlen. lia.
  - rewrite !app_assoc, last_snoc in Heq. discriminate Heq.
Qed.

(** A link with a catalog id at the end of its URL. *)
Lemma extract_author_info_jane_doe :
  extract_author_info (VStr (py "[Jane Doe](http://example.com/B00ABCDEFG)"))
  = Ok (py "Jane Doe", Some (py "http://example.com/B00ABCDEFG"), Some (py "B00ABCDEFG")).
Proof.
  destruct (extract_author_info_first_link
              (py "[Jane Doe](http://example.com/B00ABCDEFG)") []
              (py "Jane Doe") (py "http://example.com/B00ABCDEFG") [])
    as (isbn & -> & Hiff).
  - split.
    + split; [reflexivity|]. split; [discriminate|]. split; [by_evaluation|].
      split; [discriminate | by_evaluation].
    + intros pre' name' url' post' _. simpl. lia.
  - do 2 f_equal. apply Hiff. split.
    + split; [simpl; lia | repeat constructor].
    + left. exists (py "http://example.com"). reflexivity.
Defined.

(* ================================================================== *)
(** * [get_genre_display_name]: the fallback *)
(* ================================================================== *)





Section TitleCase.
Context {ucd : UnicodeData}.



End TitleCase.



(* ================================================================== *)
(** * The properties on sample data *)
(* ================================================================== *)

(** The first of two genres: half the books and a quarter of the reviews
    of the second, which holds both maxima. *)
Lemma calculate_market_metrics_rows_example :
  exists df : DataFrame float,
    calculate_market_metrics (frame_of_rows sample_rows) = Ok df
    /\ cell df (py "market_opportunity") 0 = Some 20%float
    /\ cell df (py "competition_level") 0 = Some 50%float
    /\ cell df (py "quality_threshold") 0 = Some 1%float
    /\ cell df (py "revenue_potential") 0 = Some 250%float
    /\ cell df (py "entry_difficulty") 0 = Some 35%float.
Proof.
  destruct (calculate_market_metrics_rows sample_rows 0
              {| book_count := 50; avg_price := 2.5; avg_rating := 4; avg_reviews := 100 |}%float
              eq_refl)
    as (df & max_count & max_reviews & Hdf & Hcount & Hreviews & H1 & H2 & H3 & H4 & H5).
  assert (Hmc : max_count = 100%float).
  { destruct Hcount as [(Hin & _ & Hle)|[_ Hall]].
    - apply elem_of_cons in Hin as [->|Hin].
      + specialize (Hle 100%float ltac:(apply list_elem_of_further, list_elem_of_here) eq_refl).
        vm_compute in Hle. discriminate Hle.
      + now apply list_elem_of_singleton in Hin.
    - specialize (Hall 50%float ltac:(apply list_elem_of_here)).
      vm_compute in Hall. discriminate Hall. }
  assert (Hmr : max_reviews = 400%float).
  { destruct Hreviews as [(Hin & _ & Hle)|[_ Hall]].
    - apply elem_of_cons in Hin as [->|Hin].
      + specialize (Hle 400%float ltac:(apply list_elem_of_further, list_elem_of_here) eq_refl).
        vm_compute in Hle. discriminate Hle.
      + now apply list_elem_of_singleton in Hin.
    - specialize (Hall 100%float ltac:(apply list_elem_of_here)).
      vm_compute in Hall. discriminate Hall. }
  subst max_count max_reviews. exists df.
  split; [exact Hdf|]. split; [exact H1|]. split; [exact H2|].
  split; [exact H3|]. split; [exact H4|exact H5].
Defined.

(** The sample record is the same object with the same items after the
    call. *)
Lemma get_enhanced_book_data_input_unchanged_example :
  let '(res, σ') := get_enhanced_book_data (ucd := ascii_only) (rt := default_interpreter) sample_mapper 1%positive
                      sample_store in
  σ' !! 1%positive = Some sample_record
  /\ (forall r d0, sample_store !! r = Some d0 -> σ' !! r = Some d0)
  /\ (forall enhanced, res = Ok enhanced -> sample_store !! enhanced = None).
Proof.
  apply (get_enhanced_book_data_input_unchanged (ucd := ascii_only) (rt := default_interpreter) sample_mapper
           1%positive sample_store sample_record).
  reflexivity.
Defined.




(* ================================================================== *)
(** * [format_field_value]: what it raises, and the grouped count *)
(* ================================================================== *)

Lemma uint_digits_are_digits (u : Decimal.uint) :
  Forall (fun c => is_ascii_digit c = true) (uint_digits u).
Proof. induction u; simpl; constructor; auto. Qed.

Lemma digits_of_N_are_digits (n : N) :
  Forall (fun c => is_ascii_digit c = true) (digits_of_N n).
Proof. apply uint_digits_are_digits. Qed.

Lemma filter_rev {A} (P : A -> Prop) `{forall x, Decision (P x)} (l : list A) :
  filter P (rev l) = rev (filter P l).
Proof.
  induction l as [|a l IH]; [reflexivity|].
  simpl rev. rewrite filter_app, IH, filter_cons.
  destruct (decide (P a)).
  - rewrite filter_cons_True by assumption. reflexivity.
  - rewrite filter_cons_False by assumption. simpl. now rewrite app_nil_r.
Qed.

Lemma filter_Forall_id {A} (P : A -> Prop) `{forall x, Decision (P x)} (l : list A) :
  Forall P l -> filter P l = l.
Proof.
  induction 1 as [|a l Ha Hl IH]; [reflexivity|].
  rewrite filter_cons_True by assumption. now rewrite IH.
Qed.

(** Taking the commas out of a grouped digit string gives the digits. *)
Lemma group3_rev_without_commas (fuel : nat) (rds : str) :
  Forall (fun c => c <> 44%N) rds ->
  filter (fun c => c <> 44%N) (group3_rev fuel rds) = rds.
Proof.
  revert rds. induction fuel as [|fuel IH]; intros rds Hall.
  - destruct rds as [|a [|b [|c [|d more]]]]; simpl group3_rev;
      now apply filter_Forall_id.
  - destruct rds as [|a [|b [|c [|d more]]]]; simpl group3_rev;
      try (now apply filter_Forall_id).
    inversion Hall as [|? ? Ha Hall1]; subst.
    inversion Hall1 as [|? ? Hb Hall2]; subst.
    inversion Hall2 as [|? ? Hc Hall3]; subst.
    rewrite (filter_cons_True _ a), (filter_cons_True _ b), (filter_cons_True _ c)
      by assumption.
    rewrite (filter_cons_False _ 44%N) by (intros Hne; now apply Hne).
    do 3 f_equal. exact (IH (d :: more) Hall3).
Qed.

Lemma digit_is_no_comma (c : char) : is_ascii_digit c = true -> c <> 44%N.
Proof. intros Hc ->. discriminate Hc. Qed.

Lemma group_thousands_without_commas (n : Z) :
  filter (fun c => c <> 44%N) (group_thousands n) = int_str n.
Proof.
  unfold group_thousands, int_str. cbv zeta.
  assert (Hds : Forall (fun c => c <> 44%N) (digits_of_N (Z.abs_N n))).
  { eapply Forall_impl; [apply digits_of_N_are_digits|]. apply digit_is_no_comma. }
  unfold str, char in *.
  rewrite filter_app, filter_rev.
  rewrite (group3_rev_without_commas _ _ (Forall_rev Hds)).
  rewrite rev_involutive. f_equal.
  destruct (n <? 0); reflexivity.
Qed.

Section NormaliserFacts.
Context {ucd : UnicodeData} {rt : Interpreter}.
Variable self : DataMapper.

(** X1. The normaliser raises three exceptions only. [ValueError]: the
    value is an [int] with more digits than the interpreter converts to
    text. [OverflowError]: the field is [price], [reviewAverage] or
    [nReviews], it has a rule, and the value is neither [None] nor a
    [bool]. [MemoryError]: the field is [reviewAverage], it has a rule,
    and the value is not [None]. *)
Theorem format_field_value_raises_only (name : str) (v : value) (e : exn) :
  format_field_value self name v = Raise e ->
  (e = ValueError
   /\ exists n, v = VInt n
                /\ exceeds_digit_limit (length (digits_of_N (Z.abs_N n))) = true)
  \/ (e = OverflowError
      /\ is_Some (field_specs self !! name)
      /\ (name = py "price" \/ name = py "reviewAverage" \/ name = py "nReviews")
      /\ v <> VNone /\ (forall b, v <> VBool b))
  \/ (e = MemoryError
      /\ is_Some (field_specs self !! name)
      /\ name = py "reviewAverage"
      /\ v <> VNone).
Proof.
  intros Hf.
  assert (Hnone : v <> VNone) by (intros ->; discriminate Hf).
  destruct (format_field_value_raises self name v e Hf)
    as [Hvalue|[Hrule [[-> Hname]|[-> ->]]]]; [now left| |now right; right].
  right; left. repeat (split; [first [reflexivity|assumption]|]).
  intros b ->. unfold format_field_value, get_field_spec in Hf.
  destruct Hrule as [spec Hspec]. cbn [is_none_or_empty] in Hf.
  destruct Hname as [->|[->| ->]]; rewrite Hspec in Hf;
    repeat (rewrite bool_decide_eq_false_2 in Hf by py_neq);
    rewrite bool_decide_eq_true_2 in Hf by reflexivity.
  - destruct b; discriminate Hf.
  - apply catch_value_type_raises in Hf as [(Hb & _)|[_ Hs]];
      [|destruct b; discriminate Hs].
    destruct b; cbn in Hb; apply new_str_raises in Hb; discriminate Hb.
  - apply catch_value_type_raises in Hf as [(Hb & _)|[_ Hs]];
      [|destruct b; discriminate Hs].
    destruct b; cbn in Hb; apply int_format_grouped_raises in Hb as [Hb _];
      discriminate Hb.
Qed.

(** X2. With a rule for [nReviews], an [int] count within the
    interpreter's limit on digits is rendered with commas only added:
    taking the commas out of the result gives the decimal text of the
    count, sign included. Beyond the limit [ValueError] is raised. *)
Theorem format_field_value_count_digits (n : Z) :
  is_Some (field_specs self !! py "nReviews") ->
  if exceeds_digit_limit (length (digits_of_N (Z.abs_N n)))
  then format_field_value self (py "nReviews") (VInt n) = Raise ValueError
  else exists s,
         format_field_value self (py "nReviews") (VInt n) = Ok s
         /\ filter (fun c => c <> ch ",") s = int_str n.
Proof.
  intros [spec Hspec].
  assert (Hf : format_field_value self (py "nReviews") (VInt n)
               = catch_value_type (int_format_grouped n) (int_to_str n)).
  { unfold format_field_value, get_field_spec. rewrite Hspec.
    cbn [is_none_or_empty].
    repeat (rewrite bool_decide_eq_false_2 by py_neq).
    rewrite bool_decide_eq_true_2 by reflexivity.
    reflexivity. }
  rewrite Hf. unfold int_format_grouped, int_to_str.
  destruct (exceeds_digit_limit _); [reflexivity|].
  exists (group_thousands n). split; [reflexivity|].
  apply group_thousands_without_commas.
Qed.
End NormaliserFacts.

(** A rating of [inf] in text, under the rule of the sample mapper. *)
Lemma format_field_value_raises_only_example :
  (OverflowError = ValueError
   /\ exists n, VStr (py "inf") = VInt n
                /\ exceeds_digit_limit (rt := default_interpreter)
                     (length (digits_of_N (Z.abs_N n))) = true)
  \/ (OverflowError = OverflowError
      /\ is_Some (field_specs sample_mapper !! py "reviewAverage")
      /\ (py "reviewAverage" = py "price" \/ py "reviewAverage" = py "reviewAverage"
          \/ py "reviewAverage" = py "nReviews")
      /\ VStr (py "inf") <> VNone /\ (forall b, VStr (py "inf") <> VBool b))
  \/ (OverflowError = MemoryError
      /\ is_Some (field_specs sample_mapper !! py "reviewAverage")
      /\ py "reviewAverage" = py "reviewAverage"
      /\ VStr (py "inf") <> VNone).
Proof.
  apply (format_field_value_raises_only (ucd := ascii_only) (rt := default_interpreter) sample_mapper
           (py "reviewAverage") (VStr (py "inf")) OverflowError).
  vm_compute. reflexivity.
Defined.

(** A count of 1234567. *)
Lemma format_field_value_count_digits_example :
  exists s,
    format_field_value (ucd := ascii_only) (rt := default_interpreter) sample_mapper (py "nReviews") (VInt 1234567) = Ok s
    /\ filter (fun c => c <> ch ",") s = py "1234567".
Proof.
  exact (format_field_value_count_digits (ucd := ascii_only) (rt := default_interpreter) sample_mapper 1234567
           ltac:(vm_compute; eauto)).
Defined.

(* ================================================================== *)
(** * The author text: what the search finds, and the two parsers *)
(* ================================================================== *)

Lemma link_at_cons (c : char) (text pre name url post : str) :
  link_at text pre name url post -> link_at (c :: text) (c :: pre) name url post.
Proof. intros [-> Hrest]. split; [reflexivity|exact Hrest]. Qed.

Lemma link_at_nil_match (text name url post : str) :
  link_at text [] name url post -> match_link_here text = Some (name, url).
Proof.
  intros (-> & Hn0 & Hn & Hu0 & Hu). rewrite app_nil_l.
  now apply match_link_here_link.
Qed.

(** What the search returns is the first link of the text. *)
Lemma search_link_Some (text name url : str) :
  search_link text = Some (name, url) ->
  exists pre post, first_link_at text pre name url post.
Proof.
  induction text as [|c text IH]; [discriminate|].
  rewrite search_link_unfold.
  destruct (match_link_here (c :: text)) as [[name' url']|] eqn:Hm.
  - intros [= -> ->]. apply match_link_here_Some in Hm as [post Hlink].
    exists [], post. split; [exact Hlink|]. intros; simpl; lia.
  - intros Hs. destruct (IH Hs) as (pre & post & Hlink & Hmin).
    exists (c :: pre), post. split; [now apply link_at_cons|].
    intros [|c' pre'] name' url' post' Hlink'.
    + apply link_at_nil_match in Hlink'. congruence.
    + destruct Hlink' as [Heq Hrest]. simpl in Heq. injection Heq as <- Heq.
      assert (Hl : link_at text pre' name' url' post') by (split; assumption).
      specialize (Hmin _ _ _ _ Hl). simpl. lia.
Qed.

(** A text that holds a link has a match. *)
Lemma search_link_is_Some (text pre name url post : str) :
  link_at text pre name url post -> is_Some (search_link text).
Proof.
  revert text. induction pre as [|c pre IH]; intros text Hlink.
  - rewrite search_link_unfold, (link_at_nil_match _ _ _ _ Hlink). eauto.
  - pose proof Hlink as [Heq Hrest]. simpl in Heq. subst text.
    rewrite search_link_unfold.
    destruct (match_link_here _) as [g|]; [eauto|].
    apply IH. split; [reflexivity|exact Hrest].
Qed.

Lemma search_link_None (text : str) :
  search_link text = None
  <-> ~ exists pre name url post, link_at text pre name url post.
Proof.
  split.
  - intros Hs (pre & name & url & post & Hlink).
    apply search_link_is_Some in Hlink as [g Hg]. congruence.
  - intros Hno. destruct (search_link text) as [[name url]|] eqn:Hs; [|reflexivity].
    exfalso. apply Hno. apply search_link_Some in Hs as (pre & post & Hlink & _).
    eauto 6.
Qed.

(** X3. A text that is not empty comes back whole as the display name,
    with no URL and no catalog id, exactly when it holds no markdown
    link [[name](url)] with a name free of closing brackets and a URL free
    of closing parentheses, neither of them empty. *)
Theorem extract_author_info_no_link (text : str) :
  text <> [] ->
  extract_author_info (VStr text) = Ok (text, None, None)
  <-> ~ exists pre name url post, link_at text pre name url post.
Proof.
  intros Htext. rewrite <- search_link_None.
  unfold extract_author_info.
  destruct text as [|c text]; [congruence|]. cbn [py_not length Nat.eqb].
  destruct (search_link (c :: text)) as [[name url]|]; split; congruence.
Qed.

(** X4. Whatever URL the extraction returns comes from the text: the
    name and the URL are those of a markdown link of the text, no link
    starts before it, and the catalog id is the token of ten or more
    upper-case letters and digits that ends the URL as the identifier
    pattern allows, [None] when there is none. *)
Theorem extract_author_info_from_text (text name url : str) (isbn : option str) :
  extract_author_info (VStr text) = Ok (name, Some url, isbn) ->
  (exists pre post, first_link_at text pre name url post)
  /\ (forall tok, isbn = Some tok <-> dollar_catalog_id url tok).
Proof.
  unfold extract_author_info.
  destruct (py_not (VStr text)); [discriminate|].
  destruct (search_link text) as [[name' url']|] eqn:Hs; [|discriminate].
  intros [= -> -> <-]. split.
  - now apply search_link_Some.
  - intros tok. apply search_isbn_spec.
Qed.

(** X5. For every value on which the extraction returns, the display
    name is not empty, a URL it returns is not empty, and a catalog id
    comes only with a URL and has ten characters or more. *)
Theorem extract_author_info_name_not_empty (v : value) (name : str)
    (url isbn : option str) :
  extract_author_info v = Ok (name, url, isbn) ->
  name <> []
  /\ url <> Some []
  /\ (forall tok, isbn = Some tok -> is_Some url /\ (10 <= length tok)%nat).
Proof.
  unfold extract_author_info.
  destruct (py_not v) eqn:Hnot.
  { intros [= <- <- <-]. repeat split; discriminate. }
  destruct v as [| | | |text]; try discriminate.
  destruct (search_link text) as [[name' url']|] eqn:Hs.
  - intros [= <- <- <-].
    apply search_link_Some in Hs as (pre & post & (_ & Hn & _ & Hu & _) & _).
    split; [exact Hn|]. split; [congruence|].
    intros tok Htok. split; [eauto|].
    apply search_isbn_spec in Htok as [[Hlen _] _]. exact Hlen.
  - intros [= <- <- <-]. split; [|split; discriminate].
    intros ->. discriminate Hnot.
Qed.

(** X6. The dashboard's own parser of the author text and the mapper's
    extraction agree on every value: the same display name and URL, and
    the same exception where one is raised. *)
Theorem parse_author_markdown_agrees (v : value) :
  parse_author_markdown v
  = rbind (extract_author_info v) (fun '(name, url, _) => Ok (name, url)).
Proof.
  unfold parse_author_markdown, extract_author_info.
  destruct (py_not v); [reflexivity|].
  destruct v as [| | | |text]; try reflexivity.
  destruct (search_link text) as [[name url]|]; reflexivity.
Qed.

(** X7. The author display of a text: with [[name](url)] its first
    link, an anchor to [url] that shows [name], both put in as they are;
    a text that is not empty and holds no link, the text itself; and no
    text makes it raise. *)
Theorem format_author_display_text (text : str) :
  (forall pre name url post,
     first_link_at text pre name url post ->
     format_author_display (VStr text) = Ok (author_anchor url name))
  /\ (text <> [] ->
      (~ exists pre name url post, link_at text pre name url post) ->
      format_author_display (VStr text) = Ok text)
  /\ exists shown, format_author_display (VStr text) = Ok shown.
Proof.
  unfold format_author_display, extract_author_info, mbind, result_bind, rbind.
  split; [|split].
  - intros pre name url post Hfirst.
    rewrite (search_link_first _ _ _ _ _ Hfirst).
    destruct Hfirst as [(-> & _ & _ & Hu & _) _].
    destruct url as [|u url]; [congruence|].
    destruct pre; reflexivity.
  - intros Htext Hno. apply search_link_None in Hno. rewrite Hno.
    destruct text; [congruence|reflexivity].
  - destruct (py_not (VStr text)); [eauto|].
    destruct (search_link text) as [[name url]|]; [|eauto].
    destruct (length url =? 0)%nat; eauto.
Qed.

(** A text with no bracket, and a link with a catalog id. *)
Lemma extract_author_info_no_link_example :
  extract_author_info (VStr (py "Jane Doe")) = Ok (py "Jane Doe", None, None)
  <-> ~ exists pre name url post, link_at (py "Jane Doe") pre name url post.
Proof.
  apply (extract_author_info_no_link (py "Jane Doe")). vm_compute. discriminate.
Defined.

Lemma extract_author_info_from_text_example :
  (exists pre post,
     first_link_at (py "by [Jane Doe](http://example.com/B00ABCDEFG)") pre
       (py "Jane Doe") (py "http://example.com/B00ABCDEFG") post)
  /\ (forall tok, Some (py "B00ABCDEFG") = Some tok
                  <-> dollar_catalog_id (py "http://example.com/B00ABCDEFG") tok).
Proof.
  apply (extract_author_info_from_text (py "by [Jane Doe](http://example.com/B00ABCDEFG)")).
  vm_compute. reflexivity.
Defined.

Lemma extract_author_info_name_not_empty_example :
  py "Unknown Author" <> []
  /\ @None str <> Some []
  /\ (forall tok : str, None = Some tok -> is_Some (@None str) /\ (10 <= length tok)%nat).
Proof.
  apply (extract_author_info_name_not_empty (VInt 0)). vm_compute. reflexivity.
Defined.

(* ================================================================== *)
(** * [get_enhanced_book_data]: the values and the order of the keys *)
(* ================================================================== *)

(** The keys of a dictionary after an assignment: the same, or one more
    at the end. *)
Lemma dict_set_keys (k : str) (v : value) (d : pydict) :
  map fst (dict_set k v d)
  = if decide (k ∈ map fst d) then map fst d else map fst d ++ [k].
Proof.
  induction d as [|[k' v'] d IH]; cbn [dict_set map fst].
  - destruct (decide (k ∈ [])) as [Hin|_]; [inversion Hin|reflexivity].
  - destruct (decide (k' = k)) as [->|Hne]; cbn [map fst].
    + destruct (decide (k ∈ k :: map fst d)) as [_|Hout]; [reflexivity|].
      exfalso. apply Hout, list_elem_of_here.
    + rewrite IH. destruct (decide (k ∈ map fst d)) as [Hin|Hout].
      * destruct (decide (k ∈ k' :: map fst d)) as [_|Hout]; [reflexivity|].
        exfalso. now apply Hout, list_elem_of_further.
      * destruct (decide (k ∈ k' :: map fst d)) as [Hin|_]; [|reflexivity].
        apply elem_of_cons in Hin as [->|Hin]; congruence.
Qed.

Lemma dict_set_prefix (k : str) (v : value) (d : pydict) :
  map fst d `prefix_of` map fst (dict_set k v d).
Proof.
  rewrite dict_set_keys. destruct (decide _); [reflexivity|].
  now apply prefix_app_r.
Qed.

Lemma dict_set_NoDup (k : str) (v : value) (d : pydict) :
  NoDup (map fst d) -> NoDup (map fst (dict_set k v d)).
Proof.
  intros Hd. rewrite dict_set_keys. destruct (decide _) as [Hin|Hout]; [assumption|].
  apply NoDup_app. split; [assumption|]. split.
  - intros x Hx Hk. apply list_elem_of_singleton in Hk as ->. contradiction.
  - apply NoDup_singleton.
Qed.

Lemma set_all_prefix (ws : list (str * value)) (d : pydict) :
  map fst d `prefix_of` map fst (set_all ws d).
Proof.
  revert d. induction ws as [|[k v] ws IH]; intros d; [reflexivity|].
  change (map fst d `prefix_of` map fst (set_all ws (dict_set k v d))).
  etransitivity; [apply (dict_set_prefix k v)|apply IH].
Qed.

Lemma set_all_NoDup (ws : list (str * value)) (d : pydict) :
  NoDup (map fst d) -> NoDup (map fst (set_all ws d)).
Proof.
  revert d. induction ws as [|[k v] ws IH]; intros d Hd; [assumption|].
  change (NoDup (map fst (set_all ws (dict_set k v d)))).
  apply IH. now apply dict_set_NoDup.
Qed.

Lemma writes_within_prefix (K : list str) (d d' : pydict) :
  writes_within K d d' -> map fst d `prefix_of` map fst d'.
Proof. intros (ws & -> & _). apply set_all_prefix. Qed.

Lemma writes_within_NoDup (K : list str) (d d' : pydict) :
  writes_within K d d' -> NoDup (map fst d) -> NoDup (map fst d').
Proof. intros (ws & -> & _). apply set_all_NoDup. Qed.

Lemma formatted_suffix_last (l : list str) (k : str) :
  k ∈ map (fun k => k ++ py "_formatted") l -> last k = Some (ch "d").
Proof.
  intros Hk. apply list_elem_of_fmap in Hk as (name & -> & _).
  rewrite last_app. reflexivity.
Qed.

Section EnhancerValues.
Context {ucd : UnicodeData} {rt : Interpreter}.
Variable self : DataMapper.

Lemma enhance_in_place_run (d : pydict) :
  enhance_in_place self d
  = match genre_step self d with
    | (Ok _, d1) =>
        match author_step d1 with
        | (Ok _, d2) => for_each d2 (format_item self) d2
        | (Raise e, d2) => (Raise e, d2)
        end
    | (Raise e, d1) => (Raise e, d1)
    end.
Proof.
  unfold enhance_in_place, format_step, mbind, SE_bind, bind, d_items.
  destruct (genre_step self d) as [[[]|e] d1]; [|reflexivity].
  destruct (author_step d1) as [[[]|e] d2]; reflexivity.
Qed.

(** The formatting loop leaves alone every key that does not end in
    [d]. *)
Lemma for_each_format_get_other (l : list (str * value)) (d : pydict) (k : str) :
  last k <> Some (ch "d") ->
  dict_get k (for_each l (format_item self) d).2 = dict_get k d.
Proof.
  intros Hk. apply (writes_within_get _ _ _ _ (for_each_format_writes self l d)).
  intros Hin. now apply formatted_suffix_last in Hin.
Qed.

Lemma genre_step_value (d d1 : pydict) (g : value) :
  genre_step self d = (Ok tt, d1) ->
  dict_get (py "genre") d = Some g ->
  exists shown,
    get_genre_display_name self g = Ok shown
    /\ d1 = dict_set (py "genre_display") (VStr shown) d.
Proof.
  rewrite genre_step_run. intros Hrun Hg. rewrite Hg in Hrun.
  destruct (get_genre_display_name self g) as [shown|e]; [|discriminate].
  injection Hrun as <-. eauto.
Qed.

Lemma genre_step_keeps (d : pydict) (k : str) :
  k <> py "genre_display" -> dict_get k (genre_step self d).2 = dict_get k d.
Proof.
  intros Hk. rewrite genre_step_run.
  destruct (dict_get (py "genre") d) as [g|]; [|reflexivity].
  destruct (get_genre_display_name self g); [|reflexivity].
  simpl. now apply dict_get_set_ne.
Qed.

Lemma author_step_value (d1 d2 : pydict) (a : value) :
  author_step d1 = (Ok tt, d2) ->
  dict_get (py "Author") d1 = Some a ->
  exists name url isbn,
    extract_author_info a = Ok (name, url, isbn)
    /\ d2 = dict_set (py "author_isbn") (value_of_option isbn)
              (dict_set (py "author_url") (value_of_option url)
                 (dict_set (py "author_name") (VStr name) d1)).
Proof.
  rewrite author_step_run. intros Hrun Ha. rewrite Ha in Hrun.
  destruct (extract_author_info a) as [[[name url] isbn]|e]; [|discriminate].
  injection Hrun as <-. eauto 6.
Qed.

Lemma author_step_keeps (d : pydict) (k : str) :
  k ∉ [py "author_name"; py "author_url"; py "author_isbn"] ->
  dict_get k (author_step d).2 = dict_get k d.
Proof.
  intros Hk. rewrite author_step_run.
  destruct (dict_get (py "Author") d) as [a|]; [|reflexivity].
  destruct (extract_author_info a) as [[[name url] isbn]|e]; [|reflexivity].
  simpl. repeat rewrite not_elem_of_cons in Hk. destruct Hk as (H1 & H2 & H3 & _).
  now rewrite !dict_get_set_ne.
Qed.

(** What the statements after the copy leave under the derived keys. *)
Lemma enhance_in_place_derived (d out : pydict) :
  enhance_in_place self d = (Ok tt, out) ->
  (forall g, dict_get (py "genre") d = Some g ->
     exists shown,
       get_genre_display_name self g = Ok shown
       /\ dict_get (py "genre_display") out = Some (VStr shown))
  /\ (forall a, dict_get (py "Author") d = Some a ->
        exists name url isbn,
          extract_author_info a = Ok (name, url, isbn)
          /\ dict_get (py "author_name") out = Some (VStr name)
          /\ dict_get (py "author_url") out = Some (value_of_option url)
          /\ dict_get (py "author_isbn") out = Some (value_of_option isbn)).
Proof.
  rewrite enhance_in_place_run.
  destruct (genre_step self d) as [[[]|e] d1] eqn:Hgenre; [|discriminate].
  destruct (author_step d1) as [[[]|e] d2] eqn:Hauthor; [|discriminate].
  intros Hloop.
  assert (Hout : out = (for_each d2 (format_item self) d2).2) by now rewrite Hloop.
  split.
  - intros g Hg. destruct (genre_step_value _ _ _ Hgenre Hg) as (shown & Hshown & Hd1).
    exists shown. split; [exact Hshown|].
    rewrite Hout, for_each_format_get_other by by_evaluation.
    replace d2 with (author_step d1).2 by now rewrite Hauthor.
    rewrite author_step_keeps by by_evaluation.
    rewrite Hd1. apply dict_get_set_eq.
  - intros a Ha.
    assert (Ha1 : dict_get (py "Author") d1 = Some a).
    { replace d1 with (genre_step self d).2 by now rewrite Hgenre.
      rewrite genre_step_keeps by py_neq. exact Ha. }
    destruct (author_step_value _ _ _ Hauthor Ha1) as (name & url & isbn & Hinfo & Hd2).
    exists name, url, isbn. split; [exact Hinfo|].
    rewrite Hout, !for_each_format_get_other by by_evaluation.
    rewrite Hd2. split; [|split].
    + rewrite !dict_get_set_ne by py_neq. apply dict_get_set_eq.
    + rewrite dict_get_set_ne by py_neq. apply dict_get_set_eq.
    + apply dict_get_set_eq.
Qed.

(** In a loop over items with distinct keys that runs to its end, the
    item of a field with a rule leaves its formatted value. *)
Lemma for_each_format_value (l : list (str * value)) (d out : pydict)
    (f : str) (v : value) :
  NoDup (map fst l) ->
  for_each l (format_item self) d = (Ok tt, out) ->
  (f, v) ∈ l ->
  is_Some (field_specs self !! f) ->
  exists s,
    format_field_value self f v = Ok s
    /\ dict_get (f ++ py "_formatted") out = Some (VStr s).
Proof.
  revert d. induction l as [|[k w] l IH]; intros d Hnd Hrun Hin Hspec.
  { inversion Hin. }
  simpl in Hnd. apply NoDup_cons in Hnd as [Hk Hnd].
  change (bind (format_item self (k, w)) (fun _ => for_each l (format_item self)) d
          = (Ok tt, out)) in Hrun.
  unfold bind in Hrun.
  destruct (format_item self (k, w) d) as [[[]|e] d1] eqn:Hitem;
    cbv beta iota in Hrun; [|discriminate].
  apply elem_of_cons in Hin as [[= <- <-]|Hin]; [|now apply (IH d1)].
  unfold format_item, mbind, SE_bind, bind, lift, d_setitem in Hitem.
  rewrite bool_decide_eq_true_2 in Hitem by assumption.
  destruct (format_field_value self f v) as [s|e]; [|discriminate].
  injection Hitem as <-. exists s. split; [reflexivity|].
  replace out with (for_each l (format_item self)
                      (dict_set (f ++ py "_formatted") (VStr s) d)).2
    by now rewrite Hrun.
  rewrite (writes_within_get _ _ _ _ (for_each_format_writes self l _)).
  - apply dict_get_set_eq.
  - intros Hf. apply list_elem_of_fmap in Hf as (k' & Heq & Hk').
    apply app_inv_tail in Heq as <-.
    apply list_elem_of_filter in Hk' as [_ Hk']. contradiction.
Qed.

(** The loop runs over the items of the record that the derived
    assignments leave, which has no key twice when the input has none. *)
Lemma enhance_in_place_items (d out : pydict) :
  NoDup (map fst d) ->
  enhance_in_place self d = (Ok tt, out) ->
  exists d2,
    writes_within (derived_keys d) d d2
    /\ NoDup (map fst d2)
    /\ for_each d2 (format_item self) d2 = (Ok tt, out).
Proof.
  intros Hnd Hin. rewrite enhance_in_place_run in Hin.
  pose proof (genre_step_writes self d) as Hg.
  destruct (genre_step self d) as [[[]|e] d1]; [|discriminate]. simpl in Hg.
  assert (Hhas : dict_has (py "Author") d1 = dict_has (py "Author") d).
  { apply (writes_within_has _ _ _ _ Hg), author_is_not_derived. }
  pose proof (author_step_writes d d1 Hhas) as Ha.
  pose proof (writes_within_trans _ _ _ _ Hg Ha) as Hga.
  destruct (author_step d1) as [[[]|e] d2]; [|discriminate]. simpl in Ha, Hga.
  exists d2. split; [exact Hga|]. split; [|exact Hin].
  exact (writes_within_NoDup _ _ _ Hga Hnd).
Qed.

Lemma derived_key_last (d : pydict) (k : str) :
  k ∈ derived_keys d -> last k <> Some (ch "d").
Proof.
  unfold derived_keys. intros Hk.
  assert (Hall : k ∈ [py "genre_display"; py "author_name"; py "author_url";
                      py "author_isbn"]).
  { destruct (dict_has (py "genre") d), (dict_has (py "Author") d);
      cbn [app] in Hk; repeat (apply elem_of_cons in Hk as [->|Hk]);
      first [by_evaluation|inversion Hk]. }
  repeat (apply elem_of_cons in Hall as [->|Hall]); [py_neq..|inversion Hall].
Qed.

(** X8. In the record the enhancer returns, [genre_display] holds the
    display name of the input's [genre], and the three author keys hold
    the name, the URL and the catalog id extracted from the input's
    [Author], [None] for the ones that are missing: the formatting loop
    that follows does not touch them. *)
Theorem get_enhanced_book_data_derived_values (book_data enhanced : ref)
    (σ σ' : store) (d : pydict) :
  σ !! book_data = Some d ->
  get_enhanced_book_data self book_data σ = (Ok enhanced, σ') ->
  exists out,
    σ' !! enhanced = Some out
    /\ (forall g, dict_get (py "genre") d = Some g ->
          exists shown,
            get_genre_display_name self g = Ok shown
            /\ dict_get (py "genre_display") out = Some (VStr shown))
    /\ (forall a, dict_get (py "Author") d = Some a ->
          exists name url isbn,
            extract_author_info a = Ok (name, url, isbn)
            /\ dict_get (py "author_name") out = Some (VStr name)
            /\ dict_get (py "author_url") out = Some (value_of_option url)
            /\ dict_get (py "author_isbn") out = Some (value_of_option isbn)).
Proof.
  intros Hd Hrun. rewrite (get_enhanced_book_data_result self _ _ _ Hd) in Hrun.
  destruct (enhance_in_place self d) as [[[]|e] out] eqn:Hin; simpl in Hrun;
    [|discriminate].
  injection Hrun as <- <-. exists out.
  split; [apply lookup_insert_eq|]. now apply enhance_in_place_derived.
Qed.

(** X9. For a record with no key twice: every field of the input that
    has a rule, and is not one of the derived keys the enhancer assigns,
    gets in the returned record, under its name followed by
    [_formatted], the text the normaliser gives for its value. *)
Theorem get_enhanced_book_data_formatted_value (book_data enhanced : ref)
    (σ σ' : store) (d : pydict) (f : str) (v : value) :
  σ !! book_data = Some d ->
  NoDup (map fst d) ->
  get_enhanced_book_data self book_data σ = (Ok enhanced, σ') ->
  dict_get f d = Some v ->
  f ∉ derived_keys d ->
  is_Some (field_specs self !! f) ->
  exists out s,
    σ' !! enhanced = Some out
    /\ format_field_value self f v = Ok s
    /\ dict_get (f ++ py "_formatted") out = Some (VStr s).
Proof.
  intros Hd Hnd Hrun Hget Hf Hspec.
  rewrite (get_enhanced_book_data_result self _ _ _ Hd) in Hrun.
  destruct (enhance_in_place self d) as [[[]|e] out] eqn:Hin; simpl in Hrun;
    [|discriminate].
  injection Hrun as <- <-. exists out.
  rewrite enhance_in_place_run in Hin.
  pose proof (genre_step_writes self d) as Hg.
  destruct (genre_step self d) as [[[]|e] d1]; [|discriminate]. simpl in Hg.
  assert (Hhas : dict_has (py "Author") d1 = dict_has (py "Author") d).
  { apply (writes_within_has _ _ _ _ Hg), author_is_not_derived. }
  pose proof (author_step_writes d d1 Hhas) as Ha.
  pose proof (writes_within_trans _ _ _ _ Hg Ha) as Hga.
  destruct (author_step d1) as [[[]|e] d2]; [|discriminate]. simpl in Ha, Hga.
  assert (Hin2 : (f, v) ∈ d2).
  { apply dict_get_elem_of. now rewrite (writes_within_get _ _ _ _ Hga Hf). }
  destruct (for_each_format_value d2 d2 out f v
              (writes_within_NoDup _ _ _ Hga Hnd) Hin Hin2 Hspec) as (s & Hs & Hout).
  exists s. split; [apply lookup_insert_eq|]. split; assumption.
Qed.

(** X10. The record the enhancer returns starts with the keys of the
    input, in their order, and the keys it adds follow; when no key
    stands twice in the input, none does in the result. *)
Theorem get_enhanced_book_data_key_order (book_data enhanced : ref)
    (σ σ' : store) (d : pydict) :
  σ !! book_data = Some d ->
  get_enhanced_book_data self book_data σ = (Ok enhanced, σ') ->
  exists out,
    σ' !! enhanced = Some out
    /\ map fst d `prefix_of` map fst out
    /\ (NoDup (map fst d) -> NoDup (map fst out)).
Proof.
  intros Hd Hrun. rewrite (get_enhanced_book_data_result self _ _ _ Hd) in Hrun.
  pose proof (enhance_in_place_writes self d) as Hw.
  destruct (enhance_in_place self d) as [[[]|e] out]; simpl in *; [|discriminate].
  injection Hrun as <- <-. exists out.
  split; [apply lookup_insert_eq|]. split.
  - exact (writes_within_prefix _ _ _ Hw).
  - exact (writes_within_NoDup _ _ _ Hw).
Qed.
(** C4, amended. In the record the enhancer returns, every key of the
    input is still a key, and every key the enhancer does not assign has
    the value it had in the input. The keys it assigns hold the derived
    values, whatever the input had there: [genre_display] the display
    name when [genre] is present, the three author keys the parts of the
    author when [Author] is present, and, for a record with no key
    twice, [f_formatted] the text the normaliser gives for the value of
    [f], for every key [f] with a field rule, a key of the input or one
    of the derived keys. *)
Theorem get_enhanced_book_data_keeps_unwritten (book_data enhanced : ref)
    (σ σ' : store) (d : pydict) :
  σ !! book_data = Some d ->
  get_enhanced_book_data self book_data σ = (Ok enhanced, σ') ->
  exists out,
    σ' !! enhanced = Some out
    /\ (forall k, k ∉ written_keys self d -> dict_get k out = dict_get k d)
    /\ (forall k, is_Some (dict_get k d) -> is_Some (dict_get k out))
    /\ (forall g, dict_get (py "genre") d = Some g ->
          exists shown,
            get_genre_display_name self g = Ok shown
            /\ dict_get (py "genre_display") out = Some (VStr shown))
    /\ (forall a, dict_get (py "Author") d = Some a ->
          exists name url isbn,
            extract_author_info a = Ok (name, url, isbn)
            /\ dict_get (py "author_name") out = Some (VStr name)
            /\ dict_get (py "author_url") out = Some (value_of_option url)
            /\ dict_get (py "author_isbn") out = Some (value_of_option isbn))
    /\ (NoDup (map fst d) ->
        forall f v,
          is_Some (field_specs self !! f) ->
          ((f ∉ derived_keys d) /\ dict_get f d = Some v)
          \/ (f ∈ derived_keys d /\ dict_get f out = Some v) ->
          exists s,
            format_field_value self f v = Ok s
            /\ dict_get (f ++ py "_formatted") out = Some (VStr s)).
Proof.
  intros Hd Hrun. rewrite (get_enhanced_book_data_result self _ _ _ Hd) in Hrun.
  pose proof (enhance_in_place_writes self d) as Hw.
  destruct (enhance_in_place self d) as [[[]|e] out] eqn:Hin; simpl in Hrun, Hw;
    [|discriminate].
  injection Hrun as <- <-. exists out.
  split; [apply lookup_insert_eq|]. split; [|split; [|split; [|split]]].
  - intros k Hk. now apply (writes_within_get _ _ _ _ Hw).
  - intros k. apply (writes_within_is_Some _ _ _ _ Hw).
  - apply (enhance_in_place_derived d out Hin).
  - apply (enhance_in_place_derived d out Hin).
  - intros Hnd f v Hspec Hf.
    destruct (enhance_in_place_items d out Hnd Hin) as (d2 & Hga & Hnd2 & Hloop).
    apply (for_each_format_value d2 d2 out f v Hnd2 Hloop); [|exact Hspec].
    apply dict_get_elem_of. destruct Hf as [[Hf Hget]|[Hf Hget]].
    + now rewrite (writes_within_get _ _ _ _ Hga Hf).
    + rewrite <- Hget. replace out with (for_each d2 (format_item self) d2).2
        by now rewrite Hloop.
      symmetry. apply for_each_format_get_other. exact (derived_key_last d f Hf).
Qed.
End EnhancerValues.

(** The enhanced sample record: the display name of its genre and the
    parts of its author link, *)
Lemma get_enhanced_book_data_derived_values_example :
  exists out,
    (get_enhanced_book_data (ucd := ascii_only) (rt := default_interpreter) sample_mapper 1%positive sample_store).2
      !! 2%positive = Some out
    /\ (forall g, dict_get (py "genre") sample_record = Some g ->
          exists shown,
            get_genre_display_name (ucd := ascii_only) sample_mapper g = Ok shown
            /\ dict_get (py "genre_display") out = Some (VStr shown))
    /\ (forall a, dict_get (py "Author") sample_record = Some a ->
          exists name url isbn,
            extract_author_info a = Ok (name, url, isbn)
            /\ dict_get (py "author_name") out = Some (VStr name)
            /\ dict_get (py "author_url") out = Some (value_of_option url)
            /\ dict_get (py "author_isbn") out = Some (value_of_option isbn)).
Proof.
  apply (get_enhanced_book_data_derived_values (ucd := ascii_only) (rt := default_interpreter) sample_mapper
           1%positive 2%positive sample_store _ sample_record).
  - reflexivity.
  - assert (H1 : (get_enhanced_book_data (ucd := ascii_only) (rt := default_interpreter) sample_mapper 1%positive
                    sample_store).1 = Ok 2%positive) by (vm_compute; reflexivity).
    destruct (get_enhanced_book_data sample_mapper 1%positive sample_store) as [res σ'].
    simpl in *. now rewrite H1.
Defined.

(** its formatted price, *)
Lemma get_enhanced_book_data_formatted_value_example :
  exists out s,
    (get_enhanced_book_data (ucd := ascii_only) (rt := default_interpreter) sample_mapper 1%positive sample_store).2
      !! 2%positive = Some out
    /\ format_field_value (ucd := ascii_only) (rt := default_interpreter) sample_mapper (py "price")
         (VFloat float_12_3) = Ok s
    /\ dict_get (py "price" ++ py "_formatted") out = Some (VStr s).
Proof.
  apply (get_enhanced_book_data_formatted_value (ucd := ascii_only) (rt := default_interpreter) sample_mapper
           1%positive 2%positive sample_store _ sample_record).
  - reflexivity.
  - by_evaluation.
  - assert (H1 : (get_enhanced_book_data (ucd := ascii_only) (rt := default_interpreter) sample_mapper 1%positive
                    sample_store).1 = Ok 2%positive) by (vm_compute; reflexivity).
    destruct (get_enhanced_book_data sample_mapper 1%positive sample_store) as [res σ'].
    simpl in *. now rewrite H1.
  - reflexivity.
  - by_evaluation.
  - vm_compute. eauto.
Defined.

(** and the order of its keys. *)
Lemma get_enhanced_book_data_key_order_example :
  exists out,
    (get_enhanced_book_data (ucd := ascii_only) (rt := default_interpreter) sample_mapper 1%positive sample_store).2
      !! 2%positive = Some out
    /\ map fst sample_record `prefix_of` map fst out
    /\ (NoDup (map fst sample_record) -> NoDup (map fst out)).
Proof.
  apply (get_enhanced_book_data_key_order (ucd := ascii_only) (rt := default_interpreter) sample_mapper
           1%positive 2%positive sample_store _ sample_record).
  - reflexivity.
  - assert (H1 : (get_enhanced_book_data (ucd := ascii_only) (rt := default_interpreter) sample_mapper 1%positive
                    sample_store).1 = Ok 2%positive) by (vm_compute; reflexivity).
    destruct (get_enhanced_book_data sample_mapper 1%positive sample_store) as [res σ'].
    simpl in *. now rewrite H1.
Defined.

(** The enhanced sample record is the object [2]: it keeps the pairs of
    the sample record under the keys that are not assigned, and holds
    the derived values under the others. *)
Lemma get_enhanced_book_data_keeps_unwritten_example :
  exists out,
    (get_enhanced_book_data (ucd := ascii_only) (rt := default_interpreter) sample_mapper 1%positive sample_store).2
      !! 2%positive = Some out
    /\ (forall k, k ∉ written_keys sample_mapper sample_record ->
                  dict_get k out = dict_get k sample_record)
    /\ (forall k, is_Some (dict_get k sample_record) -> is_Some (dict_get k out))
    /\ (forall g, dict_get (py "genre") sample_record = Some g ->
          exists shown,
            get_genre_display_name (ucd := ascii_only) sample_mapper g = Ok shown
            /\ dict_get (py "genre_display") out = Some (VStr shown))
    /\ (forall a, dict_get (py "Author") sample_record = Some a ->
          exists name url isbn,
            extract_author_info a = Ok (name, url, isbn)
            /\ dict_get (py "author_name") out = Some (VStr name)
            /\ dict_get (py "author_url") out = Some (value_of_option url)
            /\ dict_get (py "author_isbn") out = Some (value_of_option isbn))
    /\ (NoDup (map fst sample_record) ->
        forall f v,
          is_Some (field_specs sample_mapper !! f) ->
          ((f ∉ derived_keys sample_record) /\ dict_get f sample_record = Some v)
          \/ (f ∈ derived_keys sample_record /\ dict_get f out = Some v) ->
          exists s,
            format_field_value (ucd := ascii_only) (rt := default_interpreter) sample_mapper f v = Ok s
            /\ dict_get (f ++ py "_formatted") out = Some (VStr s)).
Proof.
  apply (get_enhanced_book_data_keeps_unwritten (ucd := ascii_only) (rt := default_interpreter) sample_mapper
           1%positive 2%positive sample_store _ sample_record).
  - reflexivity.
  - assert (H1 : (get_enhanced_book_data (ucd := ascii_only) (rt := default_interpreter) sample_mapper 1%positive
                    sample_store).1 = Ok 2%positive) by (vm_compute; reflexivity).
    destruct (get_enhanced_book_data sample_mapper 1%positive sample_store) as [res σ'].
    simpl in *. now rewrite H1.
Defined.

(* ================================================================== *)
(** * [calculate_market_metrics]: the exception, and the frame it leaves *)
(* ================================================================== *)

Section MetricsFrame.
Context {num : Type} `{Numeric num}.

Lemma base_column_cases (P : str -> Prop) :
  (forall name, name ∈ base_columns -> P name)
  <-> P (py "book_count") /\ P (py "avg_price") /\ P (py "avg_rating")
      /\ P (py "avg_reviews").
Proof.
  unfold base_columns. split.
  - intros Hall. repeat split; apply Hall;
      repeat first [apply list_elem_of_here | apply list_elem_of_further].
  - intros (H1 & H2 & H3 & H4) name Hin.
    repeat rewrite elem_of_cons in Hin. rewrite elem_of_nil in Hin.
    destruct Hin as [->|[->|[->|[->|[]]]]]; assumption.
Qed.

(** A frame lacks one of the four columns, or has them all. *)
Lemma base_columns_cases (df : DataFrame num) :
  (exists name, name ∈ base_columns /\ df !! name = None)
  \/ (exists bc ap ar rv,
        df !! py "book_count" = Some bc /\ df !! py "avg_price" = Some ap
        /\ df !! py "avg_rating" = Some ar /\ df !! py "avg_reviews" = Some rv).
Proof.
  destruct (df !! py "book_count") as [bc|] eqn:Hbc;
    [|left; exists (py "book_count"); split; [by_evaluation|assumption]].
  destruct (df !! py "avg_price") as [ap|] eqn:Hap;
    [|left; exists (py "avg_price"); split; [by_evaluation|assumption]].
  destruct (df !! py "avg_rating") as [ar|] eqn:Har;
    [|left; exists (py "avg_rating"); split; [by_evaluation|assumption]].
  destruct (df !! py "avg_reviews") as [rv|] eqn:Hrv;
    [|left; exists (py "avg_reviews"); split; [by_evaluation|assumption]].
  right. eauto 10.
Qed.

(** A calculation that returns has read its four columns. *)
Lemma calculate_market_metrics_Ok (df out : DataFrame num) :
  calculate_market_metrics df = Ok out ->
  exists bc ap ar rv,
    df !! py "book_count" = Some bc /\ df !! py "avg_price" = Some ap
    /\ df !! py "avg_rating" = Some ar /\ df !! py "avg_reviews" = Some rv
    /\ out = with_metrics bc ap ar rv df.
Proof.
  intros Hrun.
  destruct (df !! py "book_count") as [bc|] eqn:Hbc;
    [|rewrite calculate_market_metrics_missing in Hrun by auto; discriminate].
  destruct (df !! py "avg_price") as [ap|] eqn:Hap;
    [|rewrite calculate_market_metrics_missing in Hrun by auto; discriminate].
  destruct (df !! py "avg_rating") as [ar|] eqn:Har;
    [|rewrite calculate_market_metrics_missing in Hrun by auto; discriminate].
  destruct (df !! py "avg_reviews") as [rv|] eqn:Hrv;
    [|rewrite calculate_market_metrics_missing in Hrun by auto 6; discriminate].
  rewrite (calculate_market_metrics_unfold df bc ap ar rv Hbc Hap Har Hrv) in Hrun.
  injection Hrun as <-. eauto 10.
Qed.

(** X11. The calculation raises nothing but [KeyError], and raises it
    exactly when one of the four columns it reads is missing from the
    frame; on a frame that has them it returns, whatever the cells hold,
    a zero count included. *)
Theorem calculate_market_metrics_key_error (df : DataFrame num) :
  (forall e, calculate_market_metrics df = Raise e -> e = KeyError)
  /\ (calculate_market_metrics df = Raise KeyError
      <-> exists name, name ∈ base_columns /\ df !! name = None).
Proof.
  destruct (base_columns_cases df) as [Hmiss|(bc & ap & ar & rv & Hbc & Hap & Har & Hrv)].
  - assert (Hrun : calculate_market_metrics df = Raise KeyError).
    { apply calculate_market_metrics_missing.
      destruct Hmiss as (name & Hin & Hnone). unfold base_columns in Hin.
      repeat rewrite elem_of_cons in Hin. rewrite elem_of_nil in Hin.
      destruct Hin as [->|[->|[->|[->|[]]]]]; auto. }
    rewrite Hrun. split; [now intros e [= <-]|]. split; auto.
  - rewrite (calculate_market_metrics_unfold df bc ap ar rv Hbc Hap Har Hrv).
    split; [discriminate|]. split; [discriminate|].
    intros (name & Hin & Hnone). unfold base_columns in Hin.
    repeat rewrite elem_of_cons in Hin. rewrite elem_of_nil in Hin.
    destruct Hin as [->|[->|[->|[->|[]]]]]; congruence.
Qed.

(** X12. The frame the calculation returns has every other column as it
    was, the five metric columns besides, and, when the four columns read
    have [n] rows each, [n] rows in each metric column. *)
Theorem calculate_market_metrics_frame (df out : DataFrame num) :
  calculate_market_metrics df = Ok out ->
  (forall name, name ∉ metric_columns -> out !! name = df !! name)
  /\ (forall name, name ∈ metric_columns -> is_Some (out !! name))
  /\ (forall n,
        (forall name col, name ∈ base_columns -> df !! name = Some col -> length col = n) ->
        forall name col, name ∈ metric_columns -> out !! name = Some col -> length col = n).
Proof.
  intros Hrun.
  apply calculate_market_metrics_Ok in Hrun
    as (bc & ap & ar & rv & Hbc & Hap & Har & Hrv & ->).
  unfold with_metrics, metric_columns. cbv zeta. split; [|split].
  - intros name Hname. repeat rewrite not_elem_of_cons in Hname.
    destruct Hname as (H1 & H2 & H3 & H4 & H5 & _).
    now rewrite !lookup_insert_ne by congruence.
  - intros name Hin. repeat rewrite elem_of_cons in Hin. rewrite elem_of_nil in Hin.
    destruct Hin as [->|[->|[->|[->|[->|[]]]]]]; frame_lookup; eauto.
  - intros n Hlen.
    assert (Hb : forall name, name ∈ base_columns ->
                   forall col, df !! name = Some col -> length col = n)
      by (intros; eauto).
    apply (base_column_cases
             (fun name => forall col, df !! name = Some col -> length col = n)) in Hb
      as (Lbc & Lap & Lar & Lrv).
    specialize (Lbc _ Hbc). specialize (Lap _ Hap).
    specialize (Lar _ Har). specialize (Lrv _ Hrv).
    intros name col Hin. repeat rewrite elem_of_cons in Hin. rewrite elem_of_nil in Hin.
    destruct Hin as [->|[->|[->|[->|[->|[]]]]]]; frame_lookup; intros [= <-];
      unfold series_div, series_mul, series_add, series_mul_scalar, series_div_scalar;
      repeat first [rewrite length_zip_with | rewrite length_map]; lia.
Qed.
End MetricsFrame.

(** The statistics of two genres: every metric column has two rows. *)
Lemma calculate_market_metrics_frame_example :
  exists out : DataFrame float,
    calculate_market_metrics (frame_of_rows sample_rows) = Ok out
    /\ (forall name, name ∉ metric_columns -> out !! name = frame_of_rows sample_rows !! name)
    /\ (forall name, name ∈ metric_columns -> is_Some (out !! name))
    /\ (forall n,
          (forall name col, name ∈ base_columns ->
             frame_of_rows sample_rows !! name = Some col -> length col = n) ->
          forall name col, name ∈ metric_columns -> out !! name = Some col -> length col = n).
Proof.
  eexists. split.
  - apply calculate_market_metrics_unfold; reflexivity.
  - apply (calculate_market_metrics_frame (frame_of_rows sample_rows)).
    apply calculate_market_metrics_unfold; reflexivity.
Defined.

(* ================================================================== *)
(** * Trimming and splitting *)
(* ================================================================== *)

Lemma lstrip_by_decompose (p : char -> bool) (s : str) :
  exists a, s = a ++ lstrip_by p s /\ Forall (fun c => p c = true) a.
Proof.
  exists (span p s).1. split; [symmetry; apply span_app | apply span_prefix].
Qed.

Lemma lstrip_by_head (p : char -> bool) (s : str) (c : char) (r : str) :
  lstrip_by p s = c :: r -> p c = false.
Proof. apply span_rest. Qed.

Lemma lstrip_by_id (p : char -> bool) (s : str) :
  (forall c r, s = c :: r -> p c = false) -> lstrip_by p s = s.
Proof.
  destruct s as [|c r]; [reflexivity|]. intros Hhead.
  unfold lstrip_by. simpl. now rewrite (Hhead c r eq_refl).
Qed.

Lemma lstrip_by_all (p : char -> bool) (s : str) :
  Forall (fun c => p c = true) s -> lstrip_by p s = [].
Proof. intros Hs. unfold lstrip_by. now rewrite span_all. Qed.

Lemma lstrip_by_nil (p : char -> bool) (s : str) :
  lstrip_by p s = [] -> Forall (fun c => p c = true) s.
Proof.
  intros Hnil. destruct (lstrip_by_decompose p s) as (a & Heq & Ha).
  rewrite Hnil, app_nil_r in Heq. now subst.
Qed.

Lemma lstrip_by_elem (p : char -> bool) (s : str) (c : char) :
  c ∈ lstrip_by p s -> c ∈ s.
Proof.
  intros Hc. destruct (lstrip_by_decompose p s) as (a & Heq & _).
  rewrite Heq. apply elem_of_app. now right.
Qed.

Lemma elem_of_rev_list (s : str) (c : char) : c ∈ rev s <-> c ∈ s.
Proof. rewrite !list_elem_of_In. symmetry. apply in_rev. Qed.

Lemma rstrip_by_elem (p : char -> bool) (s : str) (c : char) :
  c ∈ rstrip_by p s -> c ∈ s.
Proof.
  unfold rstrip_by. rewrite elem_of_rev_list. intros Hc.
  apply lstrip_by_elem in Hc. now apply elem_of_rev_list.
Qed.

(** What trimming leaves is made of characters of the text. *)
Lemma strip_elem (s : str) (c : char) : c ∈ strip s -> c ∈ s.
Proof. unfold strip. intros Hc. now apply rstrip_by_elem, lstrip_by_elem in Hc. Qed.

Lemma Forall_rev_inv (P : char -> Prop) (s : str) : Forall P (rev s) -> Forall P s.
Proof. intros Hs. rewrite <- (rev_involutive s). now apply Forall_rev. Qed.

(** Trimming leaves nothing exactly of a text of whitespace. *)
Lemma strip_nil (s : str) :
  strip s = [] <-> Forall (fun c => py_isspace c = true) s.
Proof.
  unfold strip, rstrip_by. split.
  - intros Hnil.
    assert (Hl : lstrip_by py_isspace (rev (lstrip_by py_isspace s)) = []).
    { rewrite <- (rev_involutive (lstrip_by _ (rev _))), Hnil. reflexivity. }
    apply lstrip_by_nil, Forall_rev_inv in Hl.
    destruct (lstrip_by py_isspace s) as [|c r] eqn:Hs.
    + now apply lstrip_by_nil.
    + apply lstrip_by_head in Hs. inversion Hl; congruence.
  - intros Hs. now rewrite (lstrip_by_all _ _ Hs).
Qed.

(** Trimming a trimmed text changes nothing. *)
Lemma strip_strip (s : str) : strip (strip s) = strip s.
Proof.
  unfold strip, rstrip_by.
  set (L := lstrip_by py_isspace s).
  assert (HL : forall c r, L = c :: r -> py_isspace c = false)
    by (intros c r; apply lstrip_by_head).
  set (X := lstrip_by py_isspace (rev L)).
  assert (HX : forall c r, X = c :: r -> py_isspace c = false)
    by (intros c r; apply lstrip_by_head).
  destruct (lstrip_by_decompose py_isspace (rev L)) as (a & Heq & _).
  fold X in Heq.
  assert (HLX : L = rev X ++ rev a).
  { rewrite <- (rev_involutive L), Heq, rev_app_distr. reflexivity. }
  rewrite (lstrip_by_id py_isspace (rev X)).
  - rewrite rev_involutive. now rewrite (lstrip_by_id py_isspace X).
  - intros c r Hr. rewrite Hr in HLX. exact (HL c (r ++ rev a) HLX).
Qed.

(** No piece of a split holds the separator, and every piece is made of
    characters of the text. *)
Lemma split_no_sep (sep : char) (s : str) :
  Forall (fun piece => sep ∉ piece) (split sep s).
Proof.
  induction s as [|c s IH]; cbn [split].
  - repeat constructor. apply not_elem_of_nil.
  - destruct (c =? sep)%N eqn:Hc.
    + constructor; [apply not_elem_of_nil|exact IH].
    + apply N.eqb_neq in Hc.
      destruct (split sep s) as [|piece pieces].
      * repeat constructor. rewrite list_elem_of_singleton. congruence.
      * inversion IH as [|? ? Hpiece Hpieces]; subst. constructor; [|assumption].
        rewrite elem_of_cons. intros [->|Hin]; [congruence|contradiction].
Qed.

Lemma split_elem (sep : char) (s piece : str) (c : char) :
  piece ∈ split sep s -> c ∈ piece -> c ∈ s.
Proof.
  revert piece. induction s as [|x s IH]; intros piece; cbn [split].
  - rewrite list_elem_of_singleton. intros -> Hc. inversion Hc.
  - destruct (x =? sep)%N.
    + rewrite elem_of_cons. intros [->|Hin] Hc; [inversion Hc|].
      apply list_elem_of_further. eauto.
    + destruct (split sep s) as [|piece0 pieces].
      * rewrite list_elem_of_singleton. intros -> Hc.
        apply list_elem_of_singleton in Hc as ->. apply list_elem_of_here.
      * rewrite elem_of_cons. intros [->|Hin] Hc.
        -- apply elem_of_cons in Hc as [->|Hc]; [apply list_elem_of_here|].
           apply list_elem_of_further. apply (IH piece0); [apply list_elem_of_here|exact Hc].
        -- apply list_elem_of_further. apply (IH piece); [|exact Hc].
           now apply list_elem_of_further.
Qed.

(** Every item of the trimmed, non-empty pieces of a text is not empty,
    is trimmed and is free of the separator. *)
Lemma stripped_items_items (sep : char) (s : str) :
  Forall (fun item => item <> [] /\ strip item = item /\ sep ∉ item)
    (stripped_items sep s).
Proof.
  unfold stripped_items. apply Forall_forall. intros item Hin.
  apply list_elem_of_fmap in Hin as (piece & -> & Hin).
  apply list_elem_of_filter in Hin as [Hkeep Hin].
  split; [|split].
  - intros Hnil. rewrite Hnil in Hkeep. exact Hkeep.
  - apply strip_strip.
  - intros Hsep. apply strip_elem in Hsep.
    pose proof (split_no_sep sep s) as Hno. rewrite Forall_forall in Hno.
    exact (Hno piece Hin Hsep).
Qed.

(** A text of whitespace and separators has no item. *)
Lemma stripped_items_blank (sep : char) (s : str) :
  strip s = [] -> stripped_items sep s = [].
Proof.
  intros Hs. apply strip_nil in Hs. rewrite Forall_forall in Hs.
  unfold stripped_items.
  assert (Hall : Forall (fun piece => strip piece = []) (split sep s)).
  { apply Forall_forall. intros piece Hin. apply strip_nil, Forall_forall.
    intros c Hc. apply Hs. exact (split_elem sep s piece c Hin Hc). }
  induction Hall as [|piece pieces Hpiece Hall IH]; [reflexivity|].
  rewrite filter_cons_False; [exact IH|].
  rewrite Hpiece. intros [].
Qed.

(* ================================================================== *)
(** * [format_topics] *)
(* ================================================================== *)

Section TopicsAndTags.
Context {ucd : UnicodeData} {rt : Interpreter}.
Variable self : DataMapper.

(** X13. Every topic of the list [format_topics] returns is not empty,
    has no whitespace at either end and holds no [|]. *)
Theorem format_topics_items (v : value) (topics : list str) :
  format_topics v = Ok topics ->
  Forall (fun topic => topic <> [] /\ strip topic = topic /\ ch "|" ∉ topic) topics.
Proof.
  unfold format_topics.
  destruct (py_not v); [intros [= <-]; constructor|].
  destruct v as [| | | |s]; try discriminate.
  destruct (_ || _); intros [= <-]; [constructor|].
  apply (stripped_items_items (ch "|") s).
Qed.

(** X14. For a text that holds a [|], the topics of the dashboard joined
    with a comma and a blank are the text the normaliser gives for the
    [topicTags] field, when that field has a rule. *)
Theorem format_topics_joined (s : str) :
  is_Some (field_specs self !! py "topicTags") ->
  contains (ch "|") s = true ->
  exists topics,
    format_topics (VStr s) = Ok topics
    /\ format_field_value self (py "topicTags") (VStr s) = Ok (join (py ", ") topics).
Proof.
  intros [spec Hspec] Hbar.
  exists (stripped_items (ch "|") s). split.
  - unfold format_topics. destruct s as [|c s]; [discriminate|].
    cbn [py_not length Nat.eqb py_str].
    rewrite bool_decide_eq_false_2
      by (intros Heq; rewrite Heq in Hbar; vm_compute in Hbar; discriminate).
    rewrite orb_false_r.
    destruct (length (strip (c :: s)) =? 0)%nat eqn:Hlen; [|reflexivity].
    apply Nat.eqb_eq, nil_length_inv in Hlen.
    now rewrite (stripped_items_blank _ _ Hlen).
  - unfold format_field_value, get_field_spec. rewrite Hspec.
    destruct s as [|c s]; [discriminate|]. cbn [is_none_or_empty].
    repeat (rewrite bool_decide_eq_false_2 by py_neq).
    rewrite bool_decide_eq_true_2 by reflexivity. cbn [orb].
    now rewrite Hbar.
Qed.
End TopicsAndTags.

(** Three topics with blanks around them, and an empty one. *)
Lemma format_topics_items_example :
  Forall (fun topic => topic <> [] /\ strip topic = topic /\ ch "|" ∉ topic)
    [py "cozy"; py "small town"; py "cats"].
Proof.
  apply (format_topics_items (rt := default_interpreter)
           (VStr (py "cozy | small town||cats "))).
  vm_compute. reflexivity.
Defined.

Lemma format_topics_joined_example :
  exists topics,
    format_topics (rt := default_interpreter) (VStr (py "cozy | small town||cats ")) = Ok topics
    /\ format_field_value (ucd := ascii_only) (rt := default_interpreter) sample_mapper (py "topicTags")
         (VStr (py "cozy | small town||cats "))
       = Ok (join (py ", ") topics).
Proof.
  apply (format_topics_joined (ucd := ascii_only) (rt := default_interpreter) sample_mapper).
  - vm_compute. eauto.
  - reflexivity.
Defined.

(* ================================================================== *)
(** * The file names: report date and genre *)
(* ================================================================== *)

Lemma ascii_digit_is_ascii (c : char) : is_ascii_digit c = true -> is_ascii c = true.
Proof.
  unfold is_ascii_digit, is_ascii, in_range. intros Hc.
  apply andb_true_iff in Hc as [_ Hc]. apply N.leb_le in Hc. apply N.ltb_lt. lia.
Qed.

(** The two-digit and four-digit fields of a date, by enumeration. *)
Lemma pad_digits_2 (m : N) :
  (1 <= m < 100)%N ->
  length (pad_digits 2 m) = 2%nat
  /\ forallb is_ascii_digit (pad_digits 2 m) = true
  /\ lstrip_by (N.eqb (ch "0")) (pad_digits 2 m) = digits_of_N m.
Proof.
  intros Hm.
  set (check := fun m : N =>
         (length (pad_digits 2 m) =? 2)%nat
         && forallb is_ascii_digit (pad_digits 2 m)
         && bool_decide (lstrip_by (N.eqb (ch "0")) (pad_digits 2 m) = digits_of_N m)).
  assert (Hall : forallb check (map N.of_nat (seq 1 99)) = true)
    by (vm_compute; reflexivity).
  rewrite forallb_forall in Hall. specialize (Hall m).
  assert (Hin : In m (map N.of_nat (seq 1 99))).
  { apply in_map_iff. exists (N.to_nat m). split; [lia|]. apply in_seq. lia. }
  apply Hall in Hin. unfold check in Hin.
  apply andb_true_iff in Hin as [Hin H3]. apply andb_true_iff in Hin as [H1 H2].
  apply Nat.eqb_eq in H1. apply bool_decide_eq_true in H3. auto.
Qed.

Lemma pad_digits_4 (y : N) :
  (y < 10000)%N ->
  length (pad_digits 4 y) = 4%nat
  /\ forallb is_ascii_digit (pad_digits 4 y) = true
  /\ last_chars 2 (pad_digits 4 y) = pad_digits 2 (y mod 100).
Proof.
  intros Hy.
  set (check := fun y : N =>
         (length (pad_digits 4 y) =? 4)%nat
         && forallb is_ascii_digit (pad_digits 4 y)
         && bool_decide (last_chars 2 (pad_digits 4 y) = pad_digits 2 (y mod 100))).
  assert (Hall : forallb check (map N.of_nat (seq 0 (100 * 100))) = true)
    by (vm_compute; reflexivity).
  rewrite forallb_forall in Hall. specialize (Hall y).
  assert (Hin : In y (map N.of_nat (seq 0 (100 * 100)))).
  { apply in_map_iff. exists (N.to_nat y). split; [lia|]. apply in_seq. lia. }
  apply Hall in Hin. unfold check in Hin.
  apply andb_true_iff in Hin as [Hin H3]. apply andb_true_iff in Hin as [H1 H2].
  apply Nat.eqb_eq in H1. apply bool_decide_eq_true in H3. auto.
Qed.

Section FileNameFacts.
Context {ucd : UnicodeData} {rt : Interpreter}.

Lemma ascii_digit_is_decimal (c : char) : is_ascii_digit c = true -> is_decimal c = true.
Proof. intros Hc. unfold is_decimal. now rewrite (ascii_digit_is_ascii c Hc). Qed.

Lemma search_digits8_unfold (s : str) :
  search_digits8 s
  = match match_digits8_here s with
    | Some g => Some g
    | None => match s with
              | [] => None
              | _ :: s' => search_digits8 s'
              end
    end.
Proof. destruct s; reflexivity. Qed.

Lemma search_genre_file_unfold (s : str) :
  search_genre_file s
  = match match_genre_file_here s with
    | Some g => Some g
    | None => match s with
              | [] => None
              | _ :: s' => search_genre_file s'
              end
    end.
Proof. destruct s; reflexivity. Qed.

(** Eight digits do not start at a character that is no digit. *)
Lemma match_digits8_here_no_digit (c : char) (s : str) :
  is_decimal c = false -> match_digits8_here (c :: s) = None.
Proof.
  intros Hc. unfold match_digits8_here. cbn [take forallb]. rewrite Hc.
  cbn [andb]. now rewrite andb_false_r.
Qed.

Lemma match_digits8_here_digits (w rest : str) :
  length w = 8%nat -> forallb is_ascii_digit w = true ->
  match_digits8_here (w ++ rest) = Some w.
Proof.
  intros Hlen Hw. unfold match_digits8_here. cbv zeta.
  rewrite take_app_length' by (symmetry; exact Hlen).
  rewrite Hlen. cbn [Nat.eqb andb].
  replace (forallb is_decimal w) with true; [reflexivity|].
  symmetry. apply forallb_forall. intros c Hc.
  rewrite forallb_forall in Hw. apply ascii_digit_is_decimal. now apply Hw.
Qed.

Lemma search_digits8_skip (pre s : str) :
  Forall (fun c => is_decimal c = false) pre ->
  search_digits8 (pre ++ s) = search_digits8 s.
Proof.
  induction 1 as [|c pre Hc Hpre IH]; [reflexivity|].
  rewrite <- app_comm_cons, search_digits8_unfold.
  now rewrite (match_digits8_here_no_digit c _ Hc).
Qed.



(** Where the file-name pattern matches, eight digits do. *)
Lemma match_genre_file_here_digits (s g : str) :
  match_genre_file_here s = Some g -> is_Some (match_digits8_here s).
Proof.
  unfold match_genre_file_here.
  destruct (match_digits8_here s); [eauto|discriminate].
Qed.

Lemma search_genre_file_digits (s g : str) :
  search_genre_file s = Some g -> is_Some (search_digits8 s).
Proof.
  induction s as [|c s IH]; rewrite search_genre_file_unfold, search_digits8_unfold.
  - destruct (match_genre_file_here []) eqn:Hm; [|discriminate].
    apply match_genre_file_here_digits in Hm as [w ->]. eauto.
  - destruct (match_genre_file_here (c :: s)) eqn:Hm.
    + apply match_genre_file_here_digits in Hm as [w ->]. eauto.
    + intros Hs. destruct (match_digits8_here (c :: s)); [eauto|]. exact (IH Hs).
Qed.

(** X15. A name that holds, after a part with no digit, the date of year
    [y], month [m] and day [d] written as eight digits gives the report
    date [m/d/yy]: month and day without their leading zero, the year by
    its last two digits. *)
Theorem extract_report_date_of_date (pre rest : str) (y m d : N) :
  Forall (fun c => is_decimal c = false) pre ->
  (y < 10000)%N -> (1 <= m < 100)%N -> (1 <= d < 100)%N ->
  extract_report_date
    (VStr (pre ++ pad_digits 4 y ++ pad_digits 2 m ++ pad_digits 2 d ++ rest))
  = Ok (Some (digits_of_N m ++ py "/" ++ digits_of_N d ++ py "/"
              ++ pad_digits 2 (y mod 100))).
Proof.
  intros Hpre Hy Hm Hd.
  destruct (pad_digits_4 y Hy) as (Ly & Dy & <-).
  destruct (pad_digits_2 m Hm) as (Lm & Dm & <-).
  destruct (pad_digits_2 d Hd) as (Ld & Dd & <-).
  set (Y := pad_digits 4 y) in *. set (M := pad_digits 2 m) in *.
  set (D := pad_digits 2 d) in *. clearbody Y M D.
  destruct Y as [|y1 [|y2 [|y3 [|y4 [|]]]]]; try discriminate Ly.
  destruct M as [|m1 [|m2 [|]]]; try discriminate Lm.
  destruct D as [|d1 [|d2 [|]]]; try discriminate Ld.
  unfold extract_report_date.
  replace (py_not _) with false by (destruct pre; reflexivity).
  unfold mbind, result_bind. cbn [py_str rbind].
  change (pre ++ [y1; y2; y3; y4] ++ [m1; m2] ++ [d1; d2] ++ rest)
    with (pre ++ [y1; y2; y3; y4; m1; m2; d1; d2] ++ rest).
  rewrite (search_digits8_skip _ _ Hpre), search_digits8_unfold.
  rewrite match_digits8_here_digits; [reflexivity|reflexivity|].
  cbn [forallb] in *.
  repeat match goal with H : _ && _ = true |- _ => apply andb_true_iff in H as [? ?] end.
  repeat match goal with H : is_ascii_digit _ = true |- _ => rewrite H; clear H end.
  reflexivity.
Qed.





(** X17. A name in which the genre is found is a name in which the report
    date is found: the file-name pattern starts with the eight digits of
    the date. *)
Theorem extract_genre_from_filename_has_date (source_file : value) :
  (exists genre, extract_genre_from_filename source_file = Ok (Some genre)) ->
  exists date, extract_report_date source_file = Ok (Some date).
Proof.
  unfold extract_genre_from_filename, extract_report_date.
  destruct (py_not source_file); [intros [g Hg]; discriminate|].
  unfold mbind, result_bind.
  destruct (py_str source_file) as [text|e]; [|intros [g Hg]; discriminate].
  cbn [rbind].
  destruct (search_genre_file text) as [g|] eqn:Hs;
    [|intros [g Hg]; discriminate].
  intros _. apply search_genre_file_digits in Hs as [w ->]. eauto.
Qed.
End FileNameFacts.

(** The file of the cozy mysteries of 11 August 2025. *)
Lemma extract_report_date_of_date_example :
  extract_report_date (ucd := ascii_only) (rt := default_interpreter)
    (VStr (py "data/raw/" ++ pad_digits 4 2025 ++ pad_digits 2 8 ++ pad_digits 2 11
           ++ py "_cozy_mystery_raw_data.xlsx"))
  = Ok (Some (digits_of_N 8 ++ py "/" ++ digits_of_N 11 ++ py "/"
              ++ pad_digits 2 (2025 mod 100))).
Proof.
  apply (extract_report_date_of_date (ucd := ascii_only) (rt := default_interpreter) (py "data/raw/")
           (py "_cozy_mystery_raw_data.xlsx") 2025 8 11).
  - by_evaluation.
  - reflexivity.
  - split; [discriminate|reflexivity].
  - split; [discriminate|reflexivity].
Defined.


Lemma extract_genre_from_filename_has_date_example :
  exists date,
    extract_report_date (ucd := ascii_only) (rt := default_interpreter)
      (VStr (py "20250811_cozy_mystery_raw_data.xlsx")) = Ok (Some date).
Proof.
  apply (extract_genre_from_filename_has_date (ucd := ascii_only) (rt := default_interpreter)).
  vm_compute. eauto.
Defined.

(* ================================================================== *)
(** * [get_enhanced_book_data]: the exceptions *)
(* ================================================================== *)

Section EnhancerRaises.
Context {ucd : UnicodeData} {rt : Interpreter}.
Variable self : DataMapper.





End EnhancerRaises.


(* ================================================================== *)
(** * [format_subcategories] *)
(* ================================================================== *)

(** A trimmed text neither starts nor ends with whitespace. *)
Lemma strip_ends (s : str) :
  (forall c r, strip s = c :: r -> py_isspace c = false)
  /\ (forall c r, rev (strip s) = c :: r -> py_isspace c = false).
Proof.
  unfold strip, rstrip_by.
  set (L := lstrip_by py_isspace s).
  assert (HL : forall c r, L = c :: r -> py_isspace c = false)
    by (intros c r; apply lstrip_by_head).
  destruct (lstrip_by_decompose py_isspace (rev L)) as (a & Heq & _).
  split.
  - intros c r Hr.
    assert (HLX : L = rev (lstrip_by py_isspace (rev L)) ++ rev a).
    { rewrite <- (rev_involutive L) at 1. rewrite Heq at 1. now rewrite rev_app_distr. }
    rewrite Hr in HLX. exact (HL c (r ++ rev a) HLX).
  - intros c r. rewrite rev_involutive. apply lstrip_by_head.
Qed.

(** A text that starts and ends with no whitespace is its own trimming. *)
Lemma strip_id (s : str) :
  (forall c r, s = c :: r -> py_isspace c = false) ->
  (forall c r, rev s = c :: r -> py_isspace c = false) ->
  strip s = s.
Proof.
  intros Hhead Hlast. unfold strip, rstrip_by.
  rewrite (lstrip_by_id _ s Hhead), (lstrip_by_id _ (rev s) Hlast).
  apply rev_involutive.
Qed.

(** The links [re.findall] returns are links. *)
Lemma findall_links_from_links (s : str) (skip : nat) :
  Forall (fun link => link.1 <> [] /\ (ch "]" ∉ link.1)
                      /\ link.2 <> [] /\ (ch ")" ∉ link.2))
    (findall_links_from skip s).
Proof.
  revert skip. induction s as [|c s IH]; intros skip; [constructor|].
  cbn [findall_links_from]. destruct skip as [|k]; [|apply IH].
  destruct (match_link_here (c :: s)) as [[name url]|] eqn:Hm; [|apply IH].
  constructor; [|apply IH].
  apply match_link_here_Some in Hm as (post & _ & Hrest). exact Hrest.
Qed.

(** Nothing is found in what is left of a match. *)
Lemma findall_links_from_skip (s : str) (skip : nat) :
  (length s <= skip)%nat -> findall_links_from skip s = [].
Proof.
  revert skip. induction s as [|c s IH]; intros skip Hlen; [reflexivity|].
  simpl in Hlen. destruct skip as [|k]; [lia|].
  cbn [findall_links_from]. apply IH. lia.
Qed.

Lemma category_after_Some (k : nat) (s cat : str) :
  category_after k s = Some cat -> cat <> [] /\ 10%N ∉ cat.
Proof.
  induction k as [|k IH]; [discriminate|]. cbn [category_after].
  pose proof (span_prefix (fun c => negb (c =? 10)%N) (drop (S k) s)) as Hall.
  destruct (span (fun c => negb (c =? 10)%N) (drop (S k) s)).1 as [|x cat'] eqn:Hspan;
    [exact IH|].
  intros [= <-]. split; [discriminate|].
  now apply not_char_forall.
Qed.

Section SubcategoryFacts.
Context {ucd : UnicodeData} {rt : Interpreter}.

Lemma match_rank_Some (t digits cat : str) :
  match_rank t = Some (digits, cat) ->
  digits <> [] /\ Forall (fun c => is_decimal c = true) digits
  /\ cat <> [] /\ 10%N ∉ cat.
Proof.
  unfold match_rank. cbv zeta.
  set (t1 := match t with
             | c :: r => if (c =? ch "#")%N then r else t
             | [] => t
             end).
  pose proof (span_prefix is_decimal t1) as Hdigits.
  destruct (span is_decimal t1) as [ds r1]. simpl in Hdigits.
  destruct (span py_isspace r1) as [blanks r2].
  destruct ds as [|d0 ds]; [discriminate|].
  destruct blanks as [|b0 blanks]; [discriminate|].
  destruct r2 as [|c1 [|c2 r3]]; try discriminate.
  destruct (_ && _); [|discriminate].
  destruct (category_after _ r3) as [cat'|] eqn:Hcat; [|discriminate].
  intros [= <- <-]. apply category_after_Some in Hcat as [Hne Hlf].
  repeat split; [discriminate|exact Hdigits|exact Hne|exact Hlf].
Qed.

(** X19. Every subcategory [format_subcategories] returns has a URL that
    is not empty and holds no closing parenthesis, and a category that
    is not empty; a rank, when there is one, is a run of one or more
    decimal digits and its category then holds no line feed, and with no
    rank the category is the text of the link, free of closing
    brackets. *)
Theorem format_subcategories_entries (v : value) (subs : list Subcategory) :
  format_subcategories v = Ok subs ->
  Forall (fun e =>
            sub_url e <> [] /\ (ch ")" ∉ sub_url e) /\ sub_category e <> []
            /\ match sub_rank e with
               | Some digits =>
                   digits <> [] /\ Forall (fun c => is_decimal c = true) digits
                   /\ 10%N ∉ sub_category e
               | None => ch "]" ∉ sub_category e
               end) subs.
Proof.
  unfold format_subcategories.
  destruct (py_not v); [intros [= <-]; constructor|].
  destruct v as [| | | |s]; try discriminate.
  destruct (_ || _); intros [= <-]; [constructor|].
  apply Forall_fmap. unfold findall_links.
  eapply Forall_impl; [apply findall_links_from_links|].
  intros [text url] (Ht & Hbr & Hu & Hpar). unfold compose, subcategory_of.
  simpl in Ht, Hbr, Hu, Hpar.
  destruct (match_rank (strip text)) as [[digits cat]|] eqn:Hrank; cbn.
  - apply match_rank_Some in Hrank as (Hd & Hdigits & Hcat & Hlf). auto 10.
  - auto.
Qed.

(** X20. The text of one ranked subcategory, [[#N in Category](url)]
    with [N] a run of ASCII digits, a category that is trimmed, not
    empty and free of closing brackets and line feeds, and a URL that is
    not empty and free of closing parentheses, is parsed into that rank,
    that category and that URL. *)
Theorem format_subcategories_ranked (digits cat url : str) :
  digits <> [] -> forallb is_ascii_digit digits = true ->
  cat <> [] -> strip cat = cat -> ch "]" ∉ cat -> 10%N ∉ cat ->
  url <> [] -> ch ")" ∉ url ->
  format_subcategories
    (VStr (py "[#" ++ digits ++ py " in " ++ cat ++ py "](" ++ url ++ py ")"))
  = Ok [{| sub_rank := Some digits; sub_category := cat; sub_url := url |}].
Proof.
  intros Hd Hdigits Hcat Hstrip Hbr Hlf Hu Hpar.
  pose proof (strip_ends cat) as [Hhead Hlast]. rewrite Hstrip in Hhead, Hlast.
  set (name := ch "#" :: digits ++ py " in " ++ cat).
  assert (Hname : strip name = name).
  { apply strip_id.
    - intros c r [= <- _]. reflexivity.
    - intros c r. unfold name.
      replace (ch "#" :: digits ++ py " in " ++ cat)
        with ((ch "#" :: digits ++ py " in ") ++ cat)
        by (cbn [app]; now rewrite <- app_assoc).
      rewrite rev_app_distr. destruct (rev cat) as [|x xs] eqn:Hrev.
      + apply (f_equal (@rev char)) in Hrev. rewrite rev_involutive in Hrev.
        simpl in Hrev. congruence.
      + intros [= <- _]. exact (Hlast x xs eq_refl). }
  assert (Hdig : Forall (fun c => is_decimal c = true) digits).
  { apply Forall_forall. intros c Hc. apply ascii_digit_is_decimal.
    rewrite forallb_forall in Hdigits. apply Hdigits. now apply list_elem_of_In. }
  assert (Hnobr : ch "]" ∉ name).
  { unfold name. rewrite not_elem_of_cons, !not_elem_of_app.
    split; [py_neq|]. split; [|split; [by_evaluation|exact Hbr]].
    intros Hin. rewrite forallb_forall in Hdigits.
    specialize (Hdigits _ (proj1 (list_elem_of_In _ _) Hin)). discriminate Hdigits. }
  assert (Hrank : match_rank name = Some (digits, cat)).
  { unfold match_rank, name. cbv zeta. rewrite N.eqb_refl.
    change (digits ++ py " in " ++ cat)
      with (digits ++ ch " " :: ch "i" :: ch "n" :: ch " " :: cat).
    rewrite (span_stop is_decimal digits (ch " ") _ Hdig) by reflexivity.
    destruct cat as [|c0 cat0]; [congruence|].
    pose proof (Hhead c0 cat0 eq_refl) as Hc0.
    change (span py_isspace (ch " " :: ch "i" :: ch "n" :: ch " " :: c0 :: cat0))
      with (span py_isspace ([ch " "] ++ ch "i" :: ch "n" :: ch " " :: c0 :: cat0)).
    rewrite (span_stop py_isspace [ch " "] (ch "i") _) by (repeat constructor).
    destruct digits as [|d0 ds]; [congruence|].
    rewrite !N.eqb_refl. cbn [andb].
    change (ch " " :: c0 :: cat0) with ([ch " "] ++ c0 :: cat0).
    rewrite (span_stop py_isspace [ch " "] c0 cat0) by (repeat constructor; assumption).
    cbn [fst length category_after app drop].
    assert (Hsp : span (fun c : char => negb (c =? 10)%N) (c0 :: cat0)
                  = (c0 :: cat0, []))
      by (apply span_all, not_char_forall, Hlf).
    rewrite Hsp. reflexivity. }
  unfold format_subcategories. cbn [py_not app py length Nat.eqb py_str].
  set (s := py "[#" ++ digits ++ py " in " ++ cat ++ py "](" ++ url ++ py ")").
  assert (Hs : s = [ch "["] ++ name ++ [ch "]"; ch "("] ++ url ++ [ch ")"] ++ []).
  { unfold s, name. cbn [app py]. rewrite <- !app_assoc. reflexivity. }
  replace ((length s =? 0)%nat) with false by (rewrite Hs; reflexivity).
  assert (Hblank : (length (strip s) =? 0)%nat = false).
  { apply Nat.eqb_neq. intros Hlen. apply nil_length_inv, strip_nil in Hlen.
    rewrite Hs in Hlen. inversion Hlen as [|? ? Hsp _]. discriminate Hsp. }
  rewrite Hblank. cbn [orb].
  rewrite bool_decide_eq_false_2 by (rewrite Hs; discriminate).
  unfold mbind, result_bind. cbn [py_str rbind].
  unfold findall_links. rewrite Hs at 1. cbn [app findall_links_from].
  pose proof (match_link_here_link name url [] (ltac:(discriminate)) Hnobr Hu Hpar) as Hm.
  cbn [app] in Hm. rewrite Hm.
  clearbody name.
  rewrite findall_links_from_skip
    by (rewrite length_app; cbn [length]; rewrite length_app; cbn [length]; lia).
  cbn [map subcategory_of]. now rewrite Hname, Hrank.
Qed.
End SubcategoryFacts.

(** A list of two subcategories, one without a rank. *)
Lemma format_subcategories_entries_example :
  Forall (fun e =>
            sub_url e <> [] /\ (ch ")" ∉ sub_url e) /\ sub_category e <> []
            /\ match sub_rank e with
               | Some digits =>
                   digits <> []
                   /\ Forall (fun c => is_decimal (ucd := ascii_only) c = true) digits
                   /\ 10%N ∉ sub_category e
               | None => ch "]" ∉ sub_category e
               end)
    [ {| sub_rank := Some (py "2"); sub_category := py "Cozy Mystery";
         sub_url := py "http://example.com/1" |};
      {| sub_rank := None; sub_category := py "Cats"; sub_url := py "http://example.com/2" |} ].
Proof.
  apply (format_subcategories_entries (ucd := ascii_only) (rt := default_interpreter)
           (VStr (py "[#2 in Cozy Mystery](http://example.com/1), [Cats](http://example.com/2)"))).
  vm_compute. reflexivity.
Defined.

Lemma format_subcategories_ranked_example :
  format_subcategories (ucd := ascii_only) (rt := default_interpreter)
    (VStr (py "[#" ++ py "12" ++ py " in " ++ py "Teen & Young Adult" ++ py "]("
           ++ py "http://example.com/1" ++ py ")"))
  = Ok [{| sub_rank := Some (py "12"); sub_category := py "Teen & Young Adult";
           sub_url := py "http://example.com/1" |}].
Proof.
  apply (format_subcategories_ranked (ucd := ascii_only) (rt := default_interpreter)
           (py "12") (py "Teen & Young Adult") (py "http://example.com/1")).
  - discriminate.
  - reflexivity.
  - discriminate.
  - vm_compute. reflexivity.
  - by_evaluation.
  - by_evaluation.
  - discriminate.
  - by_evaluation.
Defined.

(* ================================================================== *)
(** * Counts that come as text *)
(* ================================================================== *)

Lemma ascii_digit_cases (c : char) :
  is_ascii_digit c = true ->
  (c = 48 \/ c = 49 \/ c = 50 \/ c = 51 \/ c = 52 \/ c = 53 \/ c = 54 \/ c = 55
   \/ c = 56 \/ c = 57)%N.
Proof.
  unfold is_ascii_digit, in_range. intros Hc.
  apply andb_true_iff in Hc as [H1 H2]. apply N.leb_le in H1, H2. lia.
Qed.

Lemma take_sign_digit (c : char) (r : str) :
  is_ascii_digit c = true -> take_sign (c :: r) = (false, c :: r).
Proof.
  intros Hc. apply ascii_digit_cases in Hc.
  repeat destruct Hc as [->|Hc]; try subst c; reflexivity.
Qed.

Lemma ascii_digit_no_underscore (c : char) :
  is_ascii_digit c = true -> (c =? underscore)%N = false.
Proof.
  intros Hc. apply ascii_digit_cases in Hc.
  repeat destruct Hc as [->|Hc]; try subst c; reflexivity.
Qed.

Lemma ascii_digit_no_blank (c : char) : is_ascii_digit c = true -> c_isspace c = false.
Proof.
  intros Hc. apply ascii_digit_cases in Hc.
  repeat destruct Hc as [->|Hc]; try subst c; reflexivity.
Qed.

(** The digits of a number spell the number. *)
Lemma N_of_digits_acc (u : Decimal.uint) (acc : positive) :
  fold_left (fun acc c => (10 * acc + (c - 48))%N) (uint_digits u) (N.pos acc)
  = N.pos (Pos.of_uint_acc u acc).
Proof.
  revert acc. induction u; intros acc; cbn [uint_digits fold_left Pos.of_uint_acc];
    [reflexivity|..]; rewrite <- IHu; f_equal; unfold digit_char; lia.
Qed.

Lemma N_of_digits_uint (u : Decimal.uint) : N_of_digits (uint_digits u) = Pos.of_uint u.
Proof.
  unfold N_of_digits.
  induction u; cbn [uint_digits fold_left Pos.of_uint]; [reflexivity|exact IHu|..];
    apply (N_of_digits_acc u).
Qed.

Lemma N_of_digits_of_N (n : N) : N_of_digits (digits_of_N n) = n.
Proof.
  unfold digits_of_N. rewrite N_of_digits_uint. apply DecimalN.Unsigned.of_to.
Qed.

Lemma digits_of_N_not_empty (n : N) : digits_of_N n <> [].
Proof.
  unfold digits_of_N. destruct n as [|p]; [discriminate|].
  cbn [N.to_uint]. pose proof (DecimalPos.Unsigned.to_uint_nonnil p) as Hp.
  destruct (Pos.to_uint p); [congruence|..]; discriminate.
Qed.

(** Trimming leaves alone a text with nothing to trim at either end. *)
Lemma trim_by_id (p : char -> bool) (s : str) :
  (forall c r, s = c :: r -> p c = false) ->
  (forall c r, rev s = c :: r -> p c = false) ->
  rstrip_by p (lstrip_by p s) = s.
Proof.
  intros Hhead Hlast. unfold rstrip_by.
  rewrite (lstrip_by_id _ s Hhead), (lstrip_by_id _ (rev s) Hlast).
  apply rev_involutive.
Qed.

Lemma int_literal_digits_digits (prev : char) (ds : str) :
  (prev =? underscore)%N = false ->
  Forall (fun c => is_ascii_digit c = true) ds ->
  int_literal_digits prev ds = Some ds.
Proof.
  intros Hprev Hds. revert prev Hprev.
  induction Hds as [|c ds Hc Hds IH]; intros prev Hprev; cbn [int_literal_digits].
  - now rewrite Hprev.
  - rewrite (ascii_digit_no_underscore c Hc), Hc.
    now rewrite (IH c (ascii_digit_no_underscore c Hc)).
Qed.

(** The last character of a text that ends in digits. *)
Lemma rev_app_digits_head (a ds : str) (c : char) (r : str) :
  ds <> [] -> Forall (fun c => is_ascii_digit c = true) ds ->
  rev (a ++ ds) = c :: r -> is_ascii_digit c = true.
Proof.
  intros Hne Hds. rewrite rev_app_distr.
  destruct (rev ds) as [|x xs] eqn:Hrev.
  - apply (f_equal (@rev char)) in Hrev. rewrite rev_involutive in Hrev.
    simpl in Hrev. congruence.
  - intros [= <- _]. apply Forall_rev in Hds. rewrite Hrev in Hds.
    now inversion Hds.
Qed.

Section CountsAsText.
Context {ucd : UnicodeData} {rt : Interpreter}.
Variable self : DataMapper.

(** [int] of a text of ASCII characters with nothing to trim: an
    optional sign and digits, within the limit. *)
Lemma int_of_str_signed (s body : str) (neg : bool) :
  forallb is_ascii s = true ->
  (forall c r, s = c :: r -> c_isspace c = false) ->
  (forall c r, rev s = c :: r -> c_isspace c = false) ->
  take_sign s = (neg, body) ->
  body <> [] -> Forall (fun c => is_ascii_digit c = true) body ->
  int_of_str s
  = if exceeds_digit_limit (length body) then Raise ValueError
    else Ok (if neg then - Z.of_N (N_of_digits body) else Z.of_N (N_of_digits body)).
Proof.
  intros Hascii Hhead Hlast Hsign Hne Hds.
  unfold int_of_str, to_ascii_number_text, c_strip.
  rewrite Hascii, (trim_by_id _ s Hhead Hlast), Hsign.
  rewrite (int_literal_digits_digits 0%N body eq_refl Hds).
  destruct body as [|c body]; [congruence|].
  cbn [mbind option_bind length Nat.eqb orb].
  destruct (exceeds_digit_limit _); reflexivity.
Qed.

(** [int] reads the decimal text of [n] as [n], when the text has no
    more digits than the limit allows. *)
Lemma int_of_str_int_str (n : Z) :
  int_of_str (int_str n)
  = if exceeds_digit_limit (length (digits_of_N (Z.abs_N n))) then Raise ValueError
    else Ok n.
Proof.
  pose proof (digits_of_N_are_digits (Z.abs_N n)) as Hds.
  pose proof (digits_of_N_not_empty (Z.abs_N n)) as Hne.
  pose proof (N_of_digits_of_N (Z.abs_N n)) as Hval.
  unfold int_str.
  set (ds := digits_of_N (Z.abs_N n)) in *.
  assert (Hascii : forallb is_ascii ds = true).
  { apply forallb_forall. intros c Hc. apply ascii_digit_is_ascii.
    rewrite Forall_forall in Hds. apply Hds. now apply list_elem_of_In. }
  destruct (n <? 0) eqn:Hneg.
  - etransitivity; [apply (int_of_str_signed (45%N :: ds) ds true)|].
    + cbn [forallb]. now rewrite Hascii.
    + intros c r [= <- _]. reflexivity.
    + intros c r Hs. apply ascii_digit_no_blank.
      exact (rev_app_digits_head [45%N] ds c r Hne Hds Hs).
    + reflexivity.
    + exact Hne.
    + exact Hds.
    + rewrite Hval. destruct (exceeds_digit_limit _); [reflexivity|].
      f_equal. apply Z.ltb_lt in Hneg. lia.
  - etransitivity; [apply (int_of_str_signed ds ds false)|].
    + exact Hascii.
    + intros c r Hs. rewrite Hs in Hds. inversion Hds; subst.
      now apply ascii_digit_no_blank.
    + intros c r Hs. apply ascii_digit_no_blank.
      exact (rev_app_digits_head [] ds c r Hne Hds Hs).
    + destruct ds as [|d0 ds0]; [congruence|].
      inversion Hds; subst. now apply take_sign_digit.
    + exact Hne.
    + exact Hds.
    + rewrite Hval. destruct (exceeds_digit_limit _); [reflexivity|].
      f_equal. apply Z.ltb_ge in Hneg. lia.
Qed.

(** X21. With a rule for [nReviews], a count that comes as its decimal
    text is formatted like the count itself, when it has no more digits
    than the interpreter converts; with more, the text is returned as it
    is, and the count itself raises [ValueError]. *)
Theorem format_field_value_count_as_text (n : Z) :
  is_Some (field_specs self !! py "nReviews") ->
  if exceeds_digit_limit (length (digits_of_N (Z.abs_N n)))
  then format_field_value self (py "nReviews") (VStr (int_str n)) = Ok (int_str n)
       /\ format_field_value self (py "nReviews") (VInt n) = Raise ValueError
  else format_field_value self (py "nReviews") (VStr (int_str n))
       = format_field_value self (py "nReviews") (VInt n).
Proof.
  intros [spec Hspec]. unfold format_field_value, get_field_spec. rewrite Hspec.
  pose proof (digits_of_N_not_empty (Z.abs_N n)) as Hne.
  assert (Hstr : is_none_or_empty (VStr (int_str n)) = false).
  { unfold int_str. destruct (n <? 0); [reflexivity|].
    rewrite app_nil_l. destruct (digits_of_N _); [congruence|reflexivity]. }
  rewrite Hstr. cbn [is_none_or_empty].
  repeat (rewrite bool_decide_eq_false_2 by py_neq).
  rewrite bool_decide_eq_true_2 by reflexivity.
  cbn [py_int py_str]. rewrite int_of_str_int_str.
  unfold int_format_grouped, int_to_str. cbn [rbind].
  destruct (exceeds_digit_limit _) eqn:Hlimit; cbn [rbind]; rewrite ?Hlimit;
    [split|]; reflexivity.
Qed.
End CountsAsText.

(** The count 1234567, as text and as a number. *)
Lemma format_field_value_count_as_text_example :
  format_field_value (ucd := ascii_only) (rt := default_interpreter) sample_mapper (py "nReviews")
    (VStr (int_str 1234567))
  = format_field_value (ucd := ascii_only) (rt := default_interpreter) sample_mapper (py "nReviews") (VInt 1234567).
Proof.
  exact (format_field_value_count_as_text (ucd := ascii_only) (rt := default_interpreter) sample_mapper 1234567
           ltac:(vm_compute; eauto)).
Defined.

(* ================================================================== *)
(** * Formatting a count twice *)
(* ================================================================== *)

(** Grouping adds commas and nothing else, *)
Lemma group3_rev_Forall (P : char -> Prop) (fuel : nat) (rds : str) :
  P 44%N -> Forall P rds -> Forall P (group3_rev fuel rds).
Proof.
  intros Hcomma. revert rds. induction fuel as [|fuel IH]; intros rds Hall.
  - destruct rds as [|a [|b [|c [|d more]]]]; exact Hall.
  - destruct rds as [|a [|b [|c [|d more]]]]; try exact Hall.
    cbn [group3_rev skipn].
    inversion Hall as [|? ? Ha Hall1]; subst.
    inversion Hall1 as [|? ? Hb Hall2]; subst.
    inversion Hall2 as [|? ? Hc Hall3]; subst.
    repeat constructor; try assumption. now apply IH.
Qed.

(** keeps the first character, *)
Lemma group3_rev_head (fuel : nat) (rds : str) (c : char) (r : str) :
  group3_rev fuel rds = c :: r -> exists r', rds = c :: r'.
Proof.
  destruct fuel as [|fuel]; destruct rds as [|a [|b [|x [|d more]]]];
    cbn [group3_rev]; intros [= <- <-]; eauto.
Qed.

(** and keeps the last one. *)
Lemma group3_rev_last (fuel : nat) (rds : str) :
  last (group3_rev fuel rds) = last rds.
Proof.
  revert rds. induction fuel as [|fuel IH]; intros rds.
  - destruct rds as [|a [|b [|c [|d more]]]]; reflexivity.
  - destruct rds as [|a [|b [|c [|d more]]]]; try reflexivity.
    cbn [group3_rev skipn]. rewrite !last_cons, IH, !last_cons.
    destruct (last more); reflexivity.
Qed.

Lemma rev_head_last (l : str) (c : char) (r : str) :
  rev l = c :: r -> last l = Some c.
Proof.
  intros Hrev. apply (f_equal (@rev char)) in Hrev. rewrite rev_involutive in Hrev.
  rewrite Hrev. cbn [rev]. apply last_snoc.
Qed.

Lemma last_digit (l : str) (c : char) :
  Forall (fun c => is_ascii_digit c = true) l -> last l = Some c ->
  is_ascii_digit c = true.
Proof.
  intros Hall Hlast. rewrite Forall_forall in Hall.
  apply Hall. now apply last_Some_elem_of.
Qed.

(** A comma among digits is no [int] literal. *)
Lemma int_literal_digits_comma (prev : char) (body : str) :
  Forall (fun c => is_ascii_digit c = true \/ c = 44%N) body ->
  44%N ∈ body ->
  int_literal_digits prev body = None.
Proof.
  intros Hall. revert prev. induction Hall as [|c body Hc Hall IH]; intros prev Hin.
  - inversion Hin.
  - cbn [int_literal_digits]. destruct Hc as [Hc| ->].
    + rewrite (ascii_digit_no_underscore c Hc), Hc.
      apply elem_of_cons in Hin as [<-|Hin]; [discriminate Hc|].
      now rewrite (IH c Hin).
    + reflexivity.
Qed.

(** The grouped digits of a number: digits and commas, a digit first
    and a digit last. *)
Lemma grouped_digits (m : N) :
  let body := rev (group3_rev (length (digits_of_N m)) (rev (digits_of_N m))) in
  Forall (fun c => is_ascii_digit c = true \/ c = 44%N) body
  /\ (forall c r, body = c :: r -> is_ascii_digit c = true)
  /\ (forall c r, rev body = c :: r -> is_ascii_digit c = true)
  /\ body <> [].
Proof.
  pose proof (digits_of_N_are_digits m) as Hds.
  pose proof (digits_of_N_not_empty m) as Hne.
  set (ds := digits_of_N m) in *. cbv zeta.
  set (X := group3_rev (length ds) (rev ds)).
  split; [|split; [|split]].
  - apply Forall_rev. apply group3_rev_Forall; [now right|].
    apply Forall_rev. eapply Forall_impl; [exact Hds|]. intros c Hc. now left.
  - intros c r Hbody.
    assert (Hlast : last X = Some c).
    { apply (rev_head_last X c r). exact Hbody. }
    unfold X in Hlast. rewrite group3_rev_last in Hlast.
    apply (last_digit (rev ds)); [now apply Forall_rev|exact Hlast].
  - intros c r. rewrite rev_involutive. intros HX.
    apply group3_rev_head in HX as [r' Hrev].
    apply Forall_rev in Hds. rewrite Hrev in Hds. now inversion Hds.
  - intros Hnil. apply (f_equal (@rev char)) in Hnil. rewrite rev_involutive in Hnil.
    cbn [rev] in Hnil. pose proof (group3_rev_last (length ds) (rev ds)) as Hlast.
    fold X in Hlast. rewrite Hnil in Hlast. cbn [last] in Hlast.
    symmetry in Hlast. apply last_None in Hlast.
    apply (f_equal (@rev char)) in Hlast. rewrite rev_involutive in Hlast.
    cbn [rev] in Hlast. congruence.
Qed.

(** ** The number of digits of the integer part of a float *)

Lemma digits2_pos_bound (m : positive) : Z.pos m < 2 ^ Z.pos (digits2_pos m).
Proof.
  induction m as [m IH|m IH|]; cbn [digits2_pos]; [| |reflexivity];
    rewrite Pos2Z.inj_succ, Z.pow_succ_r by lia; lia.
Qed.

(** [int] of a float is below [2 ^ 1024] in magnitude. *)
Lemma int_of_float_bound (x : float) (n : Z) :
  int_of_float x = Ok n -> Z.abs n < 2 ^ 1024.
Proof.
  unfold int_of_float. pose proof (FloatAxioms.Prim2SF_valid x) as Hv.
  destruct (Prim2SF x) as [sg|sg| |sg m e]; try discriminate.
  { intros [= <-]. reflexivity. }
  intros [= <-]. cbn [SpecFloat.valid_binary] in Hv.
  unfold bounded, canonical_mantissa, fexp, SpecFloat.emin, prec, emax in Hv.
  apply andb_true_iff in Hv as [Hc He]. apply Z.eqb_eq in Hc. apply Z.leb_le in He.
  pose proof (digits2_pos_bound m) as Hm.
  assert (Hm53 : Z.pos m < 2 ^ 53).
  { eapply Z.lt_le_trans; [exact Hm|]. apply Z.pow_le_mono_r; lia. }
  assert (Ha : 0 <= (if 0 <=? e then Z.pos m * 2 ^ e else Z.pos m / 2 ^ (- e))
               < 2 ^ 1024).
  { destruct (0 <=? e) eqn:Hpos.
    - apply Z.leb_le in Hpos.
      assert (Hpow : 2 ^ e <= 2 ^ 971) by (apply Z.pow_le_mono_r; lia).
      assert (Hpos2 : 0 < 2 ^ e) by (apply Z.pow_pos_nonneg; lia).
      replace (2 ^ 1024) with (2 ^ 53 * 2 ^ 971) by reflexivity.
      set (A := 2 ^ 53) in *. set (B := 2 ^ 971) in *. set (C := 2 ^ e) in *.
      assert (HB : 0 < B) by reflexivity.
      split; [nia|]. apply Z.le_lt_trans with (Z.pos m * B); nia.
    - apply Z.leb_gt in Hpos.
      assert (Hpos2 : 0 < 2 ^ (- e)) by (apply Z.pow_pos_nonneg; lia).
      split; [apply Z.div_pos; lia|].
      apply Z.le_lt_trans with (Z.pos m).
      + apply Z.div_le_upper_bound; [exact Hpos2|]. nia.
      + eapply Z.lt_le_trans; [exact Hm53|]. apply Z.pow_le_mono_r; lia. }
  set (a := if 0 <=? e then _ else _) in *. set (B := 2 ^ 1024) in *.
  destruct sg; lia.
Qed.

(** The digits of a number start with a digit other than [0], but for
    the one digit of [0]. *)
Lemma digits_of_N_head (n : N) :
  digits_of_N n = [48%N]
  \/ exists c r, digits_of_N n = c :: r /\ (49 <= c)%N.
Proof.
  unfold digits_of_N.
  assert (Hn : Decimal.unorm (N.to_uint n) = N.to_uint n).
  { rewrite <- (DecimalN.Unsigned.to_of (N.to_uint n)).
    now rewrite DecimalN.Unsigned.of_to. }
  destruct (N.to_uint n) as [|u|u|u|u|u|u|u|u|u|u];
    [discriminate Hn| |right; eexists _, _; split; [reflexivity|unfold digit_char; lia]..].
  left. rewrite DecimalFacts.unorm_D0 in Hn.
  destruct u; try reflexivity;
    match type of Hn with
    | Decimal.unorm ?v = _ =>
        pose proof (DecimalFacts.nb_digits_unorm v ltac:(discriminate)) as Hlen;
        rewrite Hn in Hlen; cbn [Decimal.nb_digits] in Hlen; lia
    end.
Qed.

Lemma N_of_digits_lower (ds : str) (acc : N) :
  (acc * 10 ^ N.of_nat (length ds)
   <= fold_left (fun acc c => 10 * acc + (c - 48)) ds acc)%N.
Proof.
  revert acc. induction ds as [|c ds IH]; intros acc; cbn [fold_left length].
  - cbn. lia.
  - etransitivity; [|apply IH]. rewrite Nat2N.inj_succ, N.pow_succ_r'. nia.
Qed.

(** A number below [10 ^ k] has at most [k] digits. *)
Lemma digits_of_N_length (n : N) (k : nat) :
  (0 < k)%nat -> (n < 10 ^ N.of_nat k)%N -> (length (digits_of_N n) <= k)%nat.
Proof.
  intros Hk Hn. pose proof (N_of_digits_of_N n) as Hval.
  destruct (digits_of_N_head n) as [->|(c & r & Hds & Hc)]; [cbn [length]; lia|].
  rewrite Hds in Hval |- *. unfold N_of_digits in Hval. cbn [fold_left] in Hval.
  pose proof (N_of_digits_lower r (10 * 0 + (c - 48))%N) as Hlow.
  rewrite Hval in Hlow.
  assert (Hlt : (10 ^ N.of_nat (length r) < 10 ^ N.of_nat k)%N).
  { eapply N.le_lt_trans; [|exact Hn]. etransitivity; [|exact Hlow].
    set (P := (10 ^ N.of_nat (length r))%N). nia. }
  apply N.pow_lt_mono_r_iff in Hlt; [|lia]. cbn [length]. lia.
Qed.

Section CountTwice.
Context {ucd : UnicodeData} {rt : Interpreter}.
Variable self : DataMapper.

(** Below the threshold of the interpreter, no number of digits is
    beyond the limit. *)
Lemma exceeds_digit_limit_small (k : nat) :
  (k <= str_digits_threshold)%nat -> exceeds_digit_limit k = false.
Proof.
  intros Hk. unfold exceeds_digit_limit.
  replace (str_digits_threshold <? k)%nat with false
    by (symmetry; apply Nat.ltb_ge; exact Hk).
  now rewrite andb_false_r.
Qed.

(** The integer part of a float is within the limit on digits. *)
Lemma int_of_float_within_limit (x : float) (n : Z) :
  int_of_float x = Ok n ->
  exceeds_digit_limit (length (digits_of_N (Z.abs_N n))) = false.
Proof.
  intros Hx. apply exceeds_digit_limit_small. unfold str_digits_threshold.
  apply digits_of_N_length; [lia|].
  apply int_of_float_bound in Hx.
  apply N2Z.inj_lt. rewrite N2Z.inj_abs_N.
  eapply Z.lt_trans; [exact Hx|]. vm_compute. reflexivity.
Qed.

Lemma int_of_str_comma (s body : str) (neg : bool) :
  forallb is_ascii s = true ->
  (forall c r, s = c :: r -> c_isspace c = false) ->
  (forall c r, rev s = c :: r -> c_isspace c = false) ->
  take_sign s = (neg, body) ->
  Forall (fun c => is_ascii_digit c = true \/ c = 44%N) body ->
  44%N ∈ body ->
  int_of_str s = Raise ValueError.
Proof.
  intros Hascii Hhead Hlast Hsign Hall Hin.
  unfold int_of_str, to_ascii_number_text, c_strip.
  rewrite Hascii, (trim_by_id _ s Hhead Hlast), Hsign.
  now rewrite (int_literal_digits_comma 0%N body Hall Hin).
Qed.

(** [int] of a grouped count within the limit: the count, or
    [ValueError] because of a comma. *)
Lemma int_of_str_grouped (n : Z) :
  exceeds_digit_limit (length (digits_of_N (Z.abs_N n))) = false ->
  int_of_str (group_thousands n) = Ok n
  \/ int_of_str (group_thousands n) = Raise ValueError.
Proof.
  intros Hlimit.
  destruct (decide (44%N ∈ group_thousands n)) as [Hcomma|Hnone].
  - right. revert Hcomma. unfold group_thousands. cbv zeta.
    destruct (grouped_digits (Z.abs_N n)) as (Hall & Hhead & Hlast & Hne).
    cbv zeta in Hall, Hhead, Hlast, Hne.
    set (body := rev (group3_rev _ _)) in *. clearbody body.
    assert (Hascii : forallb is_ascii body = true).
    { apply forallb_forall. intros c Hc. rewrite Forall_forall in Hall.
      destruct (Hall c (proj2 (list_elem_of_In _ _) Hc)) as [Hd| ->];
        [now apply ascii_digit_is_ascii|reflexivity]. }
    assert (Hend : forall a c r, rev (a ++ body) = c :: r -> c_isspace c = false).
    { intros a c r. rewrite rev_app_distr.
      destruct (rev body) as [|x xs] eqn:Hrev.
      - apply (f_equal (@rev char)) in Hrev. rewrite rev_involutive in Hrev.
        simpl in Hrev. congruence.
      - intros [= <- _]. apply ascii_digit_no_blank. exact (Hlast x xs eq_refl). }
    destruct (n <? 0); intros Hcomma.
    + apply (int_of_str_comma (45%N :: body) body true).
      * cbn [forallb]. now rewrite Hascii.
      * intros c r [= <- _]. reflexivity.
      * exact (Hend [45%N]).
      * reflexivity.
      * exact Hall.
      * apply elem_of_cons in Hcomma as [Heq|Hin]; [discriminate Heq|exact Hin].
    + apply (int_of_str_comma body body false).
      * exact Hascii.
      * intros c r Hb. apply ascii_digit_no_blank. exact (Hhead c r Hb).
      * exact (Hend []).
      * destruct body as [|c r]; [congruence|].
        apply take_sign_digit. exact (Hhead c r eq_refl).
      * exact Hall.
      * exact Hcomma.
  - left. replace (group_thousands n) with (int_str n).
    + rewrite int_of_str_int_str. now rewrite Hlimit.
    + rewrite <- (group_thousands_without_commas n).
      apply filter_Forall_id. apply Forall_forall. intros c Hc ->. contradiction.
Qed.

Lemma group_thousands_not_empty (n : Z) : group_thousands n <> [].
Proof.
  intros Hnil. pose proof (group_thousands_without_commas n) as Hf.
  rewrite Hnil in Hf. cbn in Hf. symmetry in Hf. unfold int_str in Hf.
  apply app_eq_nil in Hf as [_ Hf]. exact (digits_of_N_not_empty _ Hf).
Qed.

Lemma format_count_unfold (v : value) :
  is_Some (field_specs self !! py "nReviews") ->
  format_field_value self (py "nReviews") v
  = if is_none_or_empty v then Ok (py "N/A")
    else catch_value_type (rbind (py_int v) (fun n => int_format_grouped n))
           (py_str v).
Proof.
  intros [spec Hspec]. unfold format_field_value, get_field_spec. rewrite Hspec.
  destruct (is_none_or_empty v); [reflexivity|].
  repeat (rewrite bool_decide_eq_false_2 by py_neq).
  now rewrite bool_decide_eq_true_2 by reflexivity.
Qed.

(** X22. With a rule for [nReviews], formatting is idempotent: the text
    the normaliser gives for a value is what it gives for that text. *)
Theorem format_field_value_count_twice (v : value) (s : str) :
  is_Some (field_specs self !! py "nReviews") ->
  format_field_value self (py "nReviews") v = Ok s ->
  format_field_value self (py "nReviews") (VStr s) = Ok s.
Proof.
  intros Hspec Hf. pose proof Hf as Hv.
  rewrite (format_count_unfold v Hspec) in Hv.
  destruct (is_none_or_empty v) eqn:Hempty.
  { injection Hv as <-. rewrite (format_count_unfold _ Hspec). reflexivity. }
  assert (Htext : forall t, v = VStr t -> py_str v = Ok s ->
                            format_field_value self (py "nReviews") (VStr s) = Ok s).
  { intros t -> [= <-]. exact Hf. }
  destruct (py_int v) as [n|e] eqn:Hint.
  - cbn [rbind] in Hv. unfold int_format_grouped in Hv.
    destruct (exceeds_digit_limit (length (digits_of_N (Z.abs_N n)))) eqn:Hlimit.
    + (* the count is beyond the limit: the text of the value *)
      cbn [catch_value_type] in Hv.
      destruct v as [|b|m|x|t]; [discriminate Hint| | | |exact (Htext t eq_refl Hv)].
      * injection Hint as <-.
        rewrite exceeds_digit_limit_small in Hlimit; [discriminate Hlimit|].
        destruct b; cbn; unfold str_digits_threshold; lia.
      * injection Hint as <-. cbn [py_str] in Hv. unfold int_to_str in Hv.
        rewrite Hlimit in Hv. discriminate Hv.
      * cbn [py_int] in Hint.
        rewrite (int_of_float_within_limit x n Hint) in Hlimit. discriminate Hlimit.
    + cbn [catch_value_type] in Hv. injection Hv as <-.
      rewrite (format_count_unfold _ Hspec).
      pose proof (group_thousands_not_empty n) as Hne.
      destruct (group_thousands n) as [|c r] eqn:Hg; [congruence|].
      cbn [is_none_or_empty py_int py_str]. rewrite <- Hg.
      destruct (int_of_str_grouped n Hlimit) as [-> | ->]; [|reflexivity].
      cbn [rbind]. unfold int_format_grouped. rewrite Hlimit. reflexivity.
  - cbn [rbind] in Hv.
    destruct v as [|b|m|x|t];
      [discriminate Hempty|discriminate Hint|discriminate Hint| |].
    + (* a float: not a number *)
      cbn [py_int] in Hint. unfold int_of_float in Hint.
      cbn [py_str] in Hv. unfold float_repr in Hv.
      destruct (Prim2SF x) as [sg|sg| |sg mant ex]; try discriminate Hint.
      * injection Hint as <-. discriminate Hv.
      * injection Hint as <-. cbn in Hv. injection Hv as <-.
        rewrite (format_count_unfold _ Hspec). reflexivity.
    + (* a text *)
      apply (Htext t eq_refl).
      destruct e; first [exact Hv|discriminate Hv].
Qed.
End CountTwice.

(** A count with commas, formatted again. *)
Lemma format_field_value_count_twice_example :
  format_field_value (ucd := ascii_only) (rt := default_interpreter) sample_mapper (py "nReviews") (VStr (py "1,234,567"))
  = Ok (py "1,234,567").
Proof.
  apply (format_field_value_count_twice (ucd := ascii_only) (rt := default_interpreter) sample_mapper (VInt 1234567)).
  - vm_compute. eauto.
  - vm_compute. reflexivity.
Defined.
